(** * NewWork backend: the streaming conversation engine, the tool
    execution engine and the MCP connection layer

    A shallow embedding of the Python sources under
    [newwork-backend/app] together with the properties the design
    document states about them.  Dictionaries are [gmap]s, Python sets are
    [gset]s, classes are records, generators are functions returning the
    list of events they yield, and the values the environment supplies
    (provider streams, [uuid4()], the outcome of a subprocess handshake)
    are explicit arguments. *)

From Stdlib Require Import ZArith Lia Ascii.
From stdpp Require Import base option list strings gmap pretty.

(** ** JSON values ([Dict[str, Any]] payloads) *)

Module Json.

(** Objects keep their fields in insertion order, as Python dicts do.
    Numbers are the integers; no property below looks inside a float. *)
#[local] Set Warnings "-register-all".
Inductive value : Type :=
| JNull
| JBool (b : bool)
| JNum (z : Z)
| JStr (s : string)
| JArr (items : list value)
| JObj (fields : list (string * value)).
#[local] Set Warnings "+register-all".

Definition value_eq_dec : ∀ a b : value, {a = b} + {a ≠ b}.
Proof.
  fix IH 1. intros a b. decide equality.
  - apply bool_dec.
  - apply Z.eq_dec.
  - apply String.string_dec.
  - apply (List.list_eq_dec IH).
  - apply List.list_eq_dec. intros [k v] [k' v'].
    decide equality. apply String.string_dec.
Defined.

#[global] Instance value_eq_decision : EqDecision value := value_eq_dec.

(** The literal [{}]. *)
Definition empty_object : value := JObj [].

(** [d.get(key)] on an object; [None] on a missing key. *)
Definition get (key : string) (v : value) : option value :=
  match v with
  | JObj fields => snd <$> List.find (λ kv, String.eqb (fst kv) key) fields
  | _ => None
  end.

(** Python truthiness. *)
Definition truthy (v : value) : bool :=
  match v with
  | JNull => false
  | JBool b => b
  | JNum z => negb (z =? 0)%Z
  | JStr s => negb (String.eqb s "")
  | JArr items => match items with [] => false | _ => true end
  | JObj fields => match fields with [] => false | _ => true end
  end.

(** [repr] of a [str]: between single quotes, or between double
    quotes when the text holds a single quote and no double quote; the
    quote used and the backslash are escaped, and so is every character
    that is not printable. *)
Definition hex_digit (n : nat) : ascii :=
  nth n (String.list_ascii_of_string "0123456789abcdef") "0"%char.

Definition escaped (quote c : ascii) : string :=
  let n := nat_of_ascii c in
  if Ascii.eqb c quote || Ascii.eqb c "\"%char then String "\" (String c "")
  else if n =? 9 then "\t"
  else if n =? 10 then "\n"
  else if n =? 13 then "\r"
  else if (n <? 32) || (n =? 127) || ((128 <=? n) && (n <=? 160)) || (n =? 173)
  then "\x" +:+ String (hex_digit (n / 16)) (String (hex_digit (n mod 16)) "")
  else String c "".

Definition str_repr (s : string) : string :=
  let cs := String.list_ascii_of_string s in
  let quote :=
    if bool_decide ("'"%char ∈ cs) && negb (bool_decide (ascii_of_nat 34 ∈ cs))
    then ascii_of_nat 34 else "'"%char in
  String quote
    (fold_right (λ c rest, escaped quote c +:+ rest) (String quote "") cs).

Definition join_with (sep : string) (items : list string) : string :=
  match items with
  | [] => ""
  | first :: rest => fold_left (λ acc item, acc +:+ sep +:+ item) rest first
  end.

(** [repr(v)] and [str(v)] *)
Fixpoint py_repr (v : value) : string :=
  match v with
  | JNull => "None"
  | JBool b => if b then "True" else "False"
  | JNum z => pretty z
  | JStr s => str_repr s
  | JArr items => "[" +:+ join_with ", " (map py_repr items) +:+ "]"
  | JObj fields =>
      "{" +:+ join_with ", "
                (map (λ kv, str_repr (fst kv) +:+ ": " +:+ py_repr (snd kv))
                     fields)
      +:+ "}"
  end.

Definition py_str (v : value) : string :=
  match v with JStr s => s | _ => py_repr v end.

(** [type(v).__name__] *)
Definition py_type (v : value) : string :=
  match v with
  | JNull => "NoneType"
  | JBool _ => "bool"
  | JNum _ => "int"
  | JStr _ => "str"
  | JArr _ => "list"
  | JObj _ => "dict"
  end.

End Json.

(** ** [app/services/llm/base.py] *)

Module Llm.

Inductive MessageRole := SYSTEM | USER | ASSISTANT | TOOL.

#[global] Instance MessageRole_eq_dec : EqDecision MessageRole.
Proof. solve_decision. Defined.

Record ToolUse := mkToolUse {
  tu_id : string;
  tu_name : string;
  tu_arguments : Json.value }.

#[global] Instance ToolUse_eq_dec : EqDecision ToolUse.
Proof. solve_decision. Defined.

Record ToolResult := mkToolResult {
  tool_use_id : string;
  tr_content : string;
  is_error : bool }.

#[global] Instance ToolResult_eq_dec : EqDecision ToolResult.
Proof. solve_decision. Defined.

Inductive StreamEventType :=
| TEXT_DELTA | TOOL_USE_START | TOOL_USE_DELTA | TOOL_USE_END
| MESSAGE_START | MESSAGE_DELTA | MESSAGE_END | ERROR.

#[global] Instance StreamEventType_eq_dec : EqDecision StreamEventType.
Proof. solve_decision. Defined.

(** The dataclass [StreamEvent]: a type tag and optional fields. *)
Record StreamEvent := mkStreamEvent {
  se_type : StreamEventType;
  se_text : option string;
  se_tool_use : option ToolUse;
  se_tool_use_id : option string;
  se_tool_name : option string;
  se_tool_input_delta : option string;
  se_error : option string;
  se_usage : option (gmap string Z) }.

(** [StreamEvent(type=t)], every other field at its default [None]. *)
Definition event (t : StreamEventType) : StreamEvent :=
  mkStreamEvent t None None None None None None None.

End Llm.

(** Python truthiness of a [str] and of an [Optional[str]]. *)
Definition truthy (s : string) : bool := negb (String.eqb s "").

Definition truthy_opt (o : option string) : bool :=
  match o with Some s => truthy s | None => false end.

(** [list.index(x)]: the position of the first element equal to [x];
    [None] stands for the [ValueError] of an absent element. *)
Fixpoint index {A} `{EqDecision A} (x : A) (l : list A) : option nat :=
  match l with
  | [] => None
  | y :: l' => if decide (y = x) then Some 0 else S <$> index x l'
  end.

(** ** [app/services/conversation_service.py] *)

Module Conv.
Import Llm.

(** [created_at] and [metadata] are left out: nothing below reads
    them, and the equality of two messages, which compares them too,
    is only used between messages of one conversation, whose ids
    differ.  [id] is the [str(uuid4())] drawn when the message is
    made. *)
Record ConversationMessage := mkMsg {
  id : string;
  role : MessageRole;
  content : string;
  tool_uses : list ToolUse;
  tool_results : list ToolResult;
  tokens_used : option Z }.

#[global] Instance ConversationMessage_eq_dec : EqDecision ConversationMessage.
Proof. solve_decision. Defined.

Record Conversation := mkConv {
  session_id : string;
  messages : list ConversationMessage;
  system_prompt : option string;
  model : string;
  provider : string;
  total_input_tokens : Z;
  total_output_tokens : Z }.

Definition with_messages (ms : list ConversationMessage) (c : Conversation)
  : Conversation :=
  mkConv (session_id c) ms (system_prompt c) (model c) (provider c)
         (total_input_tokens c) (total_output_tokens c).

(** Each mutator takes the fresh [uuid4()] string as [mid]. *)
Definition add_user_message (mid content : string) (c : Conversation)
  : Conversation :=
  with_messages (messages c ++ [mkMsg mid USER content [] [] None]) c.

Definition add_assistant_message (mid content : string)
    (tus : option (list ToolUse)) (tokens : option Z) (c : Conversation)
  : Conversation :=
  let message := mkMsg mid ASSISTANT content (default [] tus) [] tokens in
  let c' := with_messages (messages c ++ [message]) c in
  match tokens with
  | Some t =>
      if (t =? 0)%Z then c'
      else mkConv (session_id c') (messages c') (system_prompt c') (model c')
                  (provider c') (total_input_tokens c')
                  (total_output_tokens c' + t)
  | None => c'
  end.

Definition add_tool_results (mid : string) (trs : list ToolResult)
    (c : Conversation) : Conversation :=
  with_messages (messages c ++ [mkMsg mid USER "" [] trs None]) c.

Definition is_assistant (m : ConversationMessage) : bool :=
  bool_decide (role m = ASSISTANT).

Definition get_last_assistant_message (c : Conversation)
  : option ConversationMessage :=
  List.find is_assistant (reverse (messages c)).

Definition has_tool_results (m : ConversationMessage) : bool :=
  negb (bool_decide (tool_results m = [])).

(** [self.messages.index(last_assistant)] compares with the dataclass
    [==]; it cannot raise, the message was taken from the list. *)
Definition get_pending_tool_uses (c : Conversation) : list ToolUse :=
  match get_last_assistant_message c with
  | None => []
  | Some last_assistant =>
      if bool_decide (tool_uses last_assistant = []) then []
      else
        match index last_assistant (messages c) with
        | None => []
        | Some assistant_idx =>
            if existsb has_tool_results (drop (S assistant_idx) (messages c))
            then []
            else tool_uses last_assistant
        end
  end.

Definition update_token_usage (input_tokens output_tokens : Z)
    (c : Conversation) : Conversation :=
  mkConv (session_id c) (messages c) (system_prompt c) (model c)
         (provider c) (total_input_tokens c + input_tokens)
         (total_output_tokens c + output_tokens).

End Conv.

(** ** [pathlib] paths, as [app/tools/base.py] uses them *)

Module Pathlib.

(** A POSIX path is an anchor and its components.  Two leading slashes
    are an anchor of their own ([PurePosixPath('//a').root == '//']). *)
Inductive anchor := Relative | Root | DoubleRoot.

#[global] Instance anchor_eq_dec : EqDecision anchor.
Proof. solve_decision. Defined.

Record Path := mkPath { path_anchor : anchor; parts : list string }.

#[global] Instance Path_eq_dec : EqDecision Path.
Proof. solve_decision. Defined.

Definition is_absolute (p : Path) : bool :=
  match path_anchor p with Relative => false | _ => true end.

(** [s.split('/')] *)
Fixpoint split_slash (cur : string) (s : string) : list string :=
  match s with
  | EmptyString => [cur]
  | String c s' =>
      if Ascii.eqb c "/"%char then cur :: split_slash "" s'
      else split_slash (cur +:+ String c EmptyString) s'
  end.

Fixpoint leading_slashes (s : string) : nat :=
  match s with
  | String c s' => if Ascii.eqb c "/"%char then S (leading_slashes s') else 0
  | EmptyString => 0
  end.

Definition is_component (s : string) : bool :=
  negb (String.eqb s "") && negb (String.eqb s ".").

(** [Path(path_str)]: empty and [.] components vanish, [..] stays. *)
Definition parse (s : string) : Path :=
  mkPath (match leading_slashes s with
          | 0 => Relative
          | 2 => DoubleRoot
          | _ => Root
          end)
         (filter (λ x, is_component x = true) (split_slash "" s)).

(** [a / b] *)
Definition joinpath (a b : Path) : Path :=
  if is_absolute b then b else mkPath (path_anchor a) (parts a ++ parts b).

Definition is_prefix (l1 l2 : list string) : bool :=
  bool_decide (take (length l1) l2 = l1).

(** [p.is_relative_to(other)]: anchors and leading components agree,
    compared component by component. *)
Definition is_relative_to (p other : Path) : bool :=
  bool_decide (path_anchor p = path_anchor other)
  && is_prefix (parts other) (parts p).

Definition join_parts (ps : list string) : string :=
  match ps with
  | [] => ""
  | x :: xs => fold_left (λ acc y, acc +:+ "/" +:+ y) xs x
  end.

(** [str(p)] *)
Definition to_str (p : Path) : string :=
  match path_anchor p, parts p with
  | Relative, [] => "."
  | Relative, ps => join_parts ps
  | Root, ps => "/" +:+ join_parts ps
  | DoubleRoot, ps => "//" +:+ join_parts ps
  end.

(** [Path.resolve()] on a file system without symbolic links: a relative
    path is put under the working directory, then every [..] drops the
    component before it (and is dropped itself at the root).  The result
    starts with one slash, also for a path written with two. *)
Definition pop_dotdot (acc : list string) (x : string) : list string :=
  if String.eqb x ".." then removelast acc else acc ++ [x].

Definition lexical_resolve (cwd : list string) (p : Path) : Path :=
  match path_anchor p with
  | Relative => mkPath Root (fold_left pop_dotdot (cwd ++ parts p) [])
  | Root | DoubleRoot => mkPath Root (fold_left pop_dotdot (parts p) [])
  end.

End Pathlib.

(** ** [str] methods used by the tools *)

(** A text is the list of its characters.  The functions are written
    for characters of any type; [string] gives the texts whose
    characters are the 256 of [ascii]. *)
Module PyStr.

Section Text.
Context {A : Type} `{EqDecision A}.

Fixpoint starts_with (pat s : list A) : bool :=
  match pat, s with
  | [], _ => true
  | p :: pat', c :: s' => bool_decide (p = c) && starts_with pat' s'
  | _ :: _, [] => false
  end.

(** The text between the occurrences of a non-empty [old], found from
    the left and never overlapping: at a match the running piece is
    closed and the rest of the match is skipped. *)
Fixpoint pieces (old : list A) (skip : nat) (cur s : list A)
  : list (list A) :=
  match s with
  | [] => [cur]
  | c :: s' =>
      match skip with
      | S k => pieces old k cur s'
      | 0 =>
          if starts_with old s
          then cur :: pieces old (length old - 1) [] s'
          else pieces old 0 (cur ++ [c]) s'
      end
  end.

(** The empty pattern occurs before every character and at the end. *)
Definition split_text (old s : list A) : list (list A) :=
  match old with
  | [] => [] :: map (λ c, [c]) s ++ [[]]
  | _ :: _ => pieces old 0 [] s
  end.

Fixpoint join (sep : list A) (ps : list (list A)) : list A :=
  match ps with
  | [] => []
  | [p] => p
  | p :: ps' => p ++ sep ++ join sep ps'
  end.

End Text.

Definition chars : string → list ascii := String.list_ascii_of_string.
Definition text : list ascii → string := String.string_of_list_ascii.

(** [s.count(old)] *)
Definition count (old s : string) : nat :=
  length (split_text (chars old) (chars s)) - 1.

(** [old in s] *)
Definition contains (old s : string) : bool := 0 <? count old s.

(** [s.replace(old, new)] *)
Definition replace (old new s : string) : string :=
  text (join (chars new) (split_text (chars old) (chars s))).

(** [s.replace(old, new, 1)] *)
Definition replace_first (old new s : string) : string :=
  match split_text (chars old) (chars s) with
  | p :: q :: rest => text (p ++ chars new ++ join (chars old) (q :: rest))
  | _ => s
  end.

(** [s[:n]] *)
Definition take (n : nat) (s : string) : string := String.substring 0 n s.

End PyStr.

(** ** [app/tools/base.py]: the sandbox of a tool call *)

Module ToolBase.
Import Pathlib.

(** [user_id], [environment] and [timeout] play no part in path
    checks and are left out. *)
Record ToolContext := mkToolContext {
  workspace_path : Path;
  session_id : string;
  allowed_paths : list Path }.

(** What a function gives back: a value, or the text of the exception
    it raised. *)
Inductive outcome (A : Type) :=
| Returned (a : A)
| Raised (msg : string).
Arguments Returned {A} a.
Arguments Raised {A} msg.

Section Sandbox.
(** [Path.resolve()] as the operating system performs it (symbolic links
    included). *)
Variable fs_resolve : Path → Path.

Definition is_path_allowed (ctx : ToolContext) (path : Path) : bool :=
  let resolved := fs_resolve path in
  if is_relative_to resolved (fs_resolve (workspace_path ctx)) then true
  else existsb (λ allowed, is_relative_to resolved (fs_resolve allowed))
               (allowed_paths ctx).

Definition resolve_path (ctx : ToolContext) (path_str : string)
  : outcome Path :=
  let path := parse path_str in
  let path := if is_absolute path then path
              else joinpath (workspace_path ctx) path in
  let path := fs_resolve path in
  if is_path_allowed ctx path then Returned path
  else Raised ("Path '" +:+ to_str path +:+ "' is outside allowed boundaries").

End Sandbox.

(** Containment of resolved paths: same anchor, and the components of
    [root] followed by further components. *)
Definition lies_under (p root : Path) : Prop :=
  path_anchor p = path_anchor root ∧ ∃ rest, parts p = parts root ++ rest.

(** The path [resolve_path] resolves: an absolute argument as it is, a
    relative one below the workspace. *)
Definition target (fs_resolve : Path → Path) (ctx : ToolContext)
    (path_str : string) : Path :=
  fs_resolve (if is_absolute (parse path_str) then parse path_str
              else joinpath (workspace_path ctx) (parse path_str)).

(** The dataclass [ToolResult] of a tool. *)
Record ToolResult := mkToolResult {
  success : bool;
  output : string;
  error : option string;
  metadata : gmap string Json.value }.

Definition success_result (out : string) (meta : gmap string Json.value)
  : ToolResult := mkToolResult true out None meta.

Definition error_result (err : string) : ToolResult :=
  mkToolResult false "" (Some err) ∅.

(** What tools act on: the files of the machine, keyed by [str(path)].
    [Unreadable] is an entry whose [open]/[read] raises (a directory,
    bytes that are not UTF-8), with the text of that exception. *)
Inductive node :=
| File (text : string)
| Unreadable (err : string).

(** The abstract class [Tool]: the registry and the permission gate read
    [name] and [requires_permission]; [validate_arguments] and [execute]
    are the methods a concrete tool brings.  [execute] takes the file
    table and gives back the one it leaves. *)
Record Tool := mkTool {
  name : string;
  requires_permission : bool;
  validate_arguments : Json.value → outcome (option string);
  execute : Json.value → ToolContext → gmap string node
            → outcome ToolResult * gmap string node }.

(** [isinstance(value, ...)] for the type names of a JSON schema; a
    [bool] is an [int] in Python. *)
Definition matches_type (expected_type : string) (v : Json.value) : bool :=
  match v with
  | Json.JStr _ => negb (bool_decide (expected_type ∈
      ["integer"; "number"; "boolean"; "array"; "object"]))
  | Json.JNum _ => negb (bool_decide (expected_type ∈
      ["string"; "boolean"; "array"; "object"]))
  | Json.JBool _ => negb (bool_decide (expected_type ∈
      ["string"; "array"; "object"]))
  | Json.JArr _ => negb (bool_decide (expected_type ∈
      ["string"; "integer"; "number"; "boolean"; "object"]))
  | Json.JObj _ => negb (bool_decide (expected_type ∈
      ["string"; "integer"; "number"; "boolean"; "array"]))
  | Json.JNull => negb (bool_decide (expected_type ∈
      ["string"; "integer"; "number"; "boolean"; "array"; "object"]))
  end.

Definition type_error (key expected_type : string) : string :=
  "Field '" +:+ key +:+ "' must be "
  +:+ (if bool_decide (expected_type ∈ ["integer"; "array"; "object"])
       then "an " else "a ") +:+ expected_type.

(** [field in arguments]: a key of a dictionary, an item of a list, a
    substring of a string. *)
Definition has_field (field : string) (arguments : Json.value) : bool :=
  match arguments with
  | Json.JObj fields => bool_decide (field ∈ fields.*1)
  | Json.JArr items => bool_decide (Json.JStr field ∈ items)
  | Json.JStr s => PyStr.contains field s
  | _ => false
  end.

(** [Tool.validate_arguments] over a schema given by its [required]
    list and the declared [type] of each property.  Arguments that are
    no dictionary: on [None] or a number [field not in arguments] raises
    for the first required field; a list or a string goes through the
    loop over [required]; what comes to [arguments.items()] raises
    there. *)
Definition validate_schema (required : list string)
    (properties : list (string * string)) (arguments : Json.value)
  : outcome (option string) :=
  let no_items :=
    Raised ("'" +:+ Json.py_type arguments
            +:+ "' object has no attribute 'items'") in
  match arguments with
  | Json.JNull | Json.JBool _ | Json.JNum _ =>
      match required with
      | [] => no_items
      | _ :: _ =>
          Raised ("argument of type '" +:+ Json.py_type arguments
                  +:+ "' is not iterable")
      end
  | _ =>
      match List.find (λ f, negb (has_field f arguments)) required with
      | Some f => Returned (Some ("Missing required field: " +:+ f))
      | None =>
          match arguments with
          | Json.JObj fields =>
              Returned
                (head (omap (λ kv : string * Json.value,
                         match List.find (λ pt : string * string,
                                            String.eqb (fst pt) (fst kv))
                                         properties with
                         | Some (_, ty) =>
                             if matches_type ty (snd kv) then None
                             else Some (type_error (fst kv) ty)
                         | None => None
                         end) fields))
          | _ => no_items
          end
      end
  end.

End ToolBase.

(** ** [app/tools/file_tools.py]: [EditFileTool] *)

Module FileTools.
Import Pathlib ToolBase.

(** [arguments[key]]: the value, or the text of the [KeyError] of a
    dictionary without the key and of the [TypeError] of arguments that
    are no dictionary. *)
Definition subscript (key : string) (arguments : Json.value)
  : outcome Json.value :=
  match Json.get key arguments with
  | Some v => Returned v
  | None =>
      Raised
        match arguments with
        | Json.JObj _ => "'" +:+ key +:+ "'"
        | Json.JArr _ => "list indices must be integers or slices, not str"
        | Json.JStr _ => "string indices must be integers, not 'str'"
        | v => "'" +:+ Json.py_type v +:+ "' object is not subscriptable"
        end
  end.

(** How [open(file_path, "w")] followed by [f.write(new_content)] ends on
    the machine: the text is written; [open] raises (a file that may not
    be written) and the file is as it was; or the file is opened, which
    empties it, and the write or the closing raises (text that cannot be
    encoded, a full disk), leaving in the file what got through. *)
Inductive write_outcome :=
| Written
| NotOpened (err : string)
| Broken (err : string) (remains : string).

Section Edit.
Variable fs_resolve : Path → Path.
(** The outcome of writing a text to the file at a path. *)
Variable fs_write : string → string → write_outcome.

(** [arguments.get("replace_all", False)], as the conditions read it. *)
Definition replace_all_flag (arguments : Json.value) : bool :=
  match Json.get "replace_all" arguments with
  | Some v => Json.truthy v
  | None => false
  end.

(** The body of the [try], from the uniqueness check on; [old_string] is
    a string that occurs in [content]. *)
Definition replace_and_write (replace_all : bool) (file_path : Path)
    (content old_string : string) (new_string : Json.value)
    (fs : gmap string node) : outcome ToolResult * gmap string node :=
  if negb replace_all && (1 <? PyStr.count old_string content) then
    (Returned (error_result
       ("Text found " +:+ pretty (PyStr.count old_string content)
        +:+ " times. "
        +:+ "Use replace_all=true or provide more context.")), fs)
  else
    match new_string with
    | Json.JStr new_string =>
        let new_content :=
          if replace_all
          then PyStr.replace old_string new_string content
          else PyStr.replace_first old_string new_string content in
        let replacements :=
          if replace_all then PyStr.count old_string content else 1 in
        match fs_write (to_str file_path) new_content with
        | Written =>
            (Returned (success_result
               ("Successfully made " +:+ pretty replacements
                +:+ " replacement(s) in " +:+ to_str file_path)
               (<["file_path" := Json.JStr (to_str file_path)]>
                  {["replacements" := Json.JNum (Z.of_nat replacements)]})),
             <[to_str file_path := File new_content]> fs)
        | NotOpened err => (Returned (error_result err), fs)
        | Broken err remains =>
            (Returned (error_result err),
             <[to_str file_path := File remains]> fs)
        end
    | v =>
        (Returned (error_result
           ("replace() argument 2 must be str, not "
            +:+ match v with Json.JNull => "None" | _ => Json.py_type v end)), fs)
    end.

(** [EditFileTool.execute].  The three [arguments[...]] stand before the
    [try]: their exception leaves the call.  Inside the [try] every
    exception comes back as an error result with its text: of
    [resolve_path], of reading the file, of a [file_path], [old_string]
    or [new_string] that is no string at the place that uses it, and of
    writing the file back. *)
Definition execute_edit_file (arguments : Json.value) (context : ToolContext)
    (fs : gmap string node) : outcome ToolResult * gmap string node :=
  match subscript "file_path" arguments, subscript "old_string" arguments,
        subscript "new_string" arguments with
  | Returned file_path_str, Returned old_string, Returned new_string =>
      let replace_all := replace_all_flag arguments in
      match file_path_str with
      | Json.JStr file_path_str =>
          match resolve_path fs_resolve context file_path_str with
          | Raised msg => (Returned (error_result msg), fs)
          | Returned file_path =>
              match fs !! to_str file_path with
              | None =>
                  (Returned (error_result
                     ("File not found: " +:+ to_str file_path)), fs)
              | Some (Unreadable err) => (Returned (error_result err), fs)
              | Some (File content) =>
                  match old_string with
                  | Json.JStr old_string =>
                      if negb (PyStr.contains old_string content) then
                        (Returned (error_result
                           ("Text not found in file: '"
                            +:+ PyStr.take 50 old_string +:+ "...'")), fs)
                      else
                        replace_and_write replace_all file_path content
                          old_string new_string fs
                  | v =>
                      (Returned (error_result
                         ("'in <string>' requires string as left operand, not "
                          +:+ Json.py_type v)), fs)
                  end
              end
          end
      | v =>
          (Returned (error_result
             ("expected str, bytes or os.PathLike object, not "
              +:+ Json.py_type v)), fs)
      end
  | Raised msg, _, _ => (Raised msg, fs)
  | _, Raised msg, _ => (Raised msg, fs)
  | _, _, Raised msg => (Raised msg, fs)
  end.

Definition EditFileTool : Tool :=
  mkTool "edit_file" true
    (validate_schema ["file_path"; "old_string"; "new_string"]
       [("file_path", "string"); ("old_string", "string");
        ("new_string", "string"); ("replace_all", "boolean")])
    execute_edit_file.

End Edit.

End FileTools.

(** ** [app/services/tool_execution_service.py] *)

(** The [n]-th string drawn from [str(uuid4())]. *)
Definition uuid4 (n : nat) : string := "uuid-" +:+ pretty n.

Module ToolService.
Import Llm ToolBase.

(** [description] and [created_at] are display data; [callback] is never
    set where a request is made and keeps its default [None]. *)
Record PendingPermission := mkPending {
  id : string;
  perm_session_id : string;
  tool_name : string;
  arguments : Json.value }.

(** The three optional listener callbacks keep their default [None]. *)
Record ToolExecutionService := mkService {
  svc_workspace_path : Pathlib.Path;
  svc_session_id : string;
  svc_allowed_paths : list Pathlib.Path;
  _pending_permissions : gmap string PendingPermission;
  _approved_tools : gset string;
  _always_approved : gset string }.

Definition with_pending (m : gmap string PendingPermission)
    (s : ToolExecutionService) : ToolExecutionService :=
  mkService (svc_workspace_path s) (svc_session_id s) (svc_allowed_paths s)
            m (_approved_tools s) (_always_approved s).

Definition get_tool_context (s : ToolExecutionService) : ToolContext :=
  mkToolContext (svc_workspace_path s) (svc_session_id s)
                (svc_allowed_paths s).

Definition _needs_permission (tool : Tool) (s : ToolExecutionService) : bool :=
  if negb (requires_permission tool) then false
  else if bool_decide (name tool ∈ _always_approved s) then false
  else if bool_decide (name tool ∈ _approved_tools s) then false
  else true.

(** [pid] is the fresh [str(uuid4())]. *)
Definition request_permission (pid : string) (tool : Tool)
    (args : Json.value) (s : ToolExecutionService)
  : PendingPermission * ToolExecutionService :=
  let permission := mkPending pid (svc_session_id s) (name tool) args in
  (permission, with_pending (<[pid := permission]> (_pending_permissions s)) s).

Definition respond_permission (permission_id : string) (approved always : bool)
    (s : ToolExecutionService) : bool * ToolExecutionService :=
  match _pending_permissions s !! permission_id with
  | None => (false, s)
  | Some permission =>
      let pending := delete permission_id (_pending_permissions s) in
      if approved then
        if always then
          (true, mkService (svc_workspace_path s) (svc_session_id s)
                   (svc_allowed_paths s) pending (_approved_tools s)
                   ({[tool_name permission]} ∪ _always_approved s))
        else
          (true, mkService (svc_workspace_path s) (svc_session_id s)
                   (svc_allowed_paths s) pending
                   ({[tool_name permission]} ∪ _approved_tools s)
                   (_always_approved s))
      else (true, with_pending pending s)
  end.

Definition get_pending_permissions (s : ToolExecutionService)
  : list PendingPermission :=
  (map_to_list (_pending_permissions s)).*2.

(** The pending map is keyed by the id of the request it holds, as
    [request_permission] fills it. *)
Definition keyed_by_id (m : gmap string PendingPermission) : Prop :=
  ∀ k p, m !! k = Some p → id p = k.

Section Execute.
(** The registry [_TOOLS], filled once at start-up. *)
Variable tools : gmap string Tool.

Definition execute_tool (pid : string) (skip_permission : bool)
    (tool_use : ToolUse) (s : ToolExecutionService) (fs : gmap string node)
  : outcome Llm.ToolResult * ToolExecutionService * gmap string node :=
  match tools !! tu_name tool_use with
  | None =>
      (Returned (Llm.mkToolResult (tu_id tool_use)
         ("Error: Unknown tool '" +:+ tu_name tool_use +:+ "'") true), s, fs)
  | Some tool =>
      match validate_arguments tool (tu_arguments tool_use) with
      | Raised msg => (Raised msg, s, fs)
      | Returned validation_error =>
          if truthy_opt validation_error then
            (Returned (Llm.mkToolResult (tu_id tool_use)
               ("Error: " +:+ default "" validation_error) true), s, fs)
          else if negb skip_permission && _needs_permission tool s then
            let '(permission, s') :=
              request_permission pid tool (tu_arguments tool_use) s in
            (Returned (Llm.mkToolResult (tu_id tool_use)
               ("Permission required for " +:+ name tool
                +:+ ". Request ID: " +:+ id permission) true), s', fs)
          else
            let '(res, fs') :=
              execute tool (tu_arguments tool_use) (get_tool_context s) fs in
            let result :=
              match res with
              | Returned r => r
              | Raised e => error_result ("Execution error: " +:+ e)
              end in
            if success result then
              (Returned (Llm.mkToolResult (tu_id tool_use) (output result)
                 false), s, fs')
            else
              (Returned (Llm.mkToolResult (tu_id tool_use)
                 (if truthy_opt (error result) then default "" (error result)
                  else "Unknown error") true), s, fs')
      end
  end.

(** [execute_tools] with its default [parallel=True]: the coroutines
    of [execute_tool], one per tool use, are handed to
    [asyncio.gather], which starts them in list order; each is taken to
    run in one piece.  [seed] numbers the [uuid4()] draws.  An exception
    of one of them does not stop the others: all have run when the first
    exception leaves the call. *)
Fixpoint execute_tools (seed : nat) (tool_uses : list ToolUse)
    (s : ToolExecutionService) (fs : gmap string node)
  : outcome (list Llm.ToolResult) * ToolExecutionService * gmap string node :=
  match tool_uses with
  | [] => (Returned [], s, fs)
  | tu :: rest =>
      let '(first, s', fs') := execute_tool (uuid4 seed) false tu s fs in
      let '(others, s'', fs'') := execute_tools (S seed) rest s' fs' in
      (match first, others with
       | Raised msg, _ => Raised msg
       | Returned r, Returned rs => Returned (r :: rs)
       | Returned _, Raised msg => Raised msg
       end, s'', fs'')
  end.

End Execute.

End ToolService.

(** ** [app/services/streaming_handler.py] *)

Module Streaming.
Import Llm ToolBase.

(** [SSEEvent]: the [data] dictionary is kept as its list of items, in
    the order the source writes them; [timestamp] is left out. *)
Record SSEEvent := mkSSE {
  type : string;
  data : list (string * Json.value);
  sse_session_id : string }.

#[global] Instance SSEEvent_eq_dec : EqDecision SSEEvent.
Proof. solve_decision. Defined.

Definition MESSAGE := "message".
Definition STREAM_CHUNK := "stream_chunk".
Definition TOOL_CALL := "tool_call".
Definition TOOL_RESULT := "tool_result".
Definition STATUS := "status".
Definition ERROR := "error".
Definition COMPLETE := "complete".

(** An [Optional[str]] as a dictionary value. *)
Definition opt_str (o : option string) : Json.value :=
  match o with Some s => Json.JStr s | None => Json.JNull end.

(** One [provider.stream_complete(...)] call: the events it yields and,
    when the stream raises after them, the text of the exception. *)
Record ProviderRun := mkRun {
  run_events : list StreamEvent;
  run_failure : option string }.

(** The handler, with the two things its run draws from the outside:
    the file table the tools act on and the count of [uuid4()] draws.
    The provider answers from the conversation it is shown (messages,
    model, system prompt). *)
Record StreamingHandler := mkHandler {
  provider : Conv.Conversation → ProviderRun;
  conversation : Conv.Conversation;
  tool_service : ToolService.ToolExecutionService;
  max_tool_iterations : Z;
  files : gmap string node;
  entropy : nat }.

(** How a generator ends: it finishes (falls off the end or [return]s),
    an exception leaves it, or the model ran out of fuel. *)
Inductive exit := Finished | Failed (msg : string) | OutOfFuel.

Definition status_event (sid status : string) : SSEEvent :=
  mkSSE STATUS [("status", Json.JStr status)] sid.

Definition waiting_permission_event (sid : string) (pending_count : nat)
  : SSEEvent :=
  mkSSE STATUS [("status", Json.JStr "waiting_permission");
                ("pending_count", Json.JNum (Z.of_nat pending_count))] sid.

Definition tool_result_event (sid : string) (r : Llm.ToolResult) : SSEEvent :=
  mkSSE TOOL_RESULT
    [("tool_use_id", Json.JStr (tool_use_id r));
     ("content", Json.JStr (PyStr.take 1000 (tr_content r)));
     ("is_error", Json.JBool (is_error r))] sid.

Definition final_events (sid text : string) (c : Conv.Conversation)
  : list SSEEvent :=
  [mkSSE MESSAGE [("role", Json.JStr "assistant"); ("content", Json.JStr text)]
         sid;
   mkSSE COMPLETE
     [("total_input_tokens", Json.JNum (Conv.total_input_tokens c));
      ("total_output_tokens", Json.JNum (Conv.total_output_tokens c))] sid].

(** The state of one pass over a provider stream. *)
Record Pass := mkPass {
  emitted : list SSEEvent;
  accumulated_text : string;
  tool_uses : list ToolUse;
  pass_conversation : Conv.Conversation;
  returned : bool }.

Definition usage_get (key : string) (usage : gmap string Z) : Z :=
  default 0%Z (usage !! key).

(** [event.type == TOOL_USE_END and event.tool_use] *)
Definition ended_tool_use (e : StreamEvent) : option ToolUse :=
  if bool_decide (se_type e = TOOL_USE_END) then se_tool_use e else None.

(** The [async for event in self._stream_llm_response()] of
    [process_prompt], branch by branch; [returned] is the [return] of
    the error branch. *)
Fixpoint consume (sid : string) (evs : list StreamEvent) (acc : string)
    (tus : list ToolUse) (c : Conv.Conversation) : Pass :=
  match evs with
  | [] => mkPass [] acc tus c false
  | e :: rest =>
      let continue_with out acc' tus' c' :=
        let p := consume sid rest acc' tus' c' in
        mkPass (out ++ emitted p) (accumulated_text p) (tool_uses p)
               (pass_conversation p) (returned p) in
      if bool_decide (se_type e = TEXT_DELTA) && truthy_opt (se_text e) then
        let acc' := acc +:+ default "" (se_text e) in
        continue_with
          [mkSSE STREAM_CHUNK [("content", opt_str (se_text e));
                               ("accumulated", Json.JStr acc')] sid]
          acc' tus c
      else if bool_decide (se_type e = TOOL_USE_START) then
        continue_with
          [mkSSE TOOL_CALL [("status", Json.JStr "started");
                            ("tool_id", opt_str (se_tool_use_id e));
                            ("tool_name", opt_str (se_tool_name e))] sid]
          acc tus c
      else
        match ended_tool_use e with
        | Some tu =>
            continue_with
              [mkSSE TOOL_CALL [("status", Json.JStr "complete");
                                ("tool_id", Json.JStr (tu_id tu));
                                ("tool_name", Json.JStr (tu_name tu));
                                ("arguments", tu_arguments tu)] sid]
              acc (tus ++ [tu]) c
        | None =>
            if bool_decide (se_type e = Llm.ERROR) then
              mkPass [mkSSE ERROR [("error", opt_str (se_error e))] sid]
                     acc tus c true
            else if bool_decide (se_type e = MESSAGE_END) then
              match se_usage e with
              | Some usage =>
                  if bool_decide (usage = ∅) then continue_with [] acc tus c
                  else continue_with [] acc tus
                         (Conv.update_token_usage
                            (usage_get "input_tokens" usage)
                            (usage_get "output_tokens" usage) c)
              | None => continue_with [] acc tus c
              end
            else continue_with [] acc tus c
        end
  end.

(** The [try] around that loop: an exception of the stream becomes an
    error event and a [return]. *)
Definition stream_round (h : StreamingHandler) : Pass :=
  let sid := Conv.session_id (conversation h) in
  let run := provider h (conversation h) in
  let p := consume sid (run_events run) "" [] (conversation h) in
  if returned p then p
  else
    match run_failure run with
    | Some msg =>
        mkPass (emitted p ++ [mkSSE ERROR [("error", Json.JStr msg)] sid])
               (accumulated_text p) (tool_uses p) (pass_conversation p) true
    | None => p
    end.

Definition with_conversation (c : Conv.Conversation) (h : StreamingHandler)
  : StreamingHandler :=
  mkHandler (provider h) c (tool_service h) (max_tool_iterations h)
            (files h) (entropy h).

Section Handler.
(** The registry [_TOOLS]. *)
Variable tools : gmap string Tool.

(** [_execute_tools]: the handler's own loop over
    [tool_service.execute_tool], one tool use after the other; an
    exception ends the loop. *)
Fixpoint _execute_tools (seed : nat) (tool_uses : list ToolUse)
    (s : ToolService.ToolExecutionService) (fs : gmap string node)
  : outcome (list Llm.ToolResult) * ToolService.ToolExecutionService
    * gmap string node :=
  match tool_uses with
  | [] => (Returned [], s, fs)
  | tool_use :: rest =>
      match ToolService.execute_tool tools (uuid4 seed) false tool_use s fs with
      | (Raised msg, s', fs') => (Raised msg, s', fs')
      | (Returned result, s', fs') =>
          match _execute_tools (S seed) rest s' fs' with
          | (Returned results, s'', fs'') =>
              (Returned (result :: results), s'', fs'')
          | (Raised msg, s'', fs'') => (Raised msg, s'', fs'')
          end
      end
  end.

(** What the body of the [while] loop ends with. *)
Inductive next := Continue | Break | Return | Raise (msg : string).

Record Step := mkStep {
  step_events : list SSEEvent;
  step_handler : StreamingHandler;
  step_text : string;
  step_next : next }.

(** The body of the [while] loop of [process_prompt]. *)
Definition iteration (h : StreamingHandler) : Step :=
  let sid := Conv.session_id (conversation h) in
  let thinking := status_event sid "thinking" in
  let p := stream_round h in
  let text := accumulated_text p in
  if returned p then
    mkStep (thinking :: emitted p) (with_conversation (pass_conversation p) h)
           text Return
  else
    let c1 :=
      Conv.add_assistant_message (uuid4 (entropy h)) text
        (match tool_uses p with [] => None | tus => Some tus end) None
        (pass_conversation p) in
    match tool_uses p with
    | [] =>
        mkStep (thinking :: emitted p)
          (mkHandler (provider h) c1 (tool_service h) (max_tool_iterations h)
                     (files h) (S (entropy h)))
          text Break
    | _ :: _ =>
        let executing := status_event sid "executing_tools" in
        let seed := S (entropy h + length (tool_uses p)) in
        match _execute_tools (S (entropy h)) (tool_uses p) (tool_service h)
                (files h) with
        | (Raised msg, s', fs') =>
            mkStep (thinking :: emitted p ++ [executing])
              (mkHandler (provider h) c1 s' (max_tool_iterations h) fs' seed)
              text (Raise msg)
        | (Returned tool_results, s', fs') =>
            match ToolService.get_pending_permissions s' with
            | (_ :: _) as pending =>
                mkStep
                  (thinking :: emitted p
                   ++ [executing;
                       waiting_permission_event sid (length pending)])
                  (mkHandler (provider h) c1 s' (max_tool_iterations h) fs'
                             seed)
                  text Return
            | [] =>
                mkStep
                  (thinking :: emitted p
                   ++ executing :: map (tool_result_event sid) tool_results)
                  (mkHandler (provider h)
                     (Conv.add_tool_results (uuid4 seed) tool_results c1) s'
                     (max_tool_iterations h) fs' (S seed))
                  text Continue
            end
        end
    end.

(** The statements after the loop; [accumulated_text] is unbound when the
    loop body never ran. *)
Definition finish (last_text : option string) (h : StreamingHandler)
  : list SSEEvent * StreamingHandler * exit :=
  match last_text with
  | None => ([], h, Failed "UnboundLocalError")
  | Some text =>
      (final_events (Conv.session_id (conversation h)) text (conversation h),
       h, Finished)
  end.

(** [while iteration < self.max_tool_iterations], on the iterations that
    remain. *)
Fixpoint process_loop (remaining : nat) (last_text : option string)
    (h : StreamingHandler) : list SSEEvent * StreamingHandler * exit :=
  match remaining with
  | 0 => finish last_text h
  | S n =>
      let st := iteration h in
      match step_next st with
      | Continue =>
          let '(out, h', x) :=
            process_loop n (Some (step_text st)) (step_handler st) in
          (step_events st ++ out, h', x)
      | Break =>
          let '(out, h', x) :=
            finish (Some (step_text st)) (step_handler st) in
          (step_events st ++ out, h', x)
      | Return => (step_events st, step_handler st, Finished)
      | Raise msg => (step_events st, step_handler st, Failed msg)
      end
  end.

(** [self.conversation.add_user_message(prompt)] *)
Definition begin_prompt (prompt : string) (h : StreamingHandler)
  : StreamingHandler :=
  mkHandler (provider h)
    (Conv.add_user_message (uuid4 (entropy h)) prompt (conversation h))
    (tool_service h) (max_tool_iterations h) (files h) (S (entropy h)).

Definition process_prompt (prompt : string) (h : StreamingHandler)
  : list SSEEvent * StreamingHandler * exit :=
  let sid := Conv.session_id (conversation h) in
  let '(out, h', x) :=
    process_loop (Z.to_nat (max_tool_iterations h)) None
                 (begin_prompt prompt h) in
  (mkSSE MESSAGE [("role", Json.JStr "user"); ("content", Json.JStr prompt)]
         sid :: out, h', x).



(** The stream loop of [_continue_conversation]: text deltas and ended
    tool uses only. *)
Fixpoint consume_continue (sid : string) (evs : list StreamEvent)
    (acc : string) (tus : list ToolUse)
  : list SSEEvent * string * list ToolUse :=
  match evs with
  | [] => ([], acc, tus)
  | e :: rest =>
      if bool_decide (se_type e = TEXT_DELTA) && truthy_opt (se_text e) then
        let acc' := acc +:+ default "" (se_text e) in
        let '(out, a, ts) := consume_continue sid rest acc' tus in
        (mkSSE STREAM_CHUNK [("content", opt_str (se_text e));
                             ("accumulated", Json.JStr acc')] sid :: out, a, ts)
      else
        match ended_tool_use e with
        | Some tu => consume_continue sid rest acc (tus ++ [tu])
        | None => consume_continue sid rest acc tus
        end
  end.

(** [_continue_conversation] calls itself after every round with tool
    uses; [fuel] counts the calls the model follows. *)
Fixpoint _continue_conversation (fuel : nat) (h : StreamingHandler)
  : list SSEEvent * StreamingHandler * exit :=
  match fuel with
  | 0 => ([], h, OutOfFuel)
  | S n =>
      let sid := Conv.session_id (conversation h) in
      let thinking := status_event sid "thinking" in
      let run := provider h (conversation h) in
      let '(chunks, text, tus) :=
        consume_continue sid (run_events run) "" [] in
      match run_failure run with
      | Some msg => (thinking :: chunks, h, Failed msg)
      | None =>
          let c1 :=
            Conv.add_assistant_message (uuid4 (entropy h)) text
              (match tus with [] => None | _ => Some tus end) None
              (conversation h) in
          match tus with
          | [] =>
              (thinking :: chunks ++ final_events sid text c1,
               mkHandler (provider h) c1 (tool_service h)
                         (max_tool_iterations h) (files h) (S (entropy h)),
               Finished)
          | _ :: _ =>
              let seed := S (entropy h + length tus) in
              match ToolService.execute_tools tools (S (entropy h)) tus
                      (tool_service h) (files h) with
              | (Raised msg, s', fs') =>
                  (thinking :: chunks,
                   mkHandler (provider h) c1 s' (max_tool_iterations h) fs'
                             seed,
                   Failed msg)
              | (Returned tool_results, s', fs') =>
                  let '(out, h', x) :=
                    _continue_conversation n
                      (mkHandler (provider h)
                         (Conv.add_tool_results (uuid4 seed) tool_results c1)
                         s' (max_tool_iterations h) fs' (S seed)) in
                  (thinking :: chunks ++ out, h', x)
              end
          end
      end
  end.

Definition continue_after_permission (fuel : nat) (permission_id : string)
    (approved always : bool) (h : StreamingHandler)
  : list SSEEvent * StreamingHandler * exit :=
  let sid := Conv.session_id (conversation h) in
  let s1 :=
    snd (ToolService.respond_permission permission_id approved always
           (tool_service h)) in
  let h1 := mkHandler (provider h) (conversation h) s1 (max_tool_iterations h)
                      (files h) (entropy h) in
  if negb approved then
    let denied := status_event sid "permission_denied" in
    match List.find (λ p, String.eqb (ToolService.id p) permission_id)
                    (ToolService.get_pending_permissions s1) with
    | Some p =>
        let result :=
          Llm.mkToolResult (ToolService.id p) "Permission denied by user" true in
        ([mkSSE TOOL_RESULT
            [("tool_use_id", Json.JStr (ToolService.id p));
             ("content", Json.JStr "Permission denied");
             ("is_error", Json.JBool true)] sid;
          denied],
         mkHandler (provider h)
           (Conv.add_tool_results (uuid4 (entropy h)) [result] (conversation h))
           s1 (max_tool_iterations h) (files h) (S (entropy h)),
         Finished)
    | None => ([denied], h1, Finished)
    end
  else
    match Conv.get_pending_tool_uses (conversation h) with
    | [] => ([], h1, Finished)
    | (_ :: _) as pending_tool_uses =>
        let seed := entropy h + length pending_tool_uses in
        match ToolService.execute_tools tools (entropy h) pending_tool_uses
                s1 (files h) with
        | (Raised msg, s', fs') =>
            ([], mkHandler (provider h) (conversation h) s'
                   (max_tool_iterations h) fs' seed, Failed msg)
        | (Returned tool_results, s', fs') =>
            let '(out, h', x) :=
              _continue_conversation fuel
                (mkHandler (provider h)
                   (Conv.add_tool_results (uuid4 seed) tool_results
                      (conversation h))
                   s' (max_tool_iterations h) fs' (S seed)) in
            (map (tool_result_event sid) tool_results ++ out, h', x)
        end
    end.

End Handler.

(** The events one pass over a provider stream can give out. *)
Definition pass_event (e : SSEEvent) : Prop :=
  type e = STREAM_CHUNK ∨ type e = TOOL_CALL ∨ type e = ERROR.

(** The provider rounds of a run: each is announced by one [thinking]
    status. *)
Definition is_thinking (e : SSEEvent) : bool :=
  bool_decide (e = status_event (sse_session_id e) "thinking").

Definition rounds (out : list SSEEvent) : nat :=
  length (filter (λ e, is_thinking e = true) out).

End Streaming.

(** ** [app/services/llm/anthropic_provider.py]: [stream_complete] *)

Module Anthropic.
Import Llm.

(** The events of the vendor's stream, as far as [stream_complete] looks
    at them; an absent [content_block] or [delta] attribute is [None]. *)
Inductive ContentBlock :=
| ToolUseBlock (id name : string)
| OtherBlock.

Inductive Delta :=
| TextDelta (text : string)
| InputJsonDelta (partial_json : string)
| OtherDelta.

Inductive VendorEvent :=
| message_start
| content_block_start (block : option ContentBlock)
| content_block_delta (delta : option Delta)
| content_block_stop
| message_delta (output_tokens : option Z)
| message_stop
| other_event.

(** The three local variables that track the tool use being streamed. *)
Record ToolState := mkToolState {
  current_tool_id : option string;
  current_tool_name : option string;
  current_tool_input : string }.

Definition initial : ToolState := mkToolState None None "".

Definition tool_use_start (id name : string) : StreamEvent :=
  mkStreamEvent TOOL_USE_START None None (Some id) (Some name) None None None.

Definition tool_use_delta (id : option string) (partial_json : string)
  : StreamEvent :=
  mkStreamEvent TOOL_USE_DELTA None None id None (Some partial_json) None None.

Definition tool_use_end (tu : ToolUse) : StreamEvent :=
  mkStreamEvent TOOL_USE_END None (Some tu) None None None None None.

(** How [json.loads] ends: with the value the string parses to, with the
    [JSONDecodeError] of a string that is no JSON text, or with another
    exception and its text (the [RecursionError] of a text nested beyond
    the recursion limit, the [ValueError] of an integer literal longer
    than the interpreter converts). *)
Inductive loads_outcome :=
| Parsed (v : Json.value)
| DecodeError
| OtherError (msg : string).

Definition error_event (msg : string) : StreamEvent :=
  mkStreamEvent Llm.ERROR None None None None None (Some msg) None.

Section Stream.
(** [json.loads] *)
Variable json_loads : string → loads_outcome.

(** [json.loads(current_tool_input) if current_tool_input else {}],
    inside its [try ... except json.JSONDecodeError]: another exception
    is not caught there. *)
Definition parse_tool_input (input : string) : ToolBase.outcome Json.value :=
  if truthy input
  then match json_loads input with
       | Parsed tool_args => ToolBase.Returned tool_args
       | DecodeError => ToolBase.Returned Json.empty_object
       | OtherError msg => ToolBase.Raised msg
       end
  else ToolBase.Returned Json.empty_object.

(** One turn of the [async for event in stream] loop: the new local
    variables, the events yielded and, when the turn raises, the text of
    the exception that leaves the loop. *)
Definition step (st : ToolState) (ev : VendorEvent)
  : ToolState * list StreamEvent * option string :=
  match ev with
  | message_start => (st, [event MESSAGE_START], None)
  | content_block_start (Some (ToolUseBlock id name)) =>
      (mkToolState (Some id) (Some name) "", [tool_use_start id name], None)
  | content_block_start _ => (st, [], None)
  | content_block_delta (Some (TextDelta text)) =>
      (st, [mkStreamEvent TEXT_DELTA (Some text) None None None None None None],
       None)
  | content_block_delta (Some (InputJsonDelta partial_json)) =>
      (mkToolState (current_tool_id st) (current_tool_name st)
                   (current_tool_input st +:+ partial_json),
       [tool_use_delta (current_tool_id st) partial_json], None)
  | content_block_delta _ => (st, [], None)
  | content_block_stop =>
      match current_tool_id st, current_tool_name st with
      | Some id, Some name =>
          if truthy id && truthy name then
            match parse_tool_input (current_tool_input st) with
            | ToolBase.Returned tool_args =>
                (initial, [tool_use_end (mkToolUse id name tool_args)], None)
            | ToolBase.Raised msg => (st, [], Some msg)
            end
          else (st, [], None)
      | _, _ => (st, [], None)
      end
  | message_delta usage =>
      (st, [mkStreamEvent MESSAGE_DELTA None None None None None None
              (match usage with
               | Some n => Some {["output_tokens" := n]}
               | None => None
               end)], None)
  | message_stop => (st, [event MESSAGE_END], None)
  | other_event => (st, [], None)
  end.

(** The loop: it ends with the vendor's stream or with the first turn
    that raises. *)
Fixpoint run (st : ToolState) (evs : list VendorEvent)
  : ToolState * list StreamEvent * option string :=
  match evs with
  | [] => (st, [], None)
  | ev :: rest =>
      match step st ev with
      | (st1, out1, Some msg) => (st1, out1, Some msg)
      | (st1, out1, None) =>
          let '(st2, out2, raised) := run st1 rest in
          (st2, out1 ++ out2, raised)
      end
  end.

(** The vendor events the loop has read when it ends. *)
Fixpoint consumed (st : ToolState) (evs : list VendorEvent)
  : list VendorEvent :=
  match evs with
  | [] => []
  | ev :: rest =>
      match step st ev with
      | (_, _, Some _) => [ev]
      | (st1, _, None) => ev :: consumed st1 rest
      end
  end.

(** The generator: the events of the loop and, when a turn of the loop
    or the vendor's stream raises, the error event of the
    [except Exception]. *)
Definition stream_complete (evs : list VendorEvent) (failure : option string)
  : list StreamEvent :=
  let '(_, out, raised) := run initial evs in
  out ++ match raised with
         | Some e => [error_event e]
         | None =>
             match failure with
             | Some e => [error_event e]
             | None => []
             end
         end.

End Stream.



(** [json.loads] on the texts of the examples: objects written without
    white space, with distinct keys, whose values are strings without
    escapes or integer literals without sign.  An integer literal of more than 4300 digits
    is the [ValueError] of the interpreter's conversion limit, raised
    where the literal is read. *)
Definition dquote : ascii := ascii_of_nat 34.

Fixpoint until_quote (s acc : string) : option (string * string) :=
  match s with
  | EmptyString => None
  | String c s' =>
      if Ascii.eqb c dquote then Some (acc, s')
      else until_quote s' (acc +:+ String c EmptyString)
  end.

Definition is_digit (c : ascii) : bool :=
  (48 <=? nat_of_ascii c) && (nat_of_ascii c <=? 57).

Fixpoint span_digits (s : string) : string * string :=
  match s with
  | String c s' =>
      if is_digit c
      then let '(d, rest) := span_digits s' in (String c d, rest)
      else ("", s)
  | EmptyString => ("", "")
  end.

Definition int_of_digits (d : string) : Z :=
  fold_left (λ acc c, (acc * 10 + Z.of_nat (nat_of_ascii c - 48))%Z)
            (String.list_ascii_of_string d) 0%Z.

Definition MAX_STR_DIGITS : nat := 4300.

Definition digits_error (n : nat) : string :=
  "Exceeds the limit (4300 digits) for integer string conversion: value has "
  +:+ pretty n
  +:+ " digits; use sys.set_int_max_str_digits() to increase the limit".

(** A value and the text after it; [None] where no value starts. *)
Definition scalar (s : string) : option (loads_outcome * string) :=
  match s with
  | String c s1 =>
      if Ascii.eqb c dquote then
        match until_quote s1 "" with
        | Some (v, rest) => Some (Parsed (Json.JStr v), rest)
        | None => None
        end
      else if is_digit c then
        let '(d, rest) := span_digits s in
        if Ascii.eqb c "0" && (1 <? String.length d) then None
        else if MAX_STR_DIGITS <? String.length d
        then Some (OtherError (digits_error (String.length d)), rest)
        else Some (Parsed (Json.JNum (int_of_digits d)), rest)
      else None
  | EmptyString => None
  end.

Fixpoint members (fuel : nat) (s : string) : loads_outcome :=
  match fuel, s with
  | S n, String q s1 =>
      if Ascii.eqb q dquote then
        match until_quote s1 "" with
        | Some (k, String colon s2) =>
            if Ascii.eqb colon ":" then
              match scalar s2 with
              | Some (Parsed v, String c rest) =>
                  if Ascii.eqb c "}" then
                    if String.eqb rest "" then Parsed (Json.JObj [(k, v)])
                    else DecodeError
                  else if Ascii.eqb c "," then
                    match members n rest with
                    | Parsed (Json.JObj fields) =>
                        Parsed (Json.JObj ((k, v) :: fields))
                    | Parsed _ => DecodeError
                    | other => other
                    end
                  else DecodeError
              | Some (Parsed _, EmptyString) => DecodeError
              | Some (other, _) => other
              | None => DecodeError
              end
            else DecodeError
        | _ => DecodeError
        end
      else DecodeError
  | _, _ => DecodeError
  end.

Definition flat_json_loads (s : string) : loads_outcome :=
  match s with
  | String c rest =>
      if Ascii.eqb c "{" then
        if String.eqb rest "}" then Parsed (Json.JObj [])
        else members (String.length rest) rest
      else DecodeError
  | EmptyString => DecodeError
  end.

End Anthropic.

(** ** [mcp_connection_service.py]: the handshake of a connection *)

Module McpManager.

(** How an awaited [send_request] ends: with the [result] of the answer,
    or with an exception (the error of the answer, the timeout). *)
Inductive call_outcome :=
| Answered (result : Json.value)
| CallFailed (msg : string).

Section Handshake.
(** The validation of the [MCPServerInfo] and of the [MCPCapabilities]
    built from the dictionaries of the answer. *)
Variable valid_server_info : Json.value → bool.
Variable valid_capabilities : Json.value → bool.

(** [MCPConnection.initialize]: [first] ends the [initialize] request,
    [second] the request [notifications/initialized].  The result is the
    boolean returned and the error message stored, if one is; the text
    of a validation error is not followed, the name of its class stands
    for it. *)
Definition initialize (first second : call_outcome) : bool * option string :=
  match first with
  | CallFailed msg => (false, Some msg)
  | Answered result =>
      if Json.truthy result then
        match result with
        | Json.JObj _ =>
            if valid_server_info
                 (default (Json.JObj []) (Json.get "serverInfo" result))
               && valid_capabilities
                    (default (Json.JObj []) (Json.get "capabilities" result))
            then
              match second with
              | Answered _ => (true, None)
              | CallFailed msg => (false, Some msg)
              end
            else (false, Some "ValidationError")
        | _ =>
            (false, Some ("'" +:+ Json.py_type result
                          +:+ "' object has no attribute 'get'"))
        end
      else (false, None)
  end.

End Handshake.

End McpManager.

(** ** [app/services/mcp_connection_service.py] *)

Module Mcp.

Inductive MCPConnectionState := DISCONNECTED | CONNECTING | CONNECTED | ERROR.

#[global] Instance MCPConnectionState_eq_dec : EqDecision MCPConnectionState.
Proof. solve_decision. Defined.

Inductive transport := Stdio | SSE.

#[global] Instance transport_eq_dec : EqDecision transport.
Proof. solve_decision. Defined.

(** A connection.  [_pending_requests] is kept as the set of its keys:
    the futures stored in it are all unsettled, and the calls of
    [send_request] that wait on them are [awaiting] (id and method).
    [process] says whether the transport is there, [reading] whether the
    read loop is alive.  The discovered tool, resource and prompt lists
    are left out. *)
Record MCPConnection := mkConn {
  server_name : string;
  kind : transport;
  config : Json.value;
  state : MCPConnectionState;
  error_message : option string;
  _request_id : Z;
  _pending_requests : gset Z;
  process : bool;
  reading : bool;
  awaiting : gmap Z string }.

#[global] Instance MCPConnection_eq_dec : EqDecision MCPConnection.
Proof. solve_decision. Defined.

(** [__init__] *)
Definition new_connection (k : transport) (name : string) (cfg : Json.value)
  : MCPConnection :=
  mkConn name k cfg DISCONNECTED None 0 ∅ false false ∅.

Definition _next_request_id (c : MCPConnection) : Z * MCPConnection :=
  ((_request_id c + 1)%Z,
   mkConn (server_name c) (kind c) (config c) (state c) (error_message c)
          (_request_id c + 1)%Z (_pending_requests c) (process c) (reading c)
          (awaiting c)).

(** What a run of a connection shows to its callers: an id handed
    out, a call settled with a result or an error, an id taken out by a
    handler that then raised, a call ended by the timeout, a call ended
    by another exception with its id left in the map. *)
Inductive obs :=
| Issued (id : Z) (method : string)
| Resolved (id : Z) (result : Json.value)
| Rejected (id : Z) (error : Json.value)
| Dropped (id : Z)
| TimedOut (id : Z) (method : string) (was_pending : bool)
| Failed (id : Z) (msg : string)
| NotConnected.

(** [request_id = self._next_request_id()] and
    [self._pending_requests[request_id] = future], as both transports
    start a request. *)
Definition register (c : MCPConnection) : Z * MCPConnection :=
  let '(request_id, c1) := _next_request_id c in
  (request_id,
   mkConn (server_name c1) (kind c1) (config c1) (state c1)
          (error_message c1) (_request_id c1)
          ({[request_id]} ∪ _pending_requests c1) (process c1) (reading c1)
          (awaiting c1)).

(** The call reaches [await asyncio.wait_for(future, timeout=30.0)]. *)
Definition wait_for (request_id : Z) (method : string) (c : MCPConnection)
  : MCPConnection :=
  mkConn (server_name c) (kind c) (config c) (state c) (error_message c)
         (_request_id c) (_pending_requests c) (process c) (reading c)
         (<[request_id := method]> (awaiting c)).

(** [StdioMCPConnection.send_request] up to its [await]: the request is
    registered, then written to the pipe.  [write_error] is the
    exception of [stdin.write] or [drain] when there is one (the server
    has exited): it leaves the call with the request still
    registered. *)
Definition send_request (method : string) (write_error : option string)
    (c : MCPConnection) : MCPConnection * list obs :=
  if negb (process c) then (c, [NotConnected])
  else
    let '(request_id, c1) := register c in
    match write_error with
    | Some msg => (c1, [Issued request_id method; Failed request_id msg])
    | None => (wait_for request_id method c1, [Issued request_id method])
    end.

(** The dictionary key a JSON id is: [True == 1] and [False == 0] in
    Python; a string or [None] is hashable and equals no integer; a list
    or an object cannot be hashed. *)
Inductive dict_key := Key (k : Z) | NoKey | Unhashable.

Definition key_of (id : Json.value) : dict_key :=
  match id with
  | Json.JNum n => Key n
  | Json.JBool b => Key (if b then 1%Z else 0%Z)
  | Json.JStr _ | Json.JNull => NoKey
  | Json.JArr _ | Json.JObj _ => Unhashable
  end.

(** The read loop dies on an exception of the handler: it stores the
    error and ends. *)
Definition read_loop_fails (msg : string) (c : MCPConnection) : MCPConnection :=
  mkConn (server_name c) (kind c) (config c) ERROR (Some msg) (_request_id c)
         (_pending_requests c) (process c) false (awaiting c).

Definition pop_pending (k : Z) (c : MCPConnection) : MCPConnection :=
  mkConn (server_name c) (kind c) (config c) (state c) (error_message c)
         (_request_id c) (_pending_requests c ∖ {[k]}) (process c) (reading c)
         (awaiting c).

Definition settle (k : Z) (c : MCPConnection) : MCPConnection :=
  mkConn (server_name c) (kind c) (config c) (state c) (error_message c)
         (_request_id c) (_pending_requests c) (process c) (reading c)
         (delete k (awaiting c)).

(** ["id" in message] on a decoded line that is a string or a list. *)
Definition mentions_id (message : Json.value) : bool :=
  match message with
  | Json.JStr s => PyStr.contains "id" s
  | Json.JArr items => bool_decide (Json.JStr "id" ∈ items)
  | _ => false
  end.

(** [_handle_message], called by the read loop on each decoded line.  A
    line that decodes to something else than an object makes the
    handler raise, except on an SSE connection when it does not mention
    ["id"]: there the handler has no notification branch. *)
Definition _handle_message (message : Json.value) (c : MCPConnection)
  : MCPConnection * list obs :=
  match message with
  | Json.JObj _ =>
      match Json.get "id" message with
      | Some request_id =>
          match key_of request_id with
          | Key k =>
              if bool_decide (k ∈ _pending_requests c) then
                let c1 := pop_pending k c in
                match Json.get "error" message with
                | Some (Json.JObj _ as err) =>
                    (settle k c1,
                     [Rejected k (default (Json.JStr "Unknown error")
                                    (Json.get "message" err))])
                | Some err =>
                    (read_loop_fails
                       ("'" +:+ Json.py_type err
                        +:+ "' object has no attribute 'get'") c1,
                     [Dropped k])
                | None =>
                    (settle k c1,
                     [Resolved k (default Json.JNull
                                    (Json.get "result" message))])
                end
              else (c, [])
          | NoKey => (c, [])
          | Unhashable =>
              (read_loop_fails
                 ("unhashable type: '" +:+ Json.py_type request_id +:+ "'") c,
               [])
          end
      | None => (c, [])
      end
  | Json.JStr _ | Json.JArr _ =>
      if mentions_id message then
        (read_loop_fails
           match message with
           | Json.JStr _ => "string indices must be integers, not 'str'"
           | _ => "list indices must be integers or slices, not str"
           end c, [])
      else
        match kind c with
        | Stdio =>
            (read_loop_fails
               ("'" +:+ Json.py_type message
                +:+ "' object has no attribute 'get'") c, [])
        | SSE => (c, [])
        end
  | _ =>
      (read_loop_fails
         ("argument of type '" +:+ Json.py_type message
          +:+ "' is not iterable") c, [])
  end.

(** The answer to the HTTP POST of an SSE request: a response, or the
    exception of the client. *)
Record HttpResponse := mkResponse {
  status_code : Z;
  content_type : string;
  body : Json.value }.

Inductive post_outcome :=
| Responded (response : HttpResponse)
| PostRaised (msg : string).

(** [SSEMCPConnection.send_request] up to its [await]: only
    [asyncio.TimeoutError] is caught, every other exception leaves the
    call with the request still registered. *)
Definition sse_send_request (method : string) (reply : post_outcome)
    (c : MCPConnection) : MCPConnection * list obs :=
  if negb (process c) then (c, [NotConnected])
  else
    let '(request_id, c1) := register c in
    match reply with
    | PostRaised msg =>
        (c1, [Issued request_id method; Failed request_id msg])
    | Responded response =>
        if negb (status_code response =? 200)%Z then
          (c1, [Issued request_id method;
                Failed request_id
                  ("HTTP error: " +:+ pretty (status_code response))])
        else
          match (if String.prefix "application/json" (content_type response)
                 then Json.get "id" (body response) else None) with
          | Some _ =>
              let c2 := pop_pending request_id c1 in
              match Json.get "error" (body response) with
              | Some (Json.JObj _ as err) =>
                  (c2, [Issued request_id method;
                        Rejected request_id
                          (default (Json.JStr "Unknown error")
                             (Json.get "message" err))])
              | Some _ => (c2, [Issued request_id method; Dropped request_id])
              | None =>
                  (c2, [Issued request_id method;
                        Resolved request_id
                          (default Json.JNull
                             (Json.get "result" (body response)))])
              end
          | None =>
              (wait_for request_id method c1, [Issued request_id method])
          end
    end.

(** The timeout of [asyncio.wait_for(future, timeout=30.0)]. *)
Definition REQUEST_TIMEOUT : Z := 30.

(** What happens to a connection: a caller sends a request (over the
    pipe of a stdio connection, where the write goes through or raises,
    or by a POST with its answer on an SSE connection), the read loop
    decodes a message, or the timeout of the request [id] elapses while
    its caller still waits. *)
Inductive event :=
| Send (method : string)
| Post (method : string) (reply : post_outcome)
| Message (message : Json.value)
| Timeout (id : Z)
| SendFails (method : string) (msg : string).

Definition step (c : MCPConnection) (ev : event) : MCPConnection * list obs :=
  match ev with
  | Send method =>
      match kind c with
      | Stdio => send_request method None c
      | SSE => (c, [])
      end
  | SendFails method msg =>
      match kind c with
      | Stdio => send_request method (Some msg) c
      | SSE => (c, [])
      end
  | Post method reply =>
      match kind c with
      | SSE => sse_send_request method reply c
      | Stdio => (c, [])
      end
  | Message message =>
      if reading c then _handle_message message c else (c, [])
  | Timeout k =>
      match awaiting c !! k with
      | Some method =>
          (settle k (pop_pending k c),
           [TimedOut k method (bool_decide (k ∈ _pending_requests c))])
      | None => (c, [])
      end
  end.

Fixpoint run (c : MCPConnection) (evs : list event)
  : MCPConnection * list obs :=
  match evs with
  | [] => (c, [])
  | ev :: rest =>
      let '(c1, o1) := step c ev in
      let '(c2, o2) := run c1 rest in
      (c2, o1 ++ o2)
  end.

(** The ids handed out, and the ids taken out of the pending map, in the
    order of the run. *)
Definition issued (log : list obs) : list Z :=
  omap (λ o, match o with Issued k _ => Some k | _ => None end) log.

Definition removed (log : list obs) : list Z :=
  omap (λ o, match o with
             | Resolved k _ | Rejected k _ | Dropped k => Some k
             | TimedOut k _ true => Some k
             | _ => None
             end) log.

(** What holds of a connection and the log of its run so far. *)
Definition consistent (c : MCPConnection) (log : list obs) : Prop :=
  (0 ≤ _request_id c)%Z
  ∧ issued log = Z.of_nat <$> seq 1 (Z.to_nat (_request_id c))
  ∧ NoDup (removed log)
  ∧ (∀ k, k ∈ removed log → k ∈ issued log)
  ∧ (∀ k, k ∈ _pending_requests c ↔ k ∈ issued log ∧ k ∉ removed log).

(** A request whose write to the pipe raises. *)
Definition write_fails (ev : event) : Prop :=
  match ev with SendFails _ _ => True | _ => False end.

(** A connection whose transport is up, before any request. *)
Definition connected (k : transport) (name : string) (cfg : Json.value)
  : MCPConnection :=
  mkConn name k cfg CONNECTED None 0 ∅ true true ∅.

(** *** Connecting and disconnecting *)

Definition with_state (s : MCPConnectionState) (c : MCPConnection)
  : MCPConnection :=
  mkConn (server_name c) (kind c) (config c) s (error_message c)
         (_request_id c) (_pending_requests c) (process c) (reading c)
         (awaiting c).

Definition with_error (msg : string) (c : MCPConnection) : MCPConnection :=
  mkConn (server_name c) (kind c) (config c) (state c) (Some msg)
         (_request_id c) (_pending_requests c) (process c) (reading c)
         (awaiting c).

(** The [except Exception] of [connect()]. *)
Definition failed (msg : string) (c : MCPConnection) : MCPConnection :=
  mkConn (server_name c) (kind c) (config c) ERROR (Some msg) (_request_id c)
         (_pending_requests c) (process c) (reading c) (awaiting c).

(** How a request of the handshake ends for its caller.  [Ended]: with
    an answer, an error answer or the timeout, its id out of the pending
    map again.  [LeftPending]: with an exception that leaves the id in
    the map: of the write to the pipe, of the POST, of a status other
    than 200, of a body that cannot be read. *)
Inductive call_end :=
| Ended (o : McpManager.call_outcome)
| LeftPending (msg : string).

(** What the outside does to a connect attempt: [hangup] is the
    exception of stopping the connection registered under the name
    before ([terminate()] on a process that has exited raises
    [ProcessLookupError]); [transport_error] the exception of starting
    the process or the client; [calls] how the requests of the
    handshake end, in the order they are sent; the two validations are
    those of the [MCPServerInfo] and [MCPCapabilities] models;
    [early_loop_error] is the exception that ended the read loop before
    [initialize] was through, [late_loop_error] the one that ended it
    while the discovery requests were out. *)
Record ConnectEnv := mkEnv {
  hangup : option string;
  transport_error : option string;
  calls : list call_end;
  valid_server_info : Json.value → bool;
  valid_capabilities : Json.value → bool;
  early_loop_error : option string;
  late_loop_error : option string }.

(** The end of the [n]-th request; one the environment says nothing
    about gets no answer and times out. *)
Definition call_at (env : ConnectEnv) (n : nat) (method : string) : call_end :=
  default
    (Ended (McpManager.CallFailed ("Request " +:+ method +:+ " timed out")))
    (calls env !! n).

(** The ids a connect attempt can leave in the pending map of a
    connection whose counter stood at [base]: request number [n] gets
    the id [base + n + 1]. *)
Definition left_pending (env : ConnectEnv) (base : Z) (k : Z) : Prop :=
  ∃ (n : nat) msg,
    k = (base + Z.of_nat n + 1)%Z ∧ calls env !! n = Some (LeftPending msg).

(** A [send_request] of the handshake, from the call to its end. *)
Definition handshake_request (e : call_end) (c : MCPConnection)
  : MCPConnection * McpManager.call_outcome :=
  let '(request_id, c1) := register c in
  match e with
  | Ended o => (pop_pending request_id c1, o)
  | LeftPending msg => (c1, McpManager.CallFailed msg)
  end.

(** Whether [initialize] comes to its second request: the first was
    answered with a non-empty dictionary whose [serverInfo] and
    [capabilities] validate. *)
Definition sends_initialized (env : ConnectEnv)
    (first : McpManager.call_outcome) : bool :=
  match first with
  | McpManager.Answered (Json.JObj _ as result) =>
      Json.truthy result
      && valid_server_info env
           (default (Json.JObj []) (Json.get "serverInfo" result))
      && valid_capabilities env
           (default (Json.JObj []) (Json.get "capabilities" result))
  | _ => false
  end.

(** [discover_tools], [discover_resources], [discover_prompts]: each
    sends its request and swallows every exception. *)
Definition discover (env : ConnectEnv) (c : MCPConnection) : MCPConnection :=
  let c1 := (handshake_request (call_at env 2 "tools/list") c).1 in
  let c2 := (handshake_request (call_at env 3 "resources/list") c1).1 in
  (handshake_request (call_at env 4 "prompts/list") c2).1.

Definition shell_characters : list ascii :=
  PyStr.chars ";&|$`(){}".

(** [config.get(key, "")] *)
Definition config_get (key : string) (cfg : Json.value) : Json.value :=
  default (Json.JStr "") (Json.get key cfg).

(** The checks of a stdio connection on its [command], before anything
    is started; [Some] is the text of the exception.  [c in command]
    looks for the character in a string, for the one-character string
    among the items of a list and among the keys of a dictionary, and
    raises on a number or [True]. *)
Definition check_command (command : Json.value) : option string :=
  if negb (Json.truthy command) then
    Some "Command is required for stdio connection"
  else
    let found (holds : ascii → bool) :=
      if existsb holds shell_characters
      then Some "Command contains invalid shell characters" else None in
    match command with
    | Json.JStr s => found (λ ch, bool_decide (ch ∈ PyStr.chars s))
    | Json.JArr items =>
        found (λ ch, bool_decide (Json.JStr (String ch "") ∈ items))
    | Json.JObj fields =>
        found (λ ch, bool_decide (String ch "" ∈ fields.*1))
    | v => Some ("argument of type '" +:+ Json.py_type v
                 +:+ "' is not iterable")
    end.

(** The check of an SSE connection on its [endpoint]. *)
Definition check_endpoint (endpoint : Json.value) : option string :=
  if negb (Json.truthy endpoint) then
    Some "Endpoint is required for SSE connection"
  else None.

(** A configuration that is no dictionary has no [get]. *)
Definition check_config (c : MCPConnection) : option string :=
  match config c with
  | Json.JObj _ =>
      match kind c with
      | Stdio => check_command (config_get "command" (config c))
      | SSE => check_endpoint (config_get "endpoint" (config c))
      end
  | v => Some ("'" +:+ Json.py_type v +:+ "' object has no attribute 'get'")
  end.

(** [connect()] of a connection.  The configuration is checked, the
    transport started, [initialize] run; when it returns [True] the
    state becomes [CONNECTED] and the three discovery requests are
    sent, when it returns [False] the state becomes [ERROR].  The read
    loop sets the state [ERROR] and its message on its own when it
    ends with an exception: before [connect()] has set the state, what
    it set is overwritten; after, it stays. *)
Definition connect_connection (env : ConnectEnv) (c : MCPConnection)
  : bool * MCPConnection :=
  match check_config c, transport_error env with
  | Some msg, _ => (false, failed msg c)
  | None, Some msg => (false, failed msg c)
  | None, None =>
        let up := mkConn (server_name c) (kind c) (config c) CONNECTING
                         (error_message c) (_request_id c)
                         (_pending_requests c) true true (awaiting c) in
        let '(c1, first) :=
          handshake_request (call_at env 0 "initialize") up in
        let '(c2, second) :=
          if sends_initialized env first
          then handshake_request (call_at env 1 "notifications/initialized") c1
          else (c1, McpManager.CallFailed "") in
        let c3 :=
          match early_loop_error env with
          | Some msg => read_loop_fails msg c2
          | None => c2
          end in
        match McpManager.initialize (valid_server_info env)
                (valid_capabilities env) first second with
        | (true, _) =>
            let c4 := discover env (with_state CONNECTED c3) in
            (true,
             match late_loop_error env with
             | Some msg => read_loop_fails msg c4
             | None => c4
             end)
        | (false, stored) =>
            (false,
             with_state ERROR
               match stored with
               | Some msg => with_error msg c3
               | None => c3
               end)
      end
  end.

(** [disconnect()] of a connection: the read task is cancelled; then
    the process of a stdio connection is terminated, the client of an
    SSE connection closed.  When that raises (the text is [hangup]) the
    exception leaves the call and the state is not reset.  A stdio
    connection forgets its process, an SSE connection keeps its
    client. *)
Definition disconnect_connection (hangup : option string) (c : MCPConnection)
  : option string * MCPConnection :=
  match (if process c then hangup else None) with
  | Some msg =>
      (Some msg,
       mkConn (server_name c) (kind c) (config c) (state c) (error_message c)
              (_request_id c) (_pending_requests c) (process c) false
              (awaiting c))
  | None =>
      (None,
       mkConn (server_name c) (kind c) (config c) DISCONNECTED
              (error_message c) (_request_id c) (_pending_requests c)
              (match kind c with Stdio => false | SSE => process c end) false
              (awaiting c))
  end.

(** *** The connection manager *)

(** [config.get("server_type", "stdio")] and the connection class
    chosen for it.  The exceptions are the [AttributeError] of a
    configuration that is no dictionary and the [ValueError] of a
    server type the manager does not know. *)
Definition server_type (config : Json.value) : Json.value :=
  default (Json.JStr "stdio") (Json.get "server_type" config).

Definition server_kind (config : Json.value) : ToolBase.outcome transport :=
  match config with
  | Json.JObj _ =>
      if bool_decide (server_type config ∈ [Json.JStr "stdio";
                                            Json.JStr "local"])
      then ToolBase.Returned Stdio
      else if bool_decide (server_type config ∈ [Json.JStr "sse";
                                                 Json.JStr "remote"])
      then ToolBase.Returned SSE
      else ToolBase.Raised ("Unknown server type: "
                            +:+ Json.py_str (server_type config))
  | v =>
      ToolBase.Raised ("'" +:+ Json.py_type v
                       +:+ "' object has no attribute 'get'")
  end.

(** [MCPConnectionManager.connect]: the registry [_connections] goes in
    and comes out.  The exception of disconnecting the connection
    registered before, and the one of choosing the connection class,
    leave the call. *)
Definition connect (env : ConnectEnv) (server_name : string)
    (config : Json.value) (connections : gmap string MCPConnection)
  : ToolBase.outcome MCPConnection * gmap string MCPConnection :=
  let '(raised, connections1) :=
    match connections !! server_name with
    | Some old =>
        let '(raised, old') := disconnect_connection (hangup env) old in
        (raised, <[server_name := old']> connections)
    | None => (None, connections)
    end in
  match raised with
  | Some msg => (ToolBase.Raised msg, connections1)
  | None =>
      match server_kind config with
      | ToolBase.Raised msg => (ToolBase.Raised msg, connections1)
      | ToolBase.Returned k =>
          let '(success, connection) :=
            connect_connection env (new_connection k server_name config) in
          if success
          then (ToolBase.Returned connection,
                <[server_name := connection]> connections1)
          else (ToolBase.Returned connection, connections1)
      end
  end.

(** [MCPConnectionManager.disconnect]: the entry is deleted after its
    [disconnect()] has returned; when that raises, the exception (its
    text is the first component) leaves the call and the entry stays. *)
Definition manager_disconnect (hangup : option string) (server_name : string)
    (connections : gmap string MCPConnection)
  : option string * gmap string MCPConnection :=
  match connections !! server_name with
  | Some connection =>
      match disconnect_connection hangup connection with
      | (Some msg, connection') =>
          (Some msg, <[server_name := connection']> connections)
      | (None, _) => (None, delete server_name connections)
      end
  | None => (None, connections)
  end.

(** [send_request] of the connection's class. *)
Definition request (method : string) (write_error : option string)
    (reply : post_outcome) (c : MCPConnection) : MCPConnection * list obs :=
  match kind c with
  | Stdio => send_request method write_error c
  | SSE => sse_send_request method reply c
  end.

(** [MCPConnectionManager.call_tool] up to the [await] of the request;
    [write_error] is the outcome of the write when the connection is a
    stdio one, [reply] the answer to the POST when it is an SSE one. *)
Definition call_tool (write_error : option string) (reply : post_outcome)
    (server_name : string) (connections : gmap string MCPConnection)
  : ToolBase.outcome (list obs) * gmap string MCPConnection :=
  match connections !! server_name with
  | Some connection =>
      if bool_decide (state connection = CONNECTED) then
        let '(c', o) := request "tools/call" write_error reply connection in
        (ToolBase.Returned o, <[server_name := c']> connections)
      else
        (ToolBase.Raised ("Server " +:+ server_name +:+ " is not connected"),
         connections)
  | None =>
      (ToolBase.Raised ("Server " +:+ server_name +:+ " is not connected"),
       connections)
  end.

End Mcp.

(** ** A session used in examples *)

Module Scenario.
Import Llm Pathlib ToolBase Streaming.

(** A machine without symbolic links, the process running in [/srv]. *)
Definition resolve : Path → Path := lexical_resolve ["srv"].

Definition workspace : Path := mkPath Root ["work"; "ws"].

Definition context : ToolContext :=
  mkToolContext workspace "s1" [mkPath Root ["opt"; "shared"]].

(** Every file may be written and the disk has room. *)
Definition write (path content : string) : FileTools.write_outcome :=
  FileTools.Written.

(** The disk is full: a file opened for writing stays empty. *)
Definition full_disk (path content : string) : FileTools.write_outcome :=
  FileTools.Broken "[Errno 28] No space left on device" "".

(** The files may be read and not written. *)
Definition read_only (path content : string) : FileTools.write_outcome :=
  FileTools.NotOpened ("[Errno 13] Permission denied: '" +:+ path +:+ "'").

Definition tools : gmap string Tool :=
  {["edit_file" := FileTools.EditFileTool resolve write]}.

Definition edit_arguments (replace_all : bool) : Json.value :=
  Json.JObj [("file_path", Json.JStr "notes/../a.txt");
             ("old_string", Json.JStr "ab");
             ("new_string", Json.JStr "c");
             ("replace_all", Json.JBool replace_all)].

Definition edit_use : ToolUse :=
  mkToolUse "toolu_1" "edit_file" (edit_arguments true).

Definition disk : gmap string node := {["/work/ws/a.txt" := File "ab-ab-ab"]}.

Definition service : ToolService.ToolExecutionService :=
  ToolService.mkService workspace "s1" [] ∅ ∅ ∅.

Definition fresh_conversation : Conv.Conversation :=
  Conv.mkConv "s1" [] None "claude-sonnet-4-20250514" "anthropic" 0 0.

Definition text_delta (s : string) : StreamEvent :=
  mkStreamEvent TEXT_DELTA (Some s) None None None None None None.

Definition tool_use_start (tu : ToolUse) : StreamEvent :=
  mkStreamEvent TOOL_USE_START None None (Some (tu_id tu)) (Some (tu_name tu))
                None None None.

Definition tool_use_end (tu : ToolUse) : StreamEvent :=
  mkStreamEvent TOOL_USE_END None (Some tu) None None None None None.

(** Asks for the edit first, and says [Done] once a reply is in the
    conversation. *)
Definition one_edit_provider (c : Conv.Conversation) : ProviderRun :=
  if existsb Conv.is_assistant (Conv.messages c)
  then mkRun [text_delta "Done"; event MESSAGE_END] None
  else mkRun [text_delta "Hel"; text_delta "lo"; tool_use_start edit_use;
              tool_use_end edit_use; event MESSAGE_END] None.

(** Asks for the edit first, and from then on for a tool that does not
    exist. *)
Definition restless_provider (c : Conv.Conversation) : ProviderRun :=
  if existsb Conv.is_assistant (Conv.messages c)
  then mkRun [tool_use_end (mkToolUse "toolu_x" "undo_everything"
                                      Json.empty_object);
              event MESSAGE_END] None
  else mkRun [tool_use_start edit_use; tool_use_end edit_use;
              event MESSAGE_END] None.

(** A handler as [create_streaming_handler] makes it: 10 iterations. *)
Definition handler (provider : Conv.Conversation → ProviderRun)
  : StreamingHandler :=
  mkHandler provider fresh_conversation service 10 disk 0.

(** The handler after [process_prompt] has stopped on the permission
    request of the edit; the request has the id [uuid4 2]. *)
Definition suspended (provider : Conv.Conversation → ProviderRun)
  : StreamingHandler :=
  (process_prompt tools "tidy a.txt" (handler provider)).1.2.



(** The arguments of a [read_file] call, streamed in two fragments. *)
Definition quoted (s : string) : string :=
  String Anthropic.dquote (s +:+ String Anthropic.dquote EmptyString).

Definition read_block : list Anthropic.VendorEvent :=
  [Anthropic.content_block_delta
     (Some (Anthropic.InputJsonDelta ("{" +:+ quoted "path" +:+ ":")));
   Anthropic.content_block_delta (Some (Anthropic.TextDelta "reading"));
   Anthropic.content_block_delta
     (Some (Anthropic.InputJsonDelta (quoted "a.txt" +:+ "}")))].

(** The validation of the models [MCPServerInfo] and [MCPCapabilities] of
    [app/models/mcp_protocol.py]: a [name] and a [version] that are
    strings; optional capability fields that are absent, [None] or
    dictionaries. *)
Definition valid_server_info (info : Json.value) : bool :=
  match Json.get "name" info, Json.get "version" info with
  | Some (Json.JStr _), Some (Json.JStr _) => true
  | _, _ => false
  end.

Definition valid_capabilities (capabilities : Json.value) : bool :=
  match capabilities with
  | Json.JObj _ =>
      forallb (λ field,
                 match Json.get field capabilities with
                 | None | Some Json.JNull | Some (Json.JObj _) => true
                 | Some _ => false
                 end)
              ["tools"; "resources"; "prompts"; "logging"; "experimental"]
  | _ => false
  end.

(** The outside of a connect attempt whose read loop does not fail. *)
Definition mcp_env (hangup transport_error : option string)
    (calls : list Mcp.call_end) : Mcp.ConnectEnv :=
  Mcp.mkEnv hangup transport_error calls valid_server_info valid_capabilities
            None None.

(** The result a server answers [initialize] with. *)
Definition server_hello : Json.value :=
  Json.JObj [("serverInfo", Json.JObj [("name", Json.JStr "echo");
                                       ("version", Json.JStr "1.0")]);
             ("capabilities", Json.JObj [])].

End Scenario.

(** ** [conversation_service.py]: storage dictionaries and the service *)

Module ConvDict.
Import Llm ToolBase Conv.

(** [x >>= f] on outcomes: the first exception ends the computation. *)
Definition bind {A B} (x : outcome A) (f : A → outcome B) : outcome B :=
  match x with
  | Returned a => f a
  | Raised msg => Raised msg
  end.

(** A list comprehension whose body may raise. *)
Fixpoint traverse {A B} (f : A → outcome B) (l : list A) : outcome (list B) :=
  match l with
  | [] => Returned []
  | x :: rest =>
      bind (f x) (λ y, bind (traverse f rest) (λ ys, Returned (y :: ys)))
  end.

(** [role.value] and [MessageRole(value)]. *)
Definition role_value (r : MessageRole) : string :=
  match r with
  | SYSTEM => "system"
  | USER => "user"
  | ASSISTANT => "assistant"
  | TOOL => "tool"
  end.

Definition role_of_value (s : string) : outcome MessageRole :=
  if String.eqb s "system" then Returned SYSTEM
  else if String.eqb s "user" then Returned USER
  else if String.eqb s "assistant" then Returned ASSISTANT
  else if String.eqb s "tool" then Returned TOOL
  else Raised "ValueError".

(** [d[key]]: the [KeyError] of a missing key. *)
Definition item (key : string) (d : Json.value) : outcome Json.value :=
  match Json.get key d with
  | Some v => Returned v
  | None => Raised "KeyError"
  end.

(** The records of this development hold strings, integers and
    booleans in their fields; a stored value of another type has no
    counterpart in them and is reported as a [TypeError]. *)
Definition as_str (v : Json.value) : outcome string :=
  match v with Json.JStr s => Returned s | _ => Raised "TypeError" end.

Definition as_bool (v : Json.value) : outcome bool :=
  match v with Json.JBool b => Returned b | _ => Raised "TypeError" end.

Definition as_int (v : Json.value) : outcome Z :=
  match v with Json.JNum n => Returned n | _ => Raised "TypeError" end.

Definition as_list (v : Json.value) : outcome (list Json.value) :=
  match v with Json.JArr l => Returned l | _ => Raised "TypeError" end.

Definition as_opt_int (v : Json.value) : outcome (option Z) :=
  match v with
  | Json.JNull => Returned None
  | Json.JNum n => Returned (Some n)
  | _ => Raised "TypeError"
  end.

Definition as_opt_str (v : Json.value) : outcome (option string) :=
  match v with
  | Json.JNull => Returned None
  | Json.JStr s => Returned (Some s)
  | _ => Raised "TypeError"
  end.

Definition opt_int (o : option Z) : Json.value :=
  match o with Some n => Json.JNum n | None => Json.JNull end.

Definition opt_string (o : option string) : Json.value :=
  match o with Some s => Json.JStr s | None => Json.JNull end.

Definition tool_use_to_dict (tu : ToolUse) : Json.value :=
  Json.JObj [("id", Json.JStr (tu_id tu)); ("name", Json.JStr (tu_name tu));
             ("arguments", tu_arguments tu)].

Definition tool_result_to_dict (tr : Llm.ToolResult) : Json.value :=
  Json.JObj [("tool_use_id", Json.JStr (tool_use_id tr));
             ("content", Json.JStr (tr_content tr));
             ("is_error", Json.JBool (is_error tr))].

Definition tool_use_from_dict (tu : Json.value) : outcome ToolUse :=
  bind (bind (item "id" tu) as_str) (λ i,
  bind (bind (item "name" tu) as_str) (λ n,
  bind (item "arguments" tu) (λ a, Returned (mkToolUse i n a)))).

Definition tool_result_from_dict (tr : Json.value) : outcome Llm.ToolResult :=
  bind (bind (item "tool_use_id" tr) as_str) (λ i,
  bind (bind (item "content" tr) as_str) (λ c,
  bind (as_bool (default (Json.JBool false) (Json.get "is_error" tr)))
       (λ e, Returned (Llm.mkToolResult i c e)))).

(** [ConversationMessage.to_dict], without [created_at] and [metadata]. *)
Definition message_to_dict (m : ConversationMessage) : Json.value :=
  Json.JObj [("id", Json.JStr (id m));
             ("role", Json.JStr (role_value (role m)));
             ("content", Json.JStr (content m));
             ("tool_uses", Json.JArr (tool_use_to_dict <$> tool_uses m));
             ("tool_results",
              Json.JArr (tool_result_to_dict <$> tool_results m));
             ("tokens_used", opt_int (tokens_used m))].

(** [ConversationMessage.from_dict] *)
Definition message_from_dict (data : Json.value) : outcome ConversationMessage :=
  bind (bind (item "id" data) as_str) (λ i,
  bind (bind (bind (item "role" data) as_str) role_of_value) (λ r,
  bind (as_str (default (Json.JStr "") (Json.get "content" data))) (λ c,
  bind (bind (as_list (default (Json.JArr []) (Json.get "tool_uses" data)))
             (traverse tool_use_from_dict)) (λ tus,
  bind (bind (as_list (default (Json.JArr []) (Json.get "tool_results" data)))
             (traverse tool_result_from_dict)) (λ trs,
  bind (as_opt_int (default Json.JNull (Json.get "tokens_used" data))) (λ tk,
  Returned (mkMsg i r c tus trs tk))))))).

(** [Conversation.to_dict], without the two dates and [metadata]. *)
Definition to_dict (c : Conversation) : Json.value :=
  Json.JObj [("session_id", Json.JStr (session_id c));
             ("messages", Json.JArr (message_to_dict <$> messages c));
             ("system_prompt", opt_string (system_prompt c));
             ("model", Json.JStr (model c));
             ("provider", Json.JStr (provider c));
             ("total_input_tokens", Json.JNum (total_input_tokens c));
             ("total_output_tokens", Json.JNum (total_output_tokens c))].

Definition DEFAULT_MODEL : string := "claude-sonnet-4-20250514".

(** [Conversation.from_dict] *)
Definition from_dict (data : Json.value) : outcome Conversation :=
  bind (bind (item "session_id" data) as_str) (λ sid,
  bind (as_opt_str (default Json.JNull (Json.get "system_prompt" data))) (λ sp,
  bind (as_str (default (Json.JStr DEFAULT_MODEL) (Json.get "model" data)))
       (λ md,
  bind (as_str (default (Json.JStr "anthropic") (Json.get "provider" data)))
       (λ pv,
  bind (as_int (default (Json.JNum 0) (Json.get "total_input_tokens" data)))
       (λ ti,
  bind (as_int (default (Json.JNum 0) (Json.get "total_output_tokens" data)))
       (λ to,
  bind (bind (as_list (default (Json.JArr []) (Json.get "messages" data)))
             (traverse message_from_dict)) (λ ms,
  Returned (mkConv sid ms sp md pv ti to)))))))).

(** *** [ConversationService]: the dictionary [_conversations] *)

Definition create_conversation (session_id : string)
    (system_prompt : option string) (model provider : string)
    (store : gmap string Conversation)
  : Conversation * gmap string Conversation :=
  let conv := mkConv session_id [] system_prompt model provider 0 0 in
  (conv, <[session_id := conv]> store).

Definition get_conversation (session_id : string)
    (store : gmap string Conversation) : option Conversation :=
  store !! session_id.

Definition get_or_create_conversation (session_id : string)
    (system_prompt : option string) (model provider : string)
    (store : gmap string Conversation)
  : Conversation * gmap string Conversation :=
  match get_conversation session_id store with
  | None => create_conversation session_id system_prompt model provider store
  | Some conv => (conv, store)
  end.

Definition delete_conversation (session_id : string)
    (store : gmap string Conversation) : bool * gmap string Conversation :=
  match store !! session_id with
  | Some _ => (true, delete session_id store)
  | None => (false, store)
  end.

(** [load_conversation]: the conversation read from [data] is stored
    under the [session_id] of the call. *)
Definition load_conversation (session_id : string) (data : Json.value)
    (store : gmap string Conversation)
  : outcome Conversation * gmap string Conversation :=
  match from_dict data with
  | Returned conv => (Returned conv, <[session_id := conv]> store)
  | Raised msg => (Raised msg, store)
  end.

End ConvDict.

(** ** What a provider stream amounts to *)

Module StreamSpec.
Import Llm.

(** The text a stream event adds to the running buffer. *)
Definition delta_text (e : StreamEvent) : string :=
  if bool_decide (se_type e = TEXT_DELTA) then default "" (se_text e) else "".

Fixpoint texts (evs : list StreamEvent) : string :=
  match evs with
  | [] => ""
  | e :: rest => delta_text e +:+ texts rest
  end.

(** The tool uses of the [TOOL_USE_END] events, in order. *)
Definition ended (evs : list StreamEvent) : list ToolUse :=
  omap Streaming.ended_tool_use evs.

(** The tokens a stream reports under [key] in its [MESSAGE_END]
    events. *)
Definition reported (key : string) (e : StreamEvent) : Z :=
  match se_usage e with
  | Some usage =>
      if bool_decide (se_type e = MESSAGE_END)
      then Streaming.usage_get key usage else 0%Z
  | None => 0%Z
  end.

Fixpoint tokens (key : string) (evs : list StreamEvent) : Z :=
  match evs with
  | [] => 0%Z
  | e :: rest => (reported key e + tokens key rest)%Z
  end.

End StreamSpec.

(** ** [base.py]: reading a schema *)

Module Schema.

(** The declared [type] of a property, [None] when the schema does not
    list the key. *)
Definition declared_type (properties : list (string * string))
    (key : string) : option string :=
  snd <$> List.find (λ pt : string * string, String.eqb (fst pt) key)
                    properties.

End Schema.

(** ** [anthropic_provider.py]: what passes through the stream *)

Module AnthropicSpec.
Import Llm Anthropic.

(** The texts of the vendor's text deltas, and the texts of the
    [TEXT_DELTA] events given out. *)
Definition vendor_texts (evs : list VendorEvent) : list string :=
  omap (λ ev, match ev with
              | content_block_delta (Some (TextDelta text)) => Some text
              | _ => None
              end) evs.

Definition given_texts (out : list StreamEvent) : list string :=
  omap (λ e, if bool_decide (se_type e = TEXT_DELTA) then se_text e else None)
       out.

(** How many events of type [t] a provider gives out. *)
Definition count_type (t : StreamEventType) (out : list StreamEvent) : nat :=
  length (filter (λ e, se_type e = t) out).

End AnthropicSpec.

(** ** More of the session used in examples *)

Module Examples.
Import Llm Streaming.

Definition usage_event (input output : Z) : StreamEvent :=
  mkStreamEvent MESSAGE_END None None None None None None
    (Some (<["input_tokens" := input]> {["output_tokens" := output]})).

(** Answers in two text deltas and reports its tokens. *)
Definition plain_provider (_ : Conv.Conversation) : ProviderRun :=
  mkRun [event MESSAGE_START; Scenario.text_delta "Hel";
         Scenario.text_delta "lo"; usage_event 12 5] None.

(** Breaks off with an error event after the first delta. *)
Definition failing_provider (_ : Conv.Conversation) : ProviderRun :=
  mkRun [Scenario.text_delta "Hel";
         mkStreamEvent Llm.ERROR None None None None None (Some "overloaded")
                       None;
         Scenario.text_delta "lo"] None.

(** A tool that needs no permission and answers with its name. *)
Definition echo_tool : ToolBase.Tool :=
  ToolBase.mkTool "echo" false (λ _, ToolBase.Returned None)
    (λ _ _ fs, (ToolBase.Returned (ToolBase.success_result "echo" ∅), fs)).

(** A tool whose [execute] raises. *)
Definition failing_tool : ToolBase.Tool :=
  ToolBase.mkTool "boom" false (λ _, ToolBase.Returned None)
    (λ _ _ fs, (ToolBase.Raised "disk full", fs)).

(** A tool behind the permission gate that empties the file table. *)
Definition wipe_tool : ToolBase.Tool :=
  ToolBase.mkTool "wipe" true (λ _, ToolBase.Returned None)
    (λ _ _ _, (ToolBase.Returned (ToolBase.success_result "wiped" ∅), ∅)).

Definition registry : gmap string ToolBase.Tool :=
  <["echo" := echo_tool]>
    (<["boom" := failing_tool]> {["wipe" := wipe_tool]}).

Definition use (id name : string) : Llm.ToolUse :=
  Llm.mkToolUse id name Json.empty_object.



End Examples.

(* ================================================================== *)
(** * Properties *)
(* ================================================================== *)

Section ConversationFacts.
Import Llm Conv.

Lemma index_app_fresh {A} `{EqDecision A} (x : A) (pre post : list A) :
  x ∉ pre → index x (pre ++ x :: post) = Some (length pre).
Proof.
  induction pre as [|y pre IH]; intros Hnot; simpl.
  - by rewrite decide_True.
  - rewrite decide_False by (intros ->; apply Hnot; left).
    rewrite IH; [done|]. intros Hin. apply Hnot. by right.
Qed.


Lemma find_none_app {A} (p : A → bool) (l1 l2 : list A) :
  Forall (λ x, p x = false) l1 → List.find p (l1 ++ l2) = List.find p l2.
Proof.
  induction 1 as [|x l1 Hx _ IH]; simpl; [done|]. by rewrite Hx.
Qed.

Lemma find_elem {A} (p : A → bool) (l : list A) (x : A) :
  List.find p l = Some x → x ∈ l.
Proof.
  intros H. apply List.find_some in H as [H _]. by apply list_elem_of_In.
Qed.

Lemma last_assistant_split (c : Conversation) pre la post :
  messages c = pre ++ la :: post →
  role la = ASSISTANT →
  Forall (λ m, role m ≠ ASSISTANT) post →
  get_last_assistant_message c = Some la.
Proof.
  intros Hms Hla Hpost. unfold get_last_assistant_message.
  rewrite Hms, reverse_app, reverse_cons, <- app_assoc.
  rewrite find_none_app.
  - simpl. unfold is_assistant. by rewrite bool_decide_eq_true_2.
  - apply Forall_reverse. eapply Forall_impl; [exact Hpost|].
    intros m Hm. unfold is_assistant. by apply bool_decide_eq_false_2.
Qed.


Lemma drop_succ_app_cons {A} (pre post : list A) (x : A) :
  drop (S (length pre)) (pre ++ x :: post) = post.
Proof. induction pre as [|y pre IH]; simpl; [by rewrite drop_0|exact IH]. Qed.

End ConversationFacts.


(** ** The sandbox *)

Section PathFacts.
Import Pathlib.

Lemma is_prefix_spec (l1 l2 : list string) :
  is_prefix l1 l2 = true ↔ ∃ rest, l2 = l1 ++ rest.
Proof.
  unfold is_prefix. rewrite bool_decide_eq_true. split.
  - intros H. exists (drop (length l1) l2).
    rewrite <- H at 1. by rewrite take_drop.
  - intros [rest ->]. by rewrite take_app_length.
Qed.

Lemma is_relative_to_spec (p root : Path) :
  is_relative_to p root = true ↔ ToolBase.lies_under p root.
Proof.
  unfold is_relative_to, ToolBase.lies_under.
  rewrite andb_true_iff, bool_decide_eq_true, is_prefix_spec. done.
Qed.

Lemma pop_dotdot_plain (ps acc : list string) :
  Forall (λ x, x ≠ "..") ps → fold_left pop_dotdot ps acc = acc ++ ps.
Proof.
  intros H. revert acc. induction H as [|x ps Hx _ IH]; intros acc; simpl.
  - by rewrite app_nil_r.
  - unfold pop_dotdot at 2.
    destruct (String.eqb_spec x "..") as [->|_]; [done|].
    by rewrite IH, <- app_assoc.
Qed.

Lemma Forall_removelast {A} (P : A → Prop) (l : list A) :
  Forall P l → Forall P (removelast l).
Proof.
  induction 1 as [|x l Hx Hl IH]; simpl; [constructor|].
  destruct l; [constructor|]. by constructor.
Qed.

Lemma pop_dotdot_clean (ps acc : list string) :
  Forall (λ x, x ≠ "..") acc →
  Forall (λ x, x ≠ "..") (fold_left pop_dotdot ps acc).
Proof.
  revert acc. induction ps as [|x ps IH]; intros acc Hacc; simpl; [done|].
  apply IH. unfold pop_dotdot.
  destruct (String.eqb_spec x "..") as [->|Hne].
  - by apply Forall_removelast.
  - apply Forall_app. split; [done|]. by repeat constructor.
Qed.

Lemma lexical_resolve_idem (cwd : list string) (p : Path) :
  lexical_resolve cwd (lexical_resolve cwd p) = lexical_resolve cwd p.
Proof.
  unfold lexical_resolve.
  destruct (path_anchor p); simpl;
    by rewrite pop_dotdot_plain by (by apply pop_dotdot_clean).
Qed.

End PathFacts.

Section SandboxFacts.
Import Pathlib ToolBase.

Variable fs_resolve : Path → Path.
Hypothesis fs_resolve_idem : ∀ p, fs_resolve (fs_resolve p) = fs_resolve p.

Lemma is_path_allowed_spec (ctx : ToolContext) (p : Path) :
  is_path_allowed fs_resolve ctx p = true ↔
  lies_under (fs_resolve p) (fs_resolve (workspace_path ctx))
  ∨ ∃ a, a ∈ allowed_paths ctx ∧ lies_under (fs_resolve p) (fs_resolve a).
Proof.
  unfold is_path_allowed.
  destruct (is_relative_to (fs_resolve p) (fs_resolve (workspace_path ctx)))
    eqn:Hws.
  - split; [|done]. intros _. left. by apply is_relative_to_spec.
  - rewrite existsb_exists. split.
    + intros (a & Hin & Ha). right. exists a. split.
      * by apply list_elem_of_In.
      * by apply is_relative_to_spec.
    + intros [Hu|(a & Hin & Ha)].
      * apply is_relative_to_spec in Hu. congruence.
      * exists a. split; [by apply list_elem_of_In|].
        by apply is_relative_to_spec.
Qed.

End SandboxFacts.

(** C8. [resolve_path] returns a path exactly when the resolved absolute
    path lies, component by component, under the resolved workspace root
    or under one of the resolved allow-listed roots, and the path it
    returns is that resolved path; every other argument is rejected with
    the [ValueError] naming the resolved path. *)
Theorem resolve_path_containment (fs_resolve : Pathlib.Path → Pathlib.Path)
    (ctx : ToolBase.ToolContext) (path_str : string) :
  (∀ p, fs_resolve (fs_resolve p) = fs_resolve p) →
  let resolved := ToolBase.target fs_resolve ctx path_str in
  let inside :=
    ToolBase.lies_under resolved (fs_resolve (ToolBase.workspace_path ctx))
    ∨ ∃ a, a ∈ ToolBase.allowed_paths ctx
           ∧ ToolBase.lies_under resolved (fs_resolve a) in
  (inside ↔ ToolBase.resolve_path fs_resolve ctx path_str
            = ToolBase.Returned resolved)
  ∧ (¬ inside ↔ ToolBase.resolve_path fs_resolve ctx path_str
       = ToolBase.Raised ("Path '" +:+ Pathlib.to_str resolved
                          +:+ "' is outside allowed boundaries"))
  ∧ (∀ r, ToolBase.resolve_path fs_resolve ctx path_str = ToolBase.Returned r
          → r = resolved).
Proof.
  intros Hidem resolved inside.
  assert (Hallowed : ToolBase.is_path_allowed fs_resolve ctx resolved = true
                     ↔ inside).
  { rewrite (is_path_allowed_spec fs_resolve ctx resolved).
    unfold inside, resolved, ToolBase.target. by rewrite !Hidem. }
  unfold ToolBase.resolve_path. fold (ToolBase.target fs_resolve ctx path_str).
  fold resolved.
  destruct (ToolBase.is_path_allowed fs_resolve ctx resolved) eqn:Hok.
  - assert inside by by apply Hallowed.
    repeat split; try done. intros r Hr. by inversion Hr.
  - assert (¬ inside) by (intros Hin; apply Hallowed in Hin; congruence).
    repeat split; try done.
Qed.

(** ** Editing a file *)

Section TextFacts.
Import PyStr.
Context {A : Type} `{EqDecision A}.

Lemma starts_with_spec (pat s : list A) :
  starts_with pat s = true ↔ ∃ rest, s = pat ++ rest.
Proof.
  revert s. induction pat as [|p pat IH]; intros s; simpl.
  - split; [intros _; by exists s|done].
  - destruct s as [|c s].
    + split; [done|]. by intros [rest Hrest].
    + rewrite andb_true_iff, bool_decide_eq_true, IH. split.
      * intros [-> [rest ->]]. by exists rest.
      * intros [rest Hrest]. injection Hrest as -> ->. split; [done|].
        by exists rest.
Qed.

Lemma pieces_nonempty (old : list A) (s : list A) :
  ∀ skip cur, pieces old skip cur s ≠ [].
Proof.
  induction s as [|c s IH]; intros skip cur; simpl; [done|].
  destruct skip; [|apply IH].
  destruct (starts_with old (c :: s)); [done|apply IH].
Qed.

Lemma join_cons (sep p : list A) (ps : list (list A)) :
  ps ≠ [] → join sep (p :: ps) = p ++ sep ++ join sep ps.
Proof. by destruct ps. Qed.

Lemma join_pieces (old : list A) (s : list A) :
  old ≠ [] →
  ∀ skip cur, join old (pieces old skip cur s) = cur ++ drop skip s.
Proof.
  intros Hold. induction s as [|c s IH]; intros skip cur; simpl.
  - by rewrite drop_nil, app_nil_r.
  - destruct skip as [|k]; [|apply IH].
    destruct (starts_with old (c :: s)) eqn:Hm.
    + apply starts_with_spec in Hm as [rest Hrest].
      rewrite join_cons by apply pieces_nonempty.
      rewrite IH. simpl. f_equal.
      destruct old as [|o old']; [done|].
      injection Hrest as -> ->. simpl.
      by rewrite Nat.sub_0_r, drop_app_length.
    + rewrite IH. by rewrite <- app_assoc.
Qed.

Lemma join_singletons (s : list A) :
  join [] (map (λ c, [c]) s ++ [[]]) = s.
Proof.
  induction s as [|c s IH]; [done|].
  change (map (λ c0, [c0]) (c :: s) ++ [[]])
    with ([c] :: (map (λ c0, [c0]) s ++ [[]])).
  rewrite join_cons, IH; [done|]. by destruct s.
Qed.

(** Putting the pattern back between the pieces gives the text. *)
Lemma join_split_text (old s : list A) : join old (split_text old s) = s.
Proof.
  destruct old as [|o old'].
  - unfold split_text. rewrite join_cons by by destruct s.
    apply join_singletons.
  - unfold split_text. by rewrite join_pieces.
Qed.

Lemma join_four (sep s0 s1 s2 s3 : list A) :
  join sep [s0; s1; s2; s3] = s0 ++ sep ++ s1 ++ sep ++ s2 ++ sep ++ s3.
Proof. done. Qed.

End TextFacts.

Lemma chars_text (l : list ascii) : PyStr.chars (PyStr.text l) = l.
Proof. apply String.list_ascii_of_string_of_list_ascii. Qed.

Lemma count_three_pieces (old content : string) :
  PyStr.count old content = 3 →
  ∃ s0 s1 s2 s3,
    PyStr.split_text (PyStr.chars old) (PyStr.chars content) = [s0; s1; s2; s3].
Proof.
  unfold PyStr.count. intros Hc.
  destruct (PyStr.split_text (PyStr.chars old) (PyStr.chars content))
    as [|s0 [|s1 [|s2 [|s3 [|s4 l]]]]]; simpl in Hc; try lia.
  by exists s0, s1, s2, s3.
Qed.

(** C9, amended.  When [old_string] occurs exactly 3 times in the text of
    the file, [edit_file] without [replace_all] returns the error that
    reports the count 3 and leaves the file table as it was.  With
    [replace_all] it builds the text in which each of the 3 occurrences
    has become [new_string] and writes it back: when the write goes
    through the call succeeds, reports [replacements = 3] and the file
    holds that text; when the file cannot be opened for writing the call
    returns the error of [open] and the file is as it was; when the
    write fails after the file was opened the call returns that error
    and the file holds what the failed write left. *)
Theorem edit_file_three_occurrences
    (fs_resolve : Pathlib.Path → Pathlib.Path)
    (fs_write : string → string → FileTools.write_outcome)
    (ctx : ToolBase.ToolContext)
    (fs : gmap string ToolBase.node) (once all : Json.value)
    (file_path_str old_string new_string content : string)
    (file_path : Pathlib.Path) :
  ToolBase.resolve_path fs_resolve ctx file_path_str
    = ToolBase.Returned file_path →
  fs !! Pathlib.to_str file_path = Some (ToolBase.File content) →
  PyStr.count old_string content = 3 →
  (∀ a, a ∈ [once; all] →
     Json.get "file_path" a = Some (Json.JStr file_path_str)
     ∧ Json.get "old_string" a = Some (Json.JStr old_string)
     ∧ Json.get "new_string" a = Some (Json.JStr new_string)) →
  FileTools.replace_all_flag once = false →
  FileTools.replace_all_flag all = true →
  FileTools.execute_edit_file fs_resolve fs_write once ctx fs
    = (ToolBase.Returned (ToolBase.error_result
         "Text found 3 times. Use replace_all=true or provide more context."),
       fs)
  ∧ FileTools.execute_edit_file fs_resolve fs_write all ctx fs
    = match fs_write (Pathlib.to_str file_path)
              (PyStr.replace old_string new_string content) with
      | FileTools.Written =>
          (ToolBase.Returned (ToolBase.success_result
             ("Successfully made 3 replacement(s) in "
              +:+ Pathlib.to_str file_path)
             (<["file_path" := Json.JStr (Pathlib.to_str file_path)]>
                {["replacements" := Json.JNum 3]})),
           <[Pathlib.to_str file_path :=
               ToolBase.File (PyStr.replace old_string new_string content)]>
             fs)
      | FileTools.NotOpened err =>
          (ToolBase.Returned (ToolBase.error_result err), fs)
      | FileTools.Broken err remains =>
          (ToolBase.Returned (ToolBase.error_result err),
           <[Pathlib.to_str file_path := ToolBase.File remains]> fs)
      end
  ∧ ∃ s0 s1 s2 s3 : list ascii,
      PyStr.chars content
        = s0 ++ PyStr.chars old_string ++ s1 ++ PyStr.chars old_string
          ++ s2 ++ PyStr.chars old_string ++ s3
      ∧ PyStr.chars (PyStr.replace old_string new_string content)
        = s0 ++ PyStr.chars new_string ++ s1 ++ PyStr.chars new_string
          ++ s2 ++ PyStr.chars new_string ++ s3.
Proof.
  intros Hpath Hfile Hcount Hargs Honce Hall.
  destruct (Hargs once) as (Hf1 & Ho1 & Hn1); [repeat constructor|].
  destruct (Hargs all) as (Hf2 & Ho2 & Hn2); [repeat constructor|].
  assert (Hin : PyStr.contains old_string content = true).
  { unfold PyStr.contains. by rewrite Hcount. }
  repeat split.
  - unfold FileTools.execute_edit_file, FileTools.subscript,
      FileTools.replace_and_write.
    by rewrite Hf1, Ho1, Hn1, Honce, Hpath, Hfile, Hin, Hcount.
  - unfold FileTools.execute_edit_file, FileTools.subscript,
      FileTools.replace_and_write.
    rewrite Hf2, Ho2, Hn2, Hall, Hpath, Hfile, Hin, Hcount.
    by destruct (fs_write _ _).
  - destruct (count_three_pieces old_string content Hcount)
      as (s0 & s1 & s2 & s3 & Hsplit).
    exists s0, s1, s2, s3. split.
    + rewrite <- (join_split_text (PyStr.chars old_string)
                    (PyStr.chars content)) at 1.
      by rewrite Hsplit.
    + unfold PyStr.replace. by rewrite chars_text, Hsplit.
Qed.

(** C9, the claim as it stands: the text of the file holds [old_string]
    3 times and [edit_file] with [replace_all] does not succeed.  On a
    full disk it returns the error of the write, and the file, opened
    for writing before the write failed, is left empty.  On a file that
    may not be written it returns the error of [open], and the file is
    as it was. *)
Lemma edit_file_write_failure :
  PyStr.count "ab" "ab-ab-ab" = 3
  ∧ FileTools.execute_edit_file Scenario.resolve Scenario.full_disk
      (Scenario.edit_arguments true) Scenario.context Scenario.disk
    = (ToolBase.Returned
         (ToolBase.error_result "[Errno 28] No space left on device"),
       <["/work/ws/a.txt" := ToolBase.File ""]> Scenario.disk)
  ∧ FileTools.execute_edit_file Scenario.resolve Scenario.read_only
      (Scenario.edit_arguments true) Scenario.context Scenario.disk
    = (ToolBase.Returned
         (ToolBase.error_result
            "[Errno 13] Permission denied: '/work/ws/a.txt'"),
       Scenario.disk).
Proof. by vm_compute. Qed.

(** ** The permission gate *)

(** C10. [respond_permission] on an id that is not pending returns
    [False] and changes nothing; on a pending id it returns [True] and
    removes that entry, whatever the answer; the tool name joins the
    always-approved set on an approval with [always], the session set on
    an approval without it, and a denial leaves both sets as they were. *)
Theorem respond_permission_frame (permission_id : string)
    (approved always : bool) (s : ToolService.ToolExecutionService) :
  let r := ToolService.respond_permission permission_id approved always s in
  match ToolService._pending_permissions s !! permission_id with
  | None => r = (false, s)
  | Some permission =>
      r.1 = true
      ∧ ToolService._pending_permissions r.2
        = delete permission_id (ToolService._pending_permissions s)
      ∧ ToolService._pending_permissions r.2 !! permission_id = None
      ∧ ToolService._always_approved r.2
        = (if approved && always
           then {[ToolService.tool_name permission]}
                ∪ ToolService._always_approved s
           else ToolService._always_approved s)
      ∧ ToolService._approved_tools r.2
        = (if approved && negb always
           then {[ToolService.tool_name permission]}
                ∪ ToolService._approved_tools s
           else ToolService._approved_tools s)
      ∧ ToolService.svc_workspace_path r.2 = ToolService.svc_workspace_path s
      ∧ ToolService.svc_session_id r.2 = ToolService.svc_session_id s
      ∧ ToolService.svc_allowed_paths r.2 = ToolService.svc_allowed_paths s
  end.
Proof.
  unfold ToolService.respond_permission.
  destruct (ToolService._pending_permissions s !! permission_id) eqn:Hp;
    [|done].
  destruct approved, always; simpl; by rewrite lookup_delete_eq.
Qed.

(** ** The streaming orchestrator *)

Section StreamingFacts.
Import Llm ToolBase Streaming.

Lemma consume_events sid evs :
  ∀ acc tus c, Forall pass_event (emitted (consume sid evs acc tus c)).
Proof.
  induction evs as [|e evs IH]; intros acc tus c; simpl; [constructor|].
  repeat (case_match; simpl);
    repeat (apply Forall_cons; split);
    try apply IH; try apply Forall_nil; unfold pass_event; simpl; auto.
Qed.

Lemma stream_round_events h : Forall pass_event (emitted (stream_round h)).
Proof.
  unfold stream_round.
  destruct (returned (consume _ _ _ _ _)); [apply consume_events|].
  destruct (run_failure _); [|apply consume_events]. simpl.
  apply Forall_app. split; [apply consume_events|].
  apply Forall_cons. split; [|by apply Forall_nil].
  unfold pass_event. simpl. auto.
Qed.

Lemma pass_event_not_complete e : pass_event e → type e ≠ COMPLETE.
Proof. by intros [H|[H|H]]; rewrite H. Qed.

Lemma pass_event_not_thinking e : pass_event e → is_thinking e = false.
Proof.
  intros He. unfold is_thinking. apply bool_decide_eq_false_2. intros Heq.
  rewrite Heq in He. by destruct He as [H|[H|H]].
Qed.

Lemma consume_session sid evs :
  ∀ acc tus c,
    Conv.session_id (pass_conversation (consume sid evs acc tus c))
    = Conv.session_id c.
Proof.
  induction evs as [|e evs IH]; intros acc tus c; simpl; [done|].
  repeat (case_match; simpl); by rewrite ?IH.
Qed.

Lemma stream_round_session h :
  Conv.session_id (pass_conversation (stream_round h))
  = Conv.session_id (conversation h).
Proof.
  unfold stream_round. repeat (case_match; simpl); apply consume_session.
Qed.

Lemma add_assistant_message_session mid text tus tokens c :
  Conv.session_id (Conv.add_assistant_message mid text tus tokens c)
  = Conv.session_id c.
Proof. unfold Conv.add_assistant_message. by repeat case_match. Qed.

Variable tools : gmap string Tool.

Lemma iteration_session h :
  Conv.session_id (conversation (step_handler (iteration tools h)))
  = Conv.session_id (conversation h).
Proof.
  unfold iteration. repeat (case_match; simpl);
    by rewrite ?add_assistant_message_session, stream_round_session.
Qed.

Lemma iteration_events_not_complete h :
  Forall (λ e, type e ≠ COMPLETE) (step_events (iteration tools h)).
Proof.
  assert (Hp : Forall (λ e, type e ≠ COMPLETE) (emitted (stream_round h))).
  { eapply Forall_impl; [apply stream_round_events|].
    apply pass_event_not_complete. }
  unfold iteration. repeat (case_match; simpl);
    repeat first [apply Forall_cons; split | apply Forall_app; split];
    try done.
  apply Forall_forall. intros e He. apply list_elem_of_fmap in He.
  by destruct He as (r & -> & _).
Qed.



End StreamingFacts.


(** ** Resuming after a permission answer *)

Section ResumeFacts.
Import Llm ToolBase Streaming.

Variable tools : gmap string Tool.

Lemma request_permission_keyed pid tool args s :
  ToolService.keyed_by_id (ToolService._pending_permissions s) →
  ToolService.keyed_by_id (ToolService._pending_permissions
                 (ToolService.request_permission pid tool args s).2).
Proof.
  intros Hk k p. simpl. rewrite lookup_insert. case_decide.
  - intros [= <-]. by subst.
  - apply Hk.
Qed.

(** On every service whose pending map is keyed by id, a denial finds no
    request to answer: its only event is the [permission_denied] status
    and the conversation is left as it was. *)
Lemma denial_records_no_result fuel permission_id always h :
  ToolService.keyed_by_id (ToolService._pending_permissions (tool_service h)) →
  ∃ h', continue_after_permission tools fuel permission_id false always h
        = ([status_event (Conv.session_id (conversation h))
                         "permission_denied"], h', Finished)
        ∧ conversation h' = conversation h.
Proof.
  intros Hk. unfold continue_after_permission. simpl.
  destruct (List.find _ _) as [p|] eqn:Hfind; [|by eexists].
  exfalso. apply List.find_some in Hfind as [Hin Heq].
  apply String.eqb_eq in Heq.
  apply list_elem_of_In, list_elem_of_fmap in Hin as ([k p'] & -> & Hin).
  apply elem_of_map_to_list in Hin. simpl in Heq.
  unfold ToolService.respond_permission in Hin.
  destruct (ToolService._pending_permissions (tool_service h) !! permission_id)
    eqn:Hp; simpl in Hin.
  - apply lookup_delete_Some in Hin as [Hne Hin].
    apply Hk in Hin. congruence.
  - assert (ToolService.id p' = k) by by apply Hk. congruence.
Qed.

Lemma rounds_app out1 out2 : rounds (out1 ++ out2) = rounds out1 + rounds out2.
Proof. unfold rounds. by rewrite filter_app, length_app. Qed.

Lemma rounds_tool_results sid results :
  rounds (map (tool_result_event sid) results) = 0.
Proof. induction results as [|r rs IH]; [done|]. exact IH. Qed.

(** An approval with tool uses pending: they are executed, their results
    given out and appended, and [_continue_conversation] takes over. *)
Lemma approval_continues fuel permission_id always h tus results s' fs' :
  Conv.get_pending_tool_uses (conversation h) = tus →
  tus ≠ [] →
  ToolService.execute_tools tools (entropy h) tus
    (ToolService.respond_permission permission_id true always
       (tool_service h)).2 (files h) = (Returned results, s', fs') →
  continue_after_permission tools fuel permission_id true always h
  = let '(out, h', x) :=
      _continue_conversation tools fuel
        (mkHandler (provider h)
           (Conv.add_tool_results (uuid4 (entropy h + length tus)) results
              (conversation h))
           s' (max_tool_iterations h) fs' (S (entropy h + length tus))) in
    (map (tool_result_event (Conv.session_id (conversation h))) results ++ out,
     h', x).
Proof.
  intros Htus Hne Hexec. unfold continue_after_permission.
  cbv zeta. change (negb true) with false. cbv iota.
  rewrite Htus. destruct tus as [|tu tus']; [done|]. by rewrite Hexec.
Qed.

End ResumeFacts.

(** C2, on the session of the examples: [process_prompt] has stopped on
    the permission request [uuid4 2] of the edit.  Answering it with a
    denial gives out the [permission_denied] status and nothing else: no
    tool-result event, and the conversation is the one before the call,
    the tool use of the edit still pending in it. *)
Theorem denial_leaves_tool_use_unanswered :
  let h := Scenario.suspended Scenario.one_edit_provider in
  let r := Streaming.continue_after_permission Scenario.tools 0 (uuid4 2)
             false false h in
  is_Some (ToolService._pending_permissions (Streaming.tool_service h)
           !! uuid4 2)
  ∧ r.1.1 = [Streaming.status_event "s1" "permission_denied"]
  ∧ r.2 = Streaming.Finished
  ∧ Streaming.conversation r.1.2 = Streaming.conversation h
  ∧ Conv.get_pending_tool_uses (Streaming.conversation r.1.2)
    = [Scenario.edit_use].
Proof. vm_compute. repeat split; eauto. Qed.

(** ** Counting provider rounds *)

Section RoundFacts.
Import Llm ToolBase Streaming.

Variable tools : gmap string Tool.

Lemma rounds_cons_thinking sid out :
  rounds (status_event sid "thinking" :: out) = S (rounds out).
Proof.
  unfold rounds. rewrite filter_cons_True; [done|].
  unfold is_thinking. by apply bool_decide_eq_true_2.
Qed.

Lemma rounds_pass_events out : Forall pass_event out → rounds out = 0.
Proof.
  induction 1 as [|e out He _ IH]; [done|].
  unfold rounds. rewrite filter_cons_False; [exact IH|].
  by rewrite pass_event_not_thinking.
Qed.

Lemma rounds_final sid text c : rounds (final_events sid text c) = 0.
Proof. done. Qed.

Lemma iteration_rounds h : rounds (step_events (iteration tools h)) = 1.
Proof.
  pose proof (rounds_pass_events _ (stream_round_events h)) as Hp.
  unfold iteration. repeat (case_match; simpl);
    rewrite rounds_cons_thinking, ?rounds_app, ?Hp; try done.
  change (status_event ?s "executing_tools" :: ?l)
    with ([status_event s "executing_tools"] ++ l).
  by rewrite rounds_app, rounds_tool_results.
Qed.

Lemma process_loop_rounds n :
  ∀ last h, rounds (process_loop tools n last h).1.1 ≤ n.
Proof.
  induction n as [|n IH]; intros last h; simpl.
  - by destruct last.
  - pose proof (iteration_rounds h) as Hit.
    destruct (step_next (iteration tools h)); simpl.
    + specialize (IH (Some (step_text (iteration tools h)))
                     (step_handler (iteration tools h))).
      destruct (process_loop tools n _ _) as [[out h'] x]. simpl in *.
      rewrite rounds_app. lia.
    + rewrite rounds_app, rounds_final. lia.
    + lia.
    + lia.
Qed.

(** In [process_prompt] the loop counter bounds the provider rounds. *)
Lemma process_prompt_rounds prompt h :
  rounds (process_prompt tools prompt h).1.1
  ≤ Z.to_nat (max_tool_iterations h).
Proof.
  unfold process_prompt.
  pose proof (process_loop_rounds (Z.to_nat (max_tool_iterations h)) None
                (begin_prompt prompt h)) as Hb.
  destruct (process_loop tools _ _ _) as [[out h'] x]. simpl in *.
  unfold rounds in *. by rewrite filter_cons_False.
Qed.

End RoundFacts.

Section RestlessFacts.
Import Llm ToolBase Streaming.

Lemma unknown_tool_absent : Scenario.tools !! "undo_everything" = None.
Proof. reflexivity. Qed.

Lemma restless_provider_later c :
  existsb Conv.is_assistant (Conv.messages c) = true →
  Scenario.restless_provider c
  = mkRun [Scenario.tool_use_end
             (mkToolUse "toolu_x" "undo_everything" Json.empty_object);
           event MESSAGE_END] None.
Proof. intros H. unfold Scenario.restless_provider. by rewrite H. Qed.

Lemma execute_unknown_tool tools pid skip tu s fs :
  tools !! tu_name tu = None →
  ToolService.execute_tool tools pid skip tu s fs
  = (Returned (Llm.mkToolResult (tu_id tu)
       ("Error: Unknown tool '" +:+ tu_name tu +:+ "'") true), s, fs).
Proof. intros H. unfold ToolService.execute_tool. by rewrite H. Qed.

Lemma restless_round sid :
  consume_continue sid
    [Scenario.tool_use_end
       (mkToolUse "toolu_x" "undo_everything" Json.empty_object);
     event MESSAGE_END] "" []
  = ([], "", [mkToolUse "toolu_x" "undo_everything" Json.empty_object]).
Proof. reflexivity. Qed.

(** With the provider that keeps asking for a tool, every call of
    [_continue_conversation] makes one provider round and calls itself
    again: the model stops only when its fuel is spent. *)
Lemma restless_continuation fuel :
  ∀ h,
    provider h = Scenario.restless_provider →
    existsb Conv.is_assistant (Conv.messages (conversation h)) = true →
    ∃ out h',
      _continue_conversation Scenario.tools fuel h = (out, h', OutOfFuel)
      ∧ rounds out = fuel
      ∧ max_tool_iterations h' = max_tool_iterations h.
Proof.
  induction fuel as [|n IH]; intros h Hprov Hasst.
  - by exists [], h.
  - destruct (IH (mkHandler (provider h)
        (Conv.add_tool_results (uuid4 (S (entropy h + 1)))
           [Llm.mkToolResult "toolu_x"
              "Error: Unknown tool 'undo_everything'" true]
           (Conv.add_assistant_message (uuid4 (entropy h)) ""
              (Some [mkToolUse "toolu_x" "undo_everything" Json.empty_object])
              None (conversation h)))
        (tool_service h) (max_tool_iterations h) (files h)
        (S (S (entropy h + 1)))))
      as (out & h' & Hrun & Hrounds & Hmax).
    { exact Hprov. }
    { simpl. rewrite !existsb_app, Hasst. done. }
    exists (status_event (Conv.session_id (conversation h)) "thinking" :: out),
           h'.
    rewrite rounds_cons_thinking, Hrounds. split; [|done].
    cbn [_continue_conversation].
    rewrite Hprov, (restless_provider_later _ Hasst).
    cbn [run_events run_failure]. rewrite restless_round.
    cbn [app length ToolService.execute_tools].
    rewrite (execute_unknown_tool Scenario.tools _ _
               (mkToolUse "toolu_x" "undo_everything" Json.empty_object)
               _ _ unknown_tool_absent).
    cbn [tu_id tu_name].
    change ("Error: Unknown tool '" +:+ "undo_everything" +:+ "'")
      with "Error: Unknown tool 'undo_everything'".
    rewrite Hprov in Hrun. by rewrite Hrun.
Qed.

End RestlessFacts.

(** C3, on the session of the examples with the provider that keeps
    asking for a tool: once the permission of the edit is approved,
    [continue_after_permission] makes as many provider rounds as the
    model is given fuel for and is still running when the fuel is spent,
    with a handler whose [max_tool_iterations] is 10; so it makes 11
    rounds and more, where [process_prompt] never makes more than
    [max_tool_iterations]. *)
Theorem continuation_rounds_exceed_maximum (fuel : nat) :
  let h := Scenario.suspended Scenario.restless_provider in
  let r := Streaming.continue_after_permission Scenario.tools fuel (uuid4 2)
             true false h in
  Streaming.max_tool_iterations h = 10%Z
  ∧ r.2 = Streaming.OutOfFuel
  ∧ Streaming.rounds r.1.1 = fuel
  ∧ ∀ prompt,
      Streaming.rounds (Streaming.process_prompt Scenario.tools prompt h).1.1
      ≤ 10.
Proof.
  intros h r. split; [reflexivity|].
  assert (Hr : ∃ out h', r = (out, h', Streaming.OutOfFuel)
                         ∧ Streaming.rounds out = fuel).
  { subst r.
    destruct (ToolService.execute_tools Scenario.tools (Streaming.entropy h)
                [Scenario.edit_use]
                (ToolService.respond_permission (uuid4 2) true false
                   (Streaming.tool_service h)).2 (Streaming.files h))
      as [[[results|msg] s'] fs'] eqn:Hexec;
      [|vm_compute in Hexec; discriminate].
    rewrite (approval_continues Scenario.tools fuel (uuid4 2) false h
               [Scenario.edit_use] results s' fs');
      [|by vm_compute|done|exact Hexec].
    edestruct (restless_continuation fuel) as (out & h' & Hrun & Hn & _);
      [| |rewrite Hrun].
    - reflexivity.
    - by vm_compute.
    - eexists _, _. split; [done|].
      by rewrite rounds_app, rounds_tool_results. }
  destruct Hr as (out & h' & -> & Hn). repeat split; [done|].
  intros prompt. apply (process_prompt_rounds Scenario.tools prompt h).
Qed.

(** ** Tool-call arguments rebuilt from streamed fragments *)

Section AnthropicFacts.
Import Llm Anthropic.

Lemma append_nil_r (s : string) : s +:+ "" = s.
Proof.
  induction s as [|c s IH]; [done|].
  change (String c (s +:+ "") = String c s). by rewrite IH.
Qed.

Lemma append_assoc (a b c : string) : (a +:+ b) +:+ c = a +:+ (b +:+ c).
Proof.
  induction a as [|x a IH]; [done|].
  change (String x ((a +:+ b) +:+ c) = String x (a +:+ (b +:+ c))).
  by rewrite IH.
Qed.


Variable json_loads : string → loads_outcome.



End AnthropicFacts.



(** ** Request ids and the pending map of a connection *)

Section McpFacts.
Import Mcp.

Lemma issued_app l1 l2 : issued (l1 ++ l2) = issued l1 ++ issued l2.
Proof. apply omap_app. Qed.

Lemma removed_app l1 l2 : removed (l1 ++ l2) = removed l1 ++ removed l2.
Proof. apply omap_app. Qed.

Lemma issued_bound (c : MCPConnection) (log : list obs) (k : Z) :
  consistent c log → k ∈ issued log → (1 ≤ k ≤ _request_id c)%Z.
Proof.
  intros (Hpos & Hiss & _) Hk. rewrite Hiss in Hk.
  apply list_elem_of_fmap in Hk as (n & -> & Hn).
  apply elem_of_seq in Hn. lia.
Qed.

(** Taking a pending id out of the map keeps the run consistent. *)
Lemma consistent_remove (c c' : MCPConnection) (log : list obs) (k : Z)
    (o : list obs) :
  consistent c log →
  k ∈ _pending_requests c →
  _request_id c' = _request_id c →
  _pending_requests c' = _pending_requests c ∖ {[k]} →
  issued o = [] → removed o = [k] →
  consistent c' (log ++ o).
Proof.
  intros (Hpos & Hiss & Hnd & Hsub & Hpend) Hk Hid Hp Hio Hro.
  assert (Hk' := proj1 (Hpend k) Hk). destruct Hk' as [Hki Hkr].
  unfold consistent.
  rewrite issued_app, removed_app, Hio, Hro, app_nil_r, Hid, Hp.
  split_and!; try done.
  - apply NoDup_app. split_and!; [done| |apply NoDup_singleton].
    intros x Hx Hx'. apply list_elem_of_singleton in Hx'. by subst.
  - intros x Hx. apply elem_of_app in Hx as [Hx|Hx]; [by apply Hsub|].
    apply list_elem_of_singleton in Hx. by subst.
  - intros x. rewrite elem_of_difference, elem_of_singleton, Hpend.
    rewrite elem_of_app, list_elem_of_singleton. tauto.
Qed.

(** A step that leaves ids and pending map alone. *)
Lemma consistent_same (c c' : MCPConnection) (log : list obs) (o : list obs) :
  consistent c log →
  _request_id c' = _request_id c →
  _pending_requests c' = _pending_requests c →
  issued o = [] → removed o = [] →
  consistent c' (log ++ o).
Proof.
  intros Hc Hid Hp Hio Hro. unfold consistent in *.
  by rewrite issued_app, removed_app, Hio, Hro, !app_nil_r, Hid, Hp.
Qed.

(** Registering a request hands out the next id and puts it in the
    map. *)
Lemma consistent_register (c : MCPConnection) (log : list obs)
    (method : string) :
  consistent c log →
  consistent (register c).2 (log ++ [Issued (register c).1 method])
  ∧ (register c).1 ∈ _pending_requests (register c).2.
Proof.
  intros Hc. pose proof (issued_bound c log) as Hb.
  destruct Hc as (Hpos & Hiss & Hnd & Hsub & Hpend).
  assert (Hfresh : (_request_id c + 1)%Z ∉ issued log).
  { intros Hin. apply Hb in Hin; [lia|done]. }
  unfold consistent. simpl. rewrite issued_app, removed_app. simpl.
  rewrite app_nil_r. split_and!; try done.
  - lia.
  - rewrite Hiss. replace (Z.to_nat (_request_id c + 1))
      with (S (Z.to_nat (_request_id c))) by lia.
    rewrite seq_S, fmap_app. simpl. do 2 f_equal. lia.
  - intros k Hk. apply elem_of_app. left. by apply Hsub.
  - intros k. rewrite elem_of_union, elem_of_singleton, Hpend.
    rewrite elem_of_app, list_elem_of_singleton. split.
    + intros [->|[Hki Hkr]]; [|tauto]. split; [tauto|].
      intros Hin. by apply Hfresh, Hsub.
    + tauto.
  - apply elem_of_union. left. by apply elem_of_singleton.
Qed.

Lemma consistent_send (c : MCPConnection) (log : list obs) (method : string)
    (write_error : option string) :
  consistent c log →
  consistent (send_request method write_error c).1
             (log ++ (send_request method write_error c).2).
Proof.
  intros Hc. unfold send_request. destruct (process c); cbn [negb].
  2:{ by apply (consistent_same c). }
  destruct (consistent_register c log method Hc) as [Hr _].
  destruct (register c) as [request_id c1]. simpl in *.
  destruct write_error as [msg|]; simpl.
  - change [Issued request_id method; Failed request_id msg]
      with ([Issued request_id method] ++ [Failed request_id msg]).
    rewrite app_assoc. by apply (consistent_same c1).
  - rewrite <- (app_nil_r [Issued request_id method]), app_assoc.
    by apply (consistent_same c1).
Qed.

Lemma consistent_sse_send (c : MCPConnection) (log : list obs)
    (method : string) (reply : post_outcome) :
  consistent c log →
  consistent (sse_send_request method reply c).1
             (log ++ (sse_send_request method reply c).2).
Proof.
  intros Hc. unfold sse_send_request. destruct (process c); cbn [negb].
  2:{ by apply (consistent_same c). }
  destruct (consistent_register c log method Hc) as [Hr Hin].
  destruct (register c) as [request_id c1] eqn:Hreg. simpl in Hr, Hin.
  assert (Hextra : ∀ c2 o,
    _request_id c2 = _request_id c1 →
    (_pending_requests c2 = _pending_requests c1
     ∧ issued o = [] ∧ removed o = [])
    ∨ (_pending_requests c2 = _pending_requests c1 ∖ {[request_id]}
       ∧ issued o = [] ∧ removed o = [request_id]) →
    consistent c2 (log ++ Issued request_id method :: o)).
  { intros c2 o Hid [(Hp & Hi & Hro)|(Hp & Hi & Hro)];
      change (Issued request_id method :: o)
        with ([Issued request_id method] ++ o);
      rewrite app_assoc.
    - by apply (consistent_same c1).
    - by apply (consistent_remove c1 _ _ request_id). }
  destruct reply as [response|msg]; [|simpl; apply Hextra; [done|by left]].
  destruct (negb _); [simpl; apply Hextra; [done|by left]|].
  destruct (if String.prefix _ _ then _ else _) as [id_json|].
  - destruct (Json.get "error" _) as [[]|];
      (simpl; apply Hextra; [done|by right]).
  - simpl. apply Hextra; [done|by left].
Qed.

Lemma consistent_handle (c : MCPConnection) (log : list obs)
    (message : Json.value) :
  consistent c log →
  consistent (_handle_message message c).1
             (log ++ (_handle_message message c).2).
Proof.
  intros Hc. unfold _handle_message.
  destruct message;
    try (by repeat case_match; apply (consistent_same c)).
  destruct (Json.get "id" _) as [request_id|];
    [|by apply (consistent_same c)].
  destruct (key_of request_id) as [k| |]; try (by apply (consistent_same c)).
  case_bool_decide as Hk; [|by apply (consistent_same c)].
  destruct (Json.get "error" _) as [[]|];
    by apply (consistent_remove c _ log k).
Qed.

Lemma consistent_step (c : MCPConnection) (log : list obs) (ev : event) :
  consistent c log → consistent (step c ev).1 (log ++ (step c ev).2).
Proof.
  intros Hc. destruct ev as [method|method reply|message|k|method msg]; simpl.
  - destruct (kind c); [by apply consistent_send|].
    by apply (consistent_same c).
  - destruct (kind c); [by apply (consistent_same c)|].
    by apply consistent_sse_send.
  - destruct (reading c); [by apply consistent_handle|].
    by apply (consistent_same c).
  - destruct (awaiting c !! k) as [method|]; [|by apply (consistent_same c)].
    simpl. case_bool_decide as Hk.
    + by apply (consistent_remove c _ log k).
    + apply (consistent_same c); try done. simpl.
      apply difference_disjoint_L. by apply disjoint_singleton_r.
  - destruct (kind c); [by apply consistent_send|].
    by apply (consistent_same c).
Qed.

Lemma consistent_run (evs : list event) :
  ∀ c log, consistent c log →
           consistent (run c evs).1 (log ++ (run c evs).2).
Proof.
  induction evs as [|ev evs IH]; intros c log Hc; simpl.
  - by rewrite app_nil_r.
  - pose proof (consistent_step c log ev Hc) as Hs.
    destruct (step c ev) as [c1 o1]. simpl in Hs.
    pose proof (IH c1 (log ++ o1) Hs) as Hr.
    destruct (run c1 evs) as [c2 o2]. simpl in *.
    by rewrite app_assoc.
Qed.

End McpFacts.

Lemma connected_consistent k name cfg :
  Mcp.consistent (Mcp.connected k name cfg) [].
Proof.
  unfold Mcp.consistent. simpl. split_and!; try done.
  - constructor.
  - intros x. split; [intros Hx; by apply elem_of_empty in Hx|].
    intros [Hx _]. by apply elem_of_nil in Hx.
Qed.

(** On a connection of either kind, whatever requests are sent, messages
    read and timeouts elapse: the ids handed out are 1, 2, 3, ... in this
    order; no id is taken out of the pending map twice; the pending map
    holds the ids handed out and not yet taken out.  A message carrying a
    pending id takes it out and settles the call, with the [result] of
    the message or with the message of its [error]; the timeout of a
    waiting call takes its id out and raises the timeout error. *)
Lemma request_ids_and_pending_map (k : Mcp.transport) (name : string)
    (cfg : Json.value) (evs : list Mcp.event) :
  let r := Mcp.run (Mcp.connected k name cfg) evs in
  Mcp.issued r.2 = Z.of_nat <$> seq 1 (length (Mcp.issued r.2))
  ∧ NoDup (Mcp.removed r.2)
  ∧ (∀ id, id ∈ Mcp._pending_requests r.1
           ↔ id ∈ Mcp.issued r.2 ∧ id ∉ Mcp.removed r.2)
  ∧ (∀ c fields id_json id,
       Json.get "id" (Json.JObj fields) = Some id_json →
       Mcp.key_of id_json = Mcp.Key id →
       id ∈ Mcp._pending_requests c →
       let s := Mcp._handle_message (Json.JObj fields) c in
       (id ∉ Mcp._pending_requests (s.1))
       ∧ Mcp.removed s.2 = [id]
       ∧ match Json.get "error" (Json.JObj fields) with
         | None =>
             s.2 = [Mcp.Resolved id
                      (default Json.JNull
                         (Json.get "result" (Json.JObj fields)))]
         | Some (Json.JObj e) =>
             s.2 = [Mcp.Rejected id
                      (default (Json.JStr "Unknown error")
                         (Json.get "message" (Json.JObj e)))]
         | Some _ => s.2 = [Mcp.Dropped id]
         end)
  ∧ (∀ c id method,
       Mcp.awaiting c !! id = Some method →
       let s := Mcp.step c (Mcp.Timeout id) in
       (id ∉ Mcp._pending_requests (s.1))
       ∧ s.2 = [Mcp.TimedOut id method
                  (bool_decide (id ∈ Mcp._pending_requests c))]).
Proof.
  intros r.
  pose proof (consistent_run evs _ [] (connected_consistent k name cfg))
    as (Hpos & Hiss & Hnd & _ & Hpend).
  fold r in Hpos, Hiss, Hnd, Hpend. simpl in Hiss, Hnd, Hpend.
  split_and!; try done.
  - rewrite Hiss at 1. by rewrite Hiss, length_fmap, length_seq.
  - intros c fields id_json id Hid Hkey Hin s. subst s.
    unfold Mcp._handle_message. rewrite Hid, Hkey.
    rewrite bool_decide_eq_true_2 by done.
    assert (Hgone : id ∉ Mcp._pending_requests c ∖ {[id]}).
    { rewrite elem_of_difference, elem_of_singleton. tauto. }
    destruct (Json.get "error" _) as [[]|]; by simpl.
  - intros c id method Haw s. subst s. simpl. rewrite Haw. simpl.
    split; [|done]. rewrite elem_of_difference, elem_of_singleton. tauto.
Qed.

(** On a stdio connection whose writes go through, every id in the
    pending map belongs to a call that still waits for its answer or its
    timeout. *)
Lemma stdio_pending_are_waiting (evs : list Mcp.event) :
  Forall (λ ev, ¬ Mcp.write_fails ev) evs →
  ∀ c,
    Mcp.kind c = Mcp.Stdio →
    (∀ k, k ∈ Mcp._pending_requests c → is_Some (Mcp.awaiting c !! k)) →
    Mcp.kind (Mcp.run c evs).1 = Mcp.Stdio
    ∧ ∀ k, k ∈ Mcp._pending_requests (Mcp.run c evs).1
           → is_Some (Mcp.awaiting (Mcp.run c evs).1 !! k).
Proof.
  induction 1 as [|ev evs Hev _ IH]; intros c Hkind Hwait; [done|].
  simpl.
  assert (Hstep : Mcp.kind (Mcp.step c ev).1 = Mcp.Stdio
                  ∧ ∀ k, k ∈ Mcp._pending_requests (Mcp.step c ev).1
                         → is_Some (Mcp.awaiting (Mcp.step c ev).1 !! k)).
  { assert (Hpop : ∀ k k', k' ∈ Mcp._pending_requests c ∖ {[k]} →
                           is_Some (delete k (Mcp.awaiting c) !! k')).
    { intros k k' Hk'. apply elem_of_difference in Hk' as [Hin Hne].
      rewrite elem_of_singleton in Hne. rewrite lookup_delete_ne by done.
      by apply Hwait. }
    assert (Hpop' : ∀ k k', k' ∈ Mcp._pending_requests c ∖ {[k]} →
                            is_Some (Mcp.awaiting c !! k')).
    { intros k k' Hk'. apply elem_of_difference in Hk' as [Hin _].
      by apply Hwait. }
    destruct ev as [method|method reply|message|k|method msg]; simpl;
      rewrite ?Hkind.
    - unfold Mcp.send_request. destruct (Mcp.process c); simpl; [|done].
      split; [done|]. intros k Hk.
      apply elem_of_union in Hk as [Hk|Hk].
      + apply elem_of_singleton in Hk. subst. by rewrite lookup_insert_eq.
      + rewrite lookup_insert. case_decide; [done|]. by apply Hwait.
    - done.
    - destruct (Mcp.reading c); [|done]. unfold Mcp._handle_message.
      rewrite ?Hkind. repeat (case_match; simpl); eauto.
    - destruct (Mcp.awaiting c !! k); simpl; eauto.
    - by destruct Hev. }
  destruct Hstep as [Hk1 Hw1].
  destruct (Mcp.step c ev) as [c1 o1]. simpl in Hk1, Hw1.
  specialize (IH c1 Hk1 Hw1). by destruct (Mcp.run c1 evs) as [c2 o2].
Qed.

(** On a stdio connection, whatever happens, an id in the pending map
    belongs to a call that still waits, or to a request whose write
    raised. *)
Lemma stdio_pending_waiting_or_unsent (evs : list Mcp.event) :
  ∀ c log,
    Mcp.kind c = Mcp.Stdio →
    (∀ k, k ∈ Mcp._pending_requests c →
          is_Some (Mcp.awaiting c !! k) ∨ ∃ msg, Mcp.Failed k msg ∈ log) →
    Mcp.kind (Mcp.run c evs).1 = Mcp.Stdio
    ∧ ∀ k, k ∈ Mcp._pending_requests (Mcp.run c evs).1 →
           is_Some (Mcp.awaiting (Mcp.run c evs).1 !! k)
           ∨ ∃ msg, Mcp.Failed k msg ∈ log ++ (Mcp.run c evs).2.
Proof.
  induction evs as [|ev evs IH]; intros c log Hkind Hwait.
  { simpl. by rewrite app_nil_r. }
  simpl.
  assert (Hstep : Mcp.kind (Mcp.step c ev).1 = Mcp.Stdio
                  ∧ ∀ k, k ∈ Mcp._pending_requests (Mcp.step c ev).1 →
                         is_Some (Mcp.awaiting (Mcp.step c ev).1 !! k)
                         ∨ ∃ msg, Mcp.Failed k msg ∈ log ++ (Mcp.step c ev).2).
  { assert (Hlater : ∀ k o,
              (is_Some (Mcp.awaiting c !! k) ∨ ∃ msg, Mcp.Failed k msg ∈ log) →
              is_Some (Mcp.awaiting c !! k)
              ∨ ∃ msg, Mcp.Failed k msg ∈ log ++ o).
    { intros k o [?|[msg Hm]]; [by left|]. right. exists msg.
      apply elem_of_app. by left. }
    assert (Hpop : ∀ k k' o, k' ∈ Mcp._pending_requests c ∖ {[k]} →
                             is_Some (delete k (Mcp.awaiting c) !! k')
                             ∨ ∃ msg, Mcp.Failed k' msg ∈ log ++ o).
    { intros k k' o Hk'. apply elem_of_difference in Hk' as [Hin Hne].
      rewrite elem_of_singleton in Hne. rewrite lookup_delete_ne by done.
      by apply Hlater, Hwait. }
    assert (Hpop' : ∀ k k' o, k' ∈ Mcp._pending_requests c ∖ {[k]} →
                              is_Some (Mcp.awaiting c !! k')
                              ∨ ∃ msg, Mcp.Failed k' msg ∈ log ++ o).
    { intros k k' o Hk'. apply elem_of_difference in Hk' as [Hin _].
      by apply Hlater, Hwait. }
    assert (Hsame : ∀ k o, k ∈ Mcp._pending_requests c →
                           is_Some (Mcp.awaiting c !! k)
                           ∨ ∃ msg, Mcp.Failed k msg ∈ log ++ o).
    { intros k o Hk. by apply Hlater, Hwait. }
    destruct ev as [method|method reply|message|k|method msg]; simpl;
      rewrite ?Hkind.
    - unfold Mcp.send_request. destruct (Mcp.process c); simpl;
        [|by split; [|intros; apply Hsame]].
      split; [done|]. intros k Hk.
      apply elem_of_union in Hk as [Hk|Hk].
      + apply elem_of_singleton in Hk. subst. left.
        by rewrite lookup_insert_eq.
      + rewrite lookup_insert. case_decide; [by left|]. by apply Hsame.
    - split; [done|]. intros; by apply Hsame.
    - destruct (Mcp.reading c); [|by split; [|intros; apply Hsame]].
      unfold Mcp._handle_message.
      rewrite ?Hkind. repeat (case_match; simpl); eauto.
    - destruct (Mcp.awaiting c !! k); simpl; eauto.
    - unfold Mcp.send_request. destruct (Mcp.process c); simpl;
        [|by split; [|intros; apply Hsame]].
      split; [done|]. intros k Hk.
      apply elem_of_union in Hk as [Hk|Hk].
      + apply elem_of_singleton in Hk. subst. right. exists msg.
        apply elem_of_app. right. apply elem_of_cons. right.
        apply elem_of_cons. by left.
      + by apply Hsame. }
  destruct Hstep as [Hk1 Hw1].
  destruct (Mcp.step c ev) as [c1 o1]. simpl in Hk1, Hw1.
  specialize (IH c1 (log ++ o1) Hk1 Hw1).
  destruct (Mcp.run c1 evs) as [c2 o2]. simpl in *.
  by rewrite app_assoc.
Qed.

Lemma timeouts_idle (ks : list Z) (c : Mcp.MCPConnection) :
  Mcp.awaiting c = ∅ → Mcp.run c (Mcp.Timeout <$> ks) = (c, []).
Proof.
  intros Hidle. induction ks as [|k ks IH]; [done|].
  rewrite fmap_cons. cbn [Mcp.run Mcp.step].
  by rewrite Hidle, lookup_empty, IH.
Qed.

(** C6, on an SSE connection whose server answers the POST of the first
    request with status 500: the request got the id 1 and was put in the
    pending map; the call ends with the HTTP error and the id stays in
    the map, with no call waiting on it, so that no timeout takes it out
    afterwards, however many elapse. *)
Theorem sse_http_error_keeps_request_pending (ks : list Z) :
  let c0 := Mcp.connected Mcp.SSE "remote"
              (Json.JObj [("server_type", Json.JStr "sse");
                          ("endpoint", Json.JStr "https://mcp.example")]) in
  let r := Mcp.run c0
             [Mcp.Post "tools/list"
                (Mcp.Responded (Mcp.mkResponse 500 "text/plain" Json.JNull))] in
  let later := Mcp.run r.1 (Mcp.Timeout <$> ks) in
  r.2 = [Mcp.Issued 1 "tools/list"; Mcp.Failed 1 "HTTP error: 500"]
  ∧ Mcp.awaiting r.1 = ∅
  ∧ 1%Z ∈ Mcp._pending_requests later.1
  ∧ Mcp.removed (r.2 ++ later.2) = [].
Proof.
  intros c0 r later. subst later. rewrite timeouts_idle by done.
  by split_and!.
Qed.

(** ** The connection manager *)

(** C4 as stated fails: the server process cannot be started, the new
    connection ends in the error state and the registry has no entry for
    it. *)
Lemma connect_failure_not_retained :
  let r := Mcp.connect
             (Scenario.mcp_env None
                (Some "[Errno 2] No such file or directory: 'echo-mcp-server'")
                [])
             "echo"
             (Json.JObj [("server_type", Json.JStr "stdio");
                         ("command", Json.JStr "echo-mcp-server")])
             ∅ in
  ∃ connection,
    r.1 = ToolBase.Returned connection
    ∧ Mcp.state connection = Mcp.ERROR
    ∧ r.2 !! "echo" = None
    ∧ r.2 !! "echo" ≠ Some connection.
Proof. eexists. by vm_compute. Qed.

Section ConnectFacts.
Import Mcp.

Lemma disconnect_connection_state hangup c :
  match (disconnect_connection hangup c).1 with
  | Some msg =>
      hangup = Some msg ∧ process c = true
      ∧ state (disconnect_connection hangup c).2 = state c
  | None => state (disconnect_connection hangup c).2 = DISCONNECTED
  end.
Proof.
  unfold disconnect_connection.
  destruct (process c); [|done]. by destruct hangup.
Qed.

Lemma handshake_request_state e c :
  state (handshake_request e c).1 = state c
  ∧ process (handshake_request e c).1 = process c.
Proof. unfold handshake_request. by destruct e. Qed.

(** A request of the handshake takes the next id; the id is in the
    pending map afterwards only when the call left it there. *)
Lemma handshake_request_ids e c :
  _request_id (handshake_request e c).1 = (_request_id c + 1)%Z
  ∧ ∀ k, k ∈ _pending_requests (handshake_request e c).1 →
         k ∈ _pending_requests c
         ∨ k = (_request_id c + 1)%Z ∧ ∃ msg, e = LeftPending msg.
Proof.
  unfold handshake_request. destruct e as [o|msg]; cbn; (split; [done|]).
  - intros k Hk. left. apply elem_of_difference in Hk as [Hk Hne].
    apply elem_of_union in Hk as [Hk|Hk]; [done|done].
  - intros k Hk. apply elem_of_union in Hk as [Hk|Hk]; [right|by left].
    apply elem_of_singleton in Hk. split; [done|by exists msg].
Qed.

Lemma call_at_left env n method msg :
  call_at env n method = LeftPending msg →
  calls env !! n = Some (LeftPending msg).
Proof.
  unfold call_at. destruct (calls env !! n); cbn; [by intros ->|done].
Qed.

Lemma discover_state env c :
  state (discover env c) = state c ∧ process (discover env c) = process c.
Proof.
  unfold discover. cbv zeta.
  destruct (handshake_request_state (call_at env 4 "prompts/list")
              (handshake_request (call_at env 3 "resources/list")
                 (handshake_request (call_at env 2 "tools/list") c).1).1)
    as [-> ->].
  destruct (handshake_request_state (call_at env 3 "resources/list")
              (handshake_request (call_at env 2 "tools/list") c).1)
    as [-> ->].
  apply handshake_request_state.
Qed.

Lemma discover_ids env c base :
  _request_id c = (base + 2)%Z →
  _request_id (discover env c) = (base + 5)%Z
  ∧ ∀ k, k ∈ _pending_requests (discover env c) →
         k ∈ _pending_requests c ∨ left_pending env base k.
Proof.
  intros Hbase. unfold discover. cbv zeta.
  set (c1 := (handshake_request (call_at env 2 "tools/list") c).1).
  set (c2 := (handshake_request (call_at env 3 "resources/list") c1).1).
  destruct (handshake_request_ids (call_at env 2 "tools/list") c)
    as [Hn1 Hp1].
  destruct (handshake_request_ids (call_at env 3 "resources/list") c1)
    as [Hn2 Hp2].
  destruct (handshake_request_ids (call_at env 4 "prompts/list") c2)
    as [Hn3 Hp3].
  fold c1 in Hn1, Hp1. fold c2 in Hn2, Hp2.
  split; [lia|].
  intros k Hk.
  destruct (Hp3 k Hk) as [Hk2|[-> [msg Hm]]].
  2: { right. exists 4%nat, msg. split; [lia|by eapply call_at_left]. }
  destruct (Hp2 k Hk2) as [Hk1|[-> [msg Hm]]].
  2: { right. exists 3%nat, msg. split; [lia|by eapply call_at_left]. }
  destruct (Hp1 k Hk1) as [Hk0|[-> [msg Hm]]]; [by left|].
  right. exists 2%nat, msg. split; [lia|by eapply call_at_left].
Qed.

(** What [connect()] leaves.  It returns [False] only in the state
    [ERROR]; it returns [True] in the state [CONNECTED], or in the
    state [ERROR] when the read loop ended with an exception while
    discovery was under way.  A successful attempt has sent five
    requests, a failed handshake one or two, an attempt that failed
    before none; the ids in the pending map afterwards are those that
    were there and those of requests whose call left them. *)
Lemma connect_connection_facts env c :
  let r := connect_connection env c in
  (r.1 = false → state r.2 = ERROR)
  ∧ (r.1 = true →
     check_config c = None
     ∧ transport_error env = None
     ∧ process r.2 = true
     ∧ match late_loop_error env with
       | None => state r.2 = CONNECTED
       | Some msg => state r.2 = ERROR ∧ error_message r.2 = Some msg
       end
     ∧ _request_id r.2 = (_request_id c + 5)%Z)
  ∧ (r.1 = false →
     if bool_decide (check_config c = None ∧ transport_error env = None)
     then (_request_id c + 1 ≤ _request_id r.2 ≤ _request_id c + 2)%Z
     else _request_id r.2 = _request_id c
          ∧ _pending_requests r.2 = _pending_requests c
          ∧ process r.2 = process c)
  ∧ (∀ k, k ∈ _pending_requests r.2 →
          k ∈ _pending_requests c ∨ left_pending env (_request_id c) k).
Proof.
  unfold connect_connection. cbv zeta.
  destruct (check_config c) as [problem|].
  { rewrite bool_decide_eq_false_2 by (by intros [? _]).
    split_and!; try done. intros k Hk. by left. }
  destruct (transport_error env) as [problem|].
  { rewrite bool_decide_eq_false_2 by (by intros [_ ?]).
    split_and!; try done. intros k Hk. by left. }
  rewrite bool_decide_eq_true_2 by done.
  set (up := mkConn (server_name c) (kind c) (config c) CONNECTING
               (error_message c) (_request_id c) (_pending_requests c)
               true true (awaiting c)).
  destruct (handshake_request_state (call_at env 0 "initialize") up)
    as [_ Hp1].
  destruct (handshake_request_ids (call_at env 0 "initialize") up)
    as [Hn1 Hk1].
  destruct (handshake_request (call_at env 0 "initialize") up)
    as [c1 first] eqn:H1.
  cbn [fst] in Hp1, Hn1, Hk1.
  change (process up) with true in Hp1.
  change (_request_id up) with (_request_id c) in Hn1, Hk1.
  change (_pending_requests up) with (_pending_requests c) in Hk1.
  assert (Hleft1 : ∀ k, k ∈ _pending_requests c1 →
            k ∈ _pending_requests c ∨ left_pending env (_request_id c) k).
  { intros k Hk. destruct (Hk1 k Hk) as [?|[-> [msg Hm]]]; [by left|].
    right. exists 0%nat, msg. split; [lia|by eapply call_at_left]. }
  destruct (if sends_initialized env first then _ else _)
    as [c2 second] eqn:H2.
  assert (Hc2 : process c2 = true
                ∧ (_request_id c + 1 ≤ _request_id c2 ≤ _request_id c + 2)%Z
                ∧ (sends_initialized env first = true →
                   _request_id c2 = (_request_id c + 2)%Z)
                ∧ ∀ k, k ∈ _pending_requests c2 →
                    k ∈ _pending_requests c
                    ∨ left_pending env (_request_id c) k).
  { destruct (sends_initialized env first).
    - destruct (handshake_request_state
                  (call_at env 1 "notifications/initialized") c1) as [_ Hp].
      destruct (handshake_request_ids
                  (call_at env 1 "notifications/initialized") c1) as [Hn Hk].
      rewrite H2 in Hp, Hn, Hk. cbn [fst] in Hp, Hn, Hk.
      split_and!; [congruence|lia|lia|intros _; lia|].
      intros k Hk2. destruct (Hk k Hk2) as [?|[-> [msg Hm]]]; [by auto|].
      right. exists 1%nat, msg. split; [lia|by eapply call_at_left].
    - simplify_eq. split_and!; [done|lia|lia|done|done]. }
  destruct Hc2 as (Hp2 & Hn2 & Hsent & Hk2).
  set (c3 := match early_loop_error env with
             | Some msg => read_loop_fails msg c2
             | None => c2
             end).
  assert (Hc3 : process c3 = true ∧ _request_id c3 = _request_id c2
                ∧ _pending_requests c3 = _pending_requests c2).
  { unfold c3. by destruct (early_loop_error env). }
  destruct Hc3 as (Hp3 & Hn3 & Hk3).
  destruct (McpManager.initialize _ _ first second) as [[|] stored] eqn:Hinit;
    cbn [fst snd].
  - assert (Hs : sends_initialized env first = true).
    { revert Hinit. unfold McpManager.initialize, sends_initialized.
      destruct first as [result|msg]; [|done].
      destruct (Json.truthy result) eqn:Htruthy; [|done].
      destruct result; try done. rewrite ?Htruthy. cbn [andb].
      destruct (valid_server_info env _); [|done].
      by destruct (valid_capabilities env _). }
    destruct (discover_state env (with_state CONNECTED c3)) as [Hds Hdp].
    destruct (discover_ids env (with_state CONNECTED c3) (_request_id c))
      as [Hdn Hdk].
    { cbn [with_state _request_id]. rewrite Hn3. by apply Hsent. }
    split_and!; [done| |done|].
    + intros _. split_and!; [done|done| | |].
      * destruct (late_loop_error env); cbn [process read_loop_fails];
          by rewrite Hdp.
      * destruct (late_loop_error env); cbn [state error_message read_loop_fails];
          [done|by rewrite Hds].
      * by destruct (late_loop_error env).
    + intros k Hk.
      assert (Hk' : k ∈ _pending_requests (discover env (with_state CONNECTED c3))).
      { by destruct (late_loop_error env). }
      destruct (Hdk k Hk') as [Hin|?]; [|by right].
      cbn [with_state _pending_requests] in Hin. rewrite Hk3 in Hin. auto.
  - split_and!; [done|done| |].
    + intros _. destruct stored; cbn [with_state with_error _request_id];
        rewrite Hn3; lia.
    + intros k Hk. apply Hk2. rewrite <- Hk3.
      by destruct stored.
Qed.

End ConnectFacts.

(** C4, amended.  [connect(name, config)] first disconnects the
    connection registered under [name], if there is one; when that
    raises, the exception leaves the call, nothing is connected and the
    old entry stays registered in the state it had.  Otherwise, with a
    known server type, the new connection is returned, in the state
    [connected] or [error]; it is stored in the registry under [name]
    exactly when its [connect()] returned [True], and when it returned
    [False] the state is [error] and the registry gets no entry for it.
    With an unknown server type, or a configuration that is no
    dictionary, the call raises and stores nothing.  Other names are
    never touched. *)
Theorem connect_stores_on_success (env : Mcp.ConnectEnv) (name : string)
    (cfg : Json.value) (connections : gmap string Mcp.MCPConnection) :
  let r := Mcp.connect env name cfg connections in
  let stopped old := Mcp.disconnect_connection (Mcp.hangup env) old in
  (∀ other, other ≠ name → r.2 !! other = connections !! other)
  ∧ (∀ old msg,
       connections !! name = Some old → (stopped old).1 = Some msg →
       r.1 = ToolBase.Raised msg
       ∧ r.2 !! name = Some (stopped old).2
       ∧ Mcp.state (stopped old).2 = Mcp.state old)
  ∧ ((∀ old, connections !! name = Some old → (stopped old).1 = None) →
     match Mcp.server_kind cfg with
     | ToolBase.Returned k =>
         let attempt :=
           Mcp.connect_connection env (Mcp.new_connection k name cfg) in
         r.1 = ToolBase.Returned attempt.2
         ∧ (Mcp.state attempt.2 = Mcp.CONNECTED
            ∨ Mcp.state attempt.2 = Mcp.ERROR)
         ∧ (attempt.1 = false → Mcp.state attempt.2 = Mcp.ERROR)
         ∧ r.2 !! name
           = (if attempt.1 then Some attempt.2
              else (λ old, (stopped old).2) <$> connections !! name)
         ∧ (r.2 !! name = Some attempt.2 ↔ attempt.1 = true)
     | ToolBase.Raised msg =>
         r.1 = ToolBase.Raised msg
         ∧ r.2 !! name = (λ old, (stopped old).2) <$> connections !! name
     end).
Proof.
  intros r stopped. subst r stopped. unfold Mcp.connect. cbv beta.
  destruct (connections !! name) as [old|] eqn:Hold.
  - pose proof (disconnect_connection_state (Mcp.hangup env) old) as Hstate.
    destruct (Mcp.disconnect_connection (Mcp.hangup env) old)
      as [raised old'] eqn:Hstop. cbn [fst snd] in *.
    assert (Hother : ∀ other, other ≠ name →
              (<[name := old']> connections) !! other = connections !! other).
    { intros other Hne. by rewrite lookup_insert_ne. }
    destruct raised as [msg|].
    + split_and!.
      * done.
      * intros old0 msg0 [= <-] Hm. rewrite Hstop in Hm |- *.
        cbn [fst snd] in *. simplify_eq.
        split_and!; [done|by rewrite lookup_insert_eq|apply Hstate].
      * intros Hno. specialize (Hno old eq_refl). by rewrite Hstop in Hno.
    + split_and!.
      * destruct (Mcp.server_kind cfg) as [k|problem]; [|done].
        destruct (Mcp.connect_connection _ _) as [[|] connection];
          cbn [snd]; [|done].
        intros other Hne. rewrite lookup_insert_ne by done. by apply Hother.
      * intros old0 msg0 [= <-] Hm. by rewrite Hstop in Hm.
      * intros _. destruct (Mcp.server_kind cfg) as [k|problem].
        -- cbv zeta.
           pose proof (connect_connection_facts env
                         (Mcp.new_connection k name cfg)) as (Hf & Ht & _).
           destruct (Mcp.connect_connection _ _) as [[|] connection];
             cbn [fst snd] in *.
           ++ destruct (Ht eq_refl) as (_ & _ & _ & Hs & _).
              rewrite lookup_insert_eq. split_and!; try done.
              destruct (Mcp.late_loop_error env); [right; apply Hs|by left].
           ++ rewrite lookup_insert_eq.
              cbn [fmap option_fmap option_map]. rewrite Hstop. cbn [snd].
              split_and!; [done|right; by apply Hf|done|done|].
              split; [|done]. intros [= ->].
              specialize (Hf eq_refl). congruence.
        -- cbn [fst snd]. split; [done|].
           rewrite lookup_insert_eq.
           cbn [fmap option_fmap option_map]. by rewrite Hstop.
  - cbn [fst snd]. split_and!.
    + destruct (Mcp.server_kind cfg) as [k|problem]; [|done].
      destruct (Mcp.connect_connection _ _) as [[|] connection];
        cbn [snd]; [|done].
      intros other Hne. by rewrite lookup_insert_ne.
    + done.
    + intros _. destruct (Mcp.server_kind cfg) as [k|problem].
      * cbv zeta.
        pose proof (connect_connection_facts env
                      (Mcp.new_connection k name cfg)) as (Hf & Ht & _).
        destruct (Mcp.connect_connection _ _) as [[|] connection];
          cbn [fst snd] in *.
        -- destruct (Ht eq_refl) as (_ & _ & _ & Hs & _).
           rewrite lookup_insert_eq. split_and!; try done.
           destruct (Mcp.late_loop_error env); [right; apply Hs|by left].
        -- rewrite Hold. split_and!; [done|right; by apply Hf|done|done|].
           by split.
      * cbn [fst snd]. split; [done|]. by rewrite Hold.
Qed.

(** A server type the manager does not know: the call raises with the
    type in its text, after the connection registered before has been
    disconnected, and stores nothing new. *)
Example connect_unknown_server_type :
  let old := Mcp.connected Mcp.Stdio "echo"
               (Json.JObj [("command", Json.JStr "echo-mcp-server")]) in
  let quiet := Scenario.mcp_env None None [] in
  let r := Mcp.connect quiet "echo"
             (Json.JObj [("server_type", Json.JStr "grpc")])
             {["echo" := old]} in
  r.1 = ToolBase.Raised "Unknown server type: grpc"
  ∧ Mcp.state <$> r.2 !! "echo" = Some Mcp.DISCONNECTED
  ∧ (Mcp.connect quiet "echo" (Json.JObj [("server_type", Json.JNum 5)]) ∅).1
    = ToolBase.Raised "Unknown server type: 5"
  ∧ (Mcp.connect quiet "echo" (Json.JArr []) ∅).1
    = ToolBase.Raised "'list' object has no attribute 'get'".
Proof. by vm_compute. Qed.

(** ** The properties on the session of the examples *)


Lemma resolve_path_containment_witness :
  let resolved :=
    ToolBase.target Scenario.resolve Scenario.context "notes/../a.txt" in
  let inside :=
    ToolBase.lies_under resolved
      (Scenario.resolve (ToolBase.workspace_path Scenario.context))
    ∨ ∃ a, a ∈ ToolBase.allowed_paths Scenario.context
           ∧ ToolBase.lies_under resolved (Scenario.resolve a) in
  (inside ↔ ToolBase.resolve_path Scenario.resolve Scenario.context
              "notes/../a.txt" = ToolBase.Returned resolved)
  ∧ (¬ inside ↔ ToolBase.resolve_path Scenario.resolve Scenario.context
                  "notes/../a.txt"
       = ToolBase.Raised ("Path '" +:+ Pathlib.to_str resolved
                          +:+ "' is outside allowed boundaries"))
  ∧ (∀ r, ToolBase.resolve_path Scenario.resolve Scenario.context
            "notes/../a.txt" = ToolBase.Returned r → r = resolved).
Proof.
  apply (resolve_path_containment Scenario.resolve Scenario.context
           "notes/../a.txt").
  intros p. apply lexical_resolve_idem.
Defined.

(** A path inside the workspace is returned resolved; [..] segments that
    leave it, and a sibling directory whose name merely starts like the
    workspace, are rejected; an allow-listed root is accepted. *)
Example resolve_path_examples :
  ToolBase.resolve_path Scenario.resolve Scenario.context "notes/../a.txt"
  = ToolBase.Returned (Pathlib.mkPath Pathlib.Root ["work"; "ws"; "a.txt"])
  ∧ ToolBase.resolve_path Scenario.resolve Scenario.context "../../etc/passwd"
    = ToolBase.Raised "Path '/etc/passwd' is outside allowed boundaries"
  ∧ ToolBase.resolve_path Scenario.resolve Scenario.context "/work/ws-old/a.txt"
    = ToolBase.Raised "Path '/work/ws-old/a.txt' is outside allowed boundaries"
  ∧ ToolBase.resolve_path Scenario.resolve Scenario.context
      "/work/ws/../../opt/shared/x"
    = ToolBase.Returned (Pathlib.mkPath Pathlib.Root ["opt"; "shared"; "x"]).
Proof. by vm_compute. Qed.

Lemma edit_file_three_occurrences_witness :
  let file_path := Pathlib.mkPath Pathlib.Root ["work"; "ws"; "a.txt"] in
  FileTools.execute_edit_file Scenario.resolve Scenario.write
    (Scenario.edit_arguments false) Scenario.context Scenario.disk
    = (ToolBase.Returned (ToolBase.error_result
         "Text found 3 times. Use replace_all=true or provide more context."),
       Scenario.disk)
  ∧ FileTools.execute_edit_file Scenario.resolve Scenario.write
      (Scenario.edit_arguments true) Scenario.context Scenario.disk
    = (ToolBase.Returned (ToolBase.success_result
         ("Successfully made 3 replacement(s) in " +:+ Pathlib.to_str file_path)
         (<["file_path" := Json.JStr (Pathlib.to_str file_path)]>
            {["replacements" := Json.JNum 3]})),
       <[Pathlib.to_str file_path :=
           ToolBase.File (PyStr.replace "ab" "c" "ab-ab-ab")]> Scenario.disk)
  ∧ ∃ s0 s1 s2 s3 : list ascii,
      PyStr.chars "ab-ab-ab"
        = s0 ++ PyStr.chars "ab" ++ s1 ++ PyStr.chars "ab"
          ++ s2 ++ PyStr.chars "ab" ++ s3
      ∧ PyStr.chars (PyStr.replace "ab" "c" "ab-ab-ab")
        = s0 ++ PyStr.chars "c" ++ s1 ++ PyStr.chars "c"
          ++ s2 ++ PyStr.chars "c" ++ s3.
Proof.
  apply (edit_file_three_occurrences Scenario.resolve Scenario.write
           Scenario.context Scenario.disk (Scenario.edit_arguments false)
           (Scenario.edit_arguments true) "notes/../a.txt" "ab" "c"
           "ab-ab-ab").
  - vm_compute. reflexivity.
  - vm_compute. reflexivity.
  - vm_compute. reflexivity.
  - intros a Ha.
    apply elem_of_cons in Ha as [->|Ha]; [by vm_compute|].
    apply elem_of_cons in Ha as [->|Ha]; [by vm_compute|].
    by apply elem_of_nil in Ha.
  - reflexivity.
  - reflexivity.
Defined.

Example edit_file_result :
  PyStr.replace "ab" "c" "ab-ab-ab" = "c-c-c"
  ∧ PyStr.count "ab" "ab-ab-ab" = 3.
Proof. by vm_compute. Qed.



(** The streamed [read_file] call of the examples ends with the object
    its fragments spell; fragments that do not parse give [{}]. *)
Example read_block_arguments :
  last (Anthropic.stream_complete Anthropic.flat_json_loads
          (Anthropic.content_block_start
             (Some (Anthropic.ToolUseBlock "toolu_1" "read_file"))
           :: Scenario.read_block ++ [Anthropic.content_block_stop]) None)
  = Some (Anthropic.tool_use_end
            (Llm.mkToolUse "toolu_1" "read_file"
               (Json.JObj [("path", Json.JStr "a.txt")])))
  ∧ last (Anthropic.stream_complete Anthropic.flat_json_loads
            [Anthropic.content_block_start
               (Some (Anthropic.ToolUseBlock "toolu_2" "read_file"));
             Anthropic.content_block_delta
               (Some (Anthropic.InputJsonDelta "{path"));
             Anthropic.content_block_stop] None)
    = Some (Anthropic.tool_use_end
              (Llm.mkToolUse "toolu_2" "read_file" Json.empty_object)).
Proof. by vm_compute. Qed.

(* ================================================================== *)
(** * Further properties of the same code *)
(* ================================================================== *)

(** ** Conversations *)

Section ConversationMore.
Import Llm Conv.

Lemma add_assistant_message_messages mid text tus tokens c :
  messages (add_assistant_message mid text tus tokens c)
  = messages c ++ [mkMsg mid ASSISTANT text (default [] tus) [] tokens].
Proof. unfold add_assistant_message. by repeat case_match. Qed.

Lemma index_app_l {A} `{EqDecision A} (x : A) (l rest : list A) :
  x ∈ l → ∃ i, index x (l ++ rest) = Some i ∧ i < length l.
Proof.
  induction l as [|y l IH]; intros Hin; [by apply elem_of_nil in Hin|].
  simpl. destruct (decide (y = x)) as [->|Hne].
  - exists 0. split; [done|lia].
  - destruct IH as (i & Hi & Hlt).
    { apply elem_of_cons in Hin as [->|Hin]; [done|assumption]. }
    exists (S i). rewrite Hi. split; [done|lia].
Qed.

Lemma find_rev_app_not {A} (p : A → bool) (l : list A) (x : A) :
  p x = false → List.find p (reverse (l ++ [x])) = List.find p (reverse l).
Proof. intros Hx. rewrite reverse_app. simpl. by rewrite Hx. Qed.

(** Tool results, once appended, answer whatever was pending. *)
Lemma tool_results_answer mid results c :
  results ≠ [] → get_pending_tool_uses (add_tool_results mid results c) = [].
Proof.
  intros Hne. unfold get_pending_tool_uses, get_last_assistant_message.
  simpl. rewrite find_rev_app_not by done.
  destruct (List.find is_assistant (reverse (messages c))) as [la|] eqn:Hla;
    [|done].
  case_bool_decide; [done|].
  assert (Hin : la ∈ messages c).
  { apply find_elem in Hla. by rewrite elem_of_reverse in Hla. }
  destruct (index_app_l la (messages c)
              [mkMsg mid USER "" [] results None] Hin) as (i & Hi & Hlt).
  rewrite Hi, drop_app_le by lia.
  rewrite existsb_app. simpl. unfold has_tool_results at 2. simpl.
  rewrite bool_decide_eq_false_2 by done. simpl. by rewrite orb_true_r.
Qed.

End ConversationMore.

(** X1. An assistant message appended with tool uses, under an id no
    earlier message has, makes exactly these tool uses pending; appended
    without tool uses it leaves nothing pending, whatever came before. *)
Theorem assistant_message_sets_pending (c : Conv.Conversation)
    (mid text : string) (tus : list Llm.ToolUse) (tokens : option Z) :
  tus ≠ [] →
  mid ∉ Conv.id <$> Conv.messages c →
  Conv.get_pending_tool_uses
    (Conv.add_assistant_message mid text (Some tus) tokens c) = tus
  ∧ Conv.get_pending_tool_uses
      (Conv.add_assistant_message mid text None tokens c) = [].
Proof.
  intros Hne Hfresh. split.
  - unfold Conv.get_pending_tool_uses.
    rewrite (last_assistant_split _ (Conv.messages c)
               (Conv.mkMsg mid Llm.ASSISTANT text tus [] tokens) []);
      [|by rewrite add_assistant_message_messages|done|constructor].
    simpl. rewrite bool_decide_eq_false_2 by done.
    rewrite add_assistant_message_messages. simpl.
    rewrite index_app_fresh, drop_succ_app_cons; [done|].
    intros Hin. apply Hfresh.
    by apply (list_elem_of_fmap_2 Conv.id) in Hin.
  - unfold Conv.get_pending_tool_uses.
    by rewrite (last_assistant_split _ (Conv.messages c)
                  (Conv.mkMsg mid Llm.ASSISTANT text [] [] tokens) []);
      [|by rewrite add_assistant_message_messages|done|constructor].
Qed.

Lemma assistant_message_sets_pending_witness :
  Conv.get_pending_tool_uses
    (Conv.add_assistant_message (uuid4 1) "Hello" (Some [Scenario.edit_use])
       None (Conv.add_user_message (uuid4 0) "tidy a.txt"
               Scenario.fresh_conversation))
  = [Scenario.edit_use]
  ∧ Conv.get_pending_tool_uses
      (Conv.add_assistant_message (uuid4 1) "Hello" None None
         (Conv.add_user_message (uuid4 0) "tidy a.txt"
            Scenario.fresh_conversation)) = [].
Proof.
  apply (assistant_message_sets_pending _ (uuid4 1) "Hello"
           [Scenario.edit_use] None).
  - discriminate.
  - apply (bool_decide_unpack _). vm_compute. exact I.
Defined.

Section DictFacts.
Import Llm Conv ToolBase ConvDict.

Lemma traverse_fmap {A} (to : A → Json.value) (from : Json.value → outcome A)
    (l : list A) :
  (∀ x, from (to x) = Returned x) →
  traverse from (to <$> l) = Returned l.
Proof.
  intros Hrt. induction l as [|x l IH]; [done|].
  simpl. rewrite Hrt. simpl. fold (fmap to l). by rewrite IH.
Qed.

Lemma tool_use_round_trip tu : tool_use_from_dict (tool_use_to_dict tu) = Returned tu.
Proof. by destruct tu. Qed.

Lemma tool_result_round_trip tr :
  tool_result_from_dict (tool_result_to_dict tr) = Returned tr.
Proof. by destruct tr. Qed.

Lemma role_round_trip r : role_of_value (role_value r) = Returned r.
Proof. by destruct r. Qed.

Lemma message_round_trip m : message_from_dict (message_to_dict m) = Returned m.
Proof.
  destruct m as [i r c tus trs tk].
  set (d := message_to_dict (mkMsg i r c tus trs tk)).
  assert (H1 : Json.get "id" d = Some (Json.JStr i)) by reflexivity.
  assert (H2 : Json.get "role" d = Some (Json.JStr (role_value r)))
    by reflexivity.
  assert (H3 : Json.get "content" d = Some (Json.JStr c)) by reflexivity.
  assert (H4 : Json.get "tool_uses" d
               = Some (Json.JArr (tool_use_to_dict <$> tus))) by reflexivity.
  assert (H5 : Json.get "tool_results" d
               = Some (Json.JArr (tool_result_to_dict <$> trs)))
    by reflexivity.
  assert (H6 : Json.get "tokens_used" d = Some (opt_int tk)) by reflexivity.
  unfold message_from_dict, item. rewrite H1, H2, H3, H4, H5, H6.
  cbn [default from_option Datatypes.id bind as_str as_list].
  rewrite role_round_trip. cbn [bind].
  rewrite (traverse_fmap _ _ tus tool_use_round_trip). cbn [bind].
  rewrite (traverse_fmap _ _ trs tool_result_round_trip). cbn [bind].
  by destruct tk.
Qed.

End DictFacts.

(** X2. Reading back the dictionary a conversation was written to gives
    the conversation again, with every message, tool use and tool
    result; and [load_conversation] puts it in the service under the
    session id of the call, where [get_conversation] finds it. *)
Theorem conversation_dict_round_trip (c : Conv.Conversation)
    (session_id : string) (store : gmap string Conv.Conversation) :
  ConvDict.from_dict (ConvDict.to_dict c) = ToolBase.Returned c
  ∧ (ConvDict.load_conversation session_id (ConvDict.to_dict c) store).1
    = ToolBase.Returned c
  ∧ ConvDict.get_conversation session_id
      (ConvDict.load_conversation session_id (ConvDict.to_dict c) store).2
    = Some c.
Proof.
  assert (Hrt : ConvDict.from_dict (ConvDict.to_dict c) = ToolBase.Returned c).
  { destruct c as [sid ms sp md pv ti to].
    set (d := ConvDict.to_dict (Conv.mkConv sid ms sp md pv ti to)).
    assert (H1 : Json.get "session_id" d = Some (Json.JStr sid))
      by reflexivity.
    assert (H2 : Json.get "system_prompt" d = Some (ConvDict.opt_string sp))
      by reflexivity.
    assert (H3 : Json.get "model" d = Some (Json.JStr md)) by reflexivity.
    assert (H4 : Json.get "provider" d = Some (Json.JStr pv)) by reflexivity.
    assert (H5 : Json.get "total_input_tokens" d = Some (Json.JNum ti))
      by reflexivity.
    assert (H6 : Json.get "total_output_tokens" d = Some (Json.JNum to))
      by reflexivity.
    assert (H7 : Json.get "messages" d
                 = Some (Json.JArr (ConvDict.message_to_dict <$> ms)))
      by reflexivity.
    unfold ConvDict.from_dict, ConvDict.item.
    rewrite H1, H2, H3, H4, H5, H6, H7.
    cbn [default from_option Datatypes.id ConvDict.bind ConvDict.as_str
         ConvDict.as_list ConvDict.as_int].
    rewrite (traverse_fmap _ _ ms message_round_trip).
    by destruct sp. }
  unfold ConvDict.load_conversation, ConvDict.get_conversation.
  rewrite Hrt. simpl. by rewrite lookup_insert_eq.
Qed.

(** X3. In the conversation service: a conversation just created is
    what [get_or_create_conversation] returns for its session, whatever
    settings that call brings, and the service is left as it is;
    creating again under the same session starts from an empty history;
    deleting returns [True] once and [False] the second time; other
    sessions are never touched. *)
Theorem conversation_store_lifecycle (session_id : string)
    (system_prompt system_prompt' : option string)
    (model provider model' provider' : string)
    (store : gmap string Conv.Conversation) :
  let created :=
    ConvDict.create_conversation session_id system_prompt model provider
                                 store in
  ConvDict.get_or_create_conversation session_id system_prompt' model'
    provider' created.2 = created
  ∧ Conv.messages
      (ConvDict.create_conversation session_id system_prompt' model' provider'
         created.2).1 = []
  ∧ ConvDict.delete_conversation session_id created.2
    = (true, delete session_id store)
  ∧ ConvDict.delete_conversation session_id (delete session_id store)
    = (false, delete session_id store)
  ∧ ∀ other, other ≠ session_id →
      created.2 !! other = store !! other
      ∧ (ConvDict.delete_conversation session_id created.2).2 !! other
        = store !! other.
Proof.
  simpl. unfold ConvDict.get_or_create_conversation,
    ConvDict.get_conversation, ConvDict.delete_conversation.
  split_and!.
  - by rewrite lookup_insert_eq.
  - done.
  - by rewrite lookup_insert_eq, delete_insert_eq.
  - by rewrite lookup_delete_eq.
  - intros other Hne. rewrite lookup_insert_eq. simpl.
    by rewrite lookup_insert_ne, delete_insert_eq, lookup_delete_ne.
Qed.

(** ** One pass over a provider stream *)

Section PassFacts.
Import Llm Streaming StreamSpec.

Lemma usage_get_empty key : usage_get key ∅ = 0%Z.
Proof. unfold usage_get. by rewrite lookup_empty. Qed.

(** A stream without error event is consumed to its end: the buffer
    grows by its texts, the tool uses by its ended tool uses, the token
    counters by what it reports; the messages are not touched. *)
Lemma consume_accumulates sid evs :
  Forall (λ e, se_type e ≠ Llm.ERROR) evs →
  ∀ acc tus c,
    let p := consume sid evs acc tus c in
    accumulated_text p = acc +:+ texts evs
    ∧ tool_uses p = tus ++ ended evs
    ∧ returned p = false
    ∧ Conv.total_input_tokens (pass_conversation p)
      = (Conv.total_input_tokens c + tokens "input_tokens" evs)%Z
    ∧ Conv.total_output_tokens (pass_conversation p)
      = (Conv.total_output_tokens c + tokens "output_tokens" evs)%Z
    ∧ Conv.messages (pass_conversation p) = Conv.messages c.
Proof.
  induction 1 as [|e evs He _ IH]; intros acc tus c.
  - simpl. rewrite append_nil_r, app_nil_r. split_and!; try done; lia.
  - destruct e as [ty tx tu ti tn td te us]. simpl in He.
    unfold ended in *. cbn [consume].
    destruct ty; try done;
      destruct us as [usage|]; destruct tx as [s|]; destruct tu as [u|];
      cbn [omap tokens texts];
      unfold ended_tool_use, delta_text, reported;
      cbn [se_type se_text se_tool_use se_usage];
      rewrite ?(bool_decide_eq_true_2 _ eq_refl), ?bool_decide_eq_false_2
        by done;
      cbn [andb truthy_opt default from_option Datatypes.id]; unfold truthy;
      try lazymatch goal with
      | |- context [String.eqb ?s ?e] =>
          destruct (String.eqb_spec s e) as [->|Hs]
      end;
      cbn [negb andb]; try case_bool_decide;
      cbn [accumulated_text tool_uses returned pass_conversation];
      lazymatch goal with
      | |- context [consume sid evs ?a ?t ?k] =>
          destruct (IH a t k) as (Ha & Hu & Hr & Hi & Ho & Hm)
      end;
      simpl in Hi, Ho, Hm; subst; rewrite ?usage_get_empty;
      (split_and!;
       [ by rewrite Ha, ?append_assoc
       | by rewrite Hu, <- ?app_assoc
       | done | lia | lia | done ]).
Qed.

End PassFacts.

(** ** The tool execution service *)

Section ToolServiceMore.
Import Llm ToolBase ToolService.
Variable tools : gmap string Tool.

Lemma execute_tool_answers pid skip tu s fs r s' fs' :
  execute_tool tools pid skip tu s fs = (Returned r, s', fs') →
  tool_use_id r = tu_id tu.
Proof.
  unfold execute_tool, request_permission. intros H.
  repeat case_match; simplify_eq; done.
Qed.

Lemma execute_tools_answers tus :
  ∀ seed s fs rs s' fs',
    execute_tools tools seed tus s fs = (Returned rs, s', fs') →
    map tool_use_id rs = map tu_id tus.
Proof.
  induction tus as [|tu tus IH]; intros seed s fs rs s' fs' H; simpl in H.
  - by simplify_eq.
  - destruct (execute_tool tools (uuid4 seed) false tu s fs)
      as [[[r|msg] s1] fs1] eqn:H1;
      destruct (execute_tools tools (S seed) tus s1 fs1)
        as [[[rs'|msg'] s2] fs2] eqn:H2; try done.
    simplify_eq. simpl. f_equal.
    + eapply execute_tool_answers, H1.
    + eapply IH, H2.
Qed.

Lemma execute_tools_length seed tus s fs rs s' fs' :
  execute_tools tools seed tus s fs = (Returned rs, s', fs') →
  length rs = length tus.
Proof.
  intros H. apply execute_tools_answers in H.
  by rewrite <- (length_map tool_use_id), H, length_map.
Qed.

(** What [execute_tool] does to the service: at most one request is
    added under the drawn id; the approvals are not touched. *)
Lemma execute_tool_service pid skip tu s fs :
  let s' := (execute_tool tools pid skip tu s fs).1.2 in
  _approved_tools s' = _approved_tools s
  ∧ _always_approved s' = _always_approved s
  ∧ (keyed_by_id (_pending_permissions s) →
     keyed_by_id (_pending_permissions s')).
Proof.
  unfold execute_tool, request_permission.
  repeat case_match; simpl; split_and!; try done.
  intros Hk k p. rewrite lookup_insert. case_decide.
  - intros [= <-]. by subst.
  - apply Hk.
Qed.

Lemma execute_tools_service tus :
  ∀ seed s fs,
    let s' := (execute_tools tools seed tus s fs).1.2 in
    _approved_tools s' = _approved_tools s
    ∧ _always_approved s' = _always_approved s
    ∧ (keyed_by_id (_pending_permissions s) →
       keyed_by_id (_pending_permissions s')).
Proof.
  induction tus as [|tu tus IH]; intros seed s fs; simpl; [done|].
  pose proof (execute_tool_service (uuid4 seed) false tu s fs) as H1.
  destruct (execute_tool tools (uuid4 seed) false tu s fs)
    as [[first s1] fs1]; simpl in H1.
  pose proof (IH (S seed) s1 fs1) as H2.
  destruct (execute_tools tools (S seed) tus s1 fs1)
    as [[others s2] fs2]; simpl in *;
    destruct H1 as (Ha1 & Hb1 & Hk1), H2 as (Ha2 & Hb2 & Hk2);
    (split_and!; [congruence|congruence|auto]).
Qed.

(** The handler's loop and the gathered calls give the same when the
    loop returns. *)
Lemma _execute_tools_returned tus :
  ∀ seed s fs rs s' fs',
    Streaming._execute_tools tools seed tus s fs = (Returned rs, s', fs') →
    execute_tools tools seed tus s fs = (Returned rs, s', fs').
Proof.
  induction tus as [|tu tus IH]; intros seed s fs rs s' fs' H; simpl in *;
    [done|].
  destruct (execute_tool tools (uuid4 seed) false tu s fs)
    as [[[r|msg] s1] fs1]; [|done].
  destruct (Streaming._execute_tools tools (S seed) tus s1 fs1)
    as [[[rs'|msg'] s2] fs2] eqn:H2; [|done].
  by rewrite (IH _ _ _ _ _ _ H2).
Qed.

Lemma _execute_tools_service tus :
  ∀ seed s fs,
    let s' := (Streaming._execute_tools tools seed tus s fs).1.2 in
    _approved_tools s' = _approved_tools s
    ∧ _always_approved s' = _always_approved s
    ∧ (keyed_by_id (_pending_permissions s) →
       keyed_by_id (_pending_permissions s')).
Proof.
  induction tus as [|tu tus IH]; intros seed s fs; simpl; [done|].
  pose proof (execute_tool_service (uuid4 seed) false tu s fs) as H1.
  destruct (execute_tool tools (uuid4 seed) false tu s fs)
    as [[[r|msg] s1] fs1]; simpl in H1; [|done].
  pose proof (IH (S seed) s1 fs1) as H2.
  destruct (Streaming._execute_tools tools (S seed) tus s1 fs1)
    as [[[rs'|msg] s2] fs2]; simpl in *;
    destruct H1 as (Ha1 & Hb1 & Hk1), H2 as (Ha2 & Hb2 & Hk2);
    (split_and!; [congruence|congruence|auto]).
Qed.

Lemma respond_permission_keyed pid approved always s :
  keyed_by_id (_pending_permissions s) →
  keyed_by_id (_pending_permissions (respond_permission pid approved always s).2).
Proof.
  intros Hk. unfold respond_permission.
  repeat case_match; simpl; try done;
    intros k q Hl; apply lookup_delete_Some in Hl as [_ Hl]; by apply Hk.
Qed.

Lemma respond_permission_keeps_approvals pid approved always s :
  _approved_tools s ⊆ _approved_tools (respond_permission pid approved always s).2
  ∧ _always_approved s
    ⊆ _always_approved (respond_permission pid approved always s).2.
Proof.
  unfold respond_permission. repeat case_match; simpl; split;
    try done; apply union_subseteq_r.
Qed.

Lemma needs_permission_mono tool s s' :
  _approved_tools s ⊆ _approved_tools s' →
  _always_approved s ⊆ _always_approved s' →
  _needs_permission tool s = false → _needs_permission tool s' = false.
Proof.
  unfold _needs_permission. intros Ha Hb.
  destruct (negb (requires_permission tool)); [done|].
  repeat case_bool_decide; try done.
  - exfalso. auto.
  - exfalso. auto.
Qed.

End ToolServiceMore.

(** X4. [execute_tools] answers every tool use, in order: when the
    argument validation of the tools that are asked for returns,
    [execute_tools] returns (a tool that is unknown, refused, gated or
    raising gives an error result, not an exception) one result per tool
    use, the i-th result carrying the id of the i-th tool use. *)
Theorem execute_tools_returns_in_order tools seed tus s fs :
  Forall (λ tu, ∀ tool,
            tools !! Llm.tu_name tu = Some tool →
            ∃ v, ToolBase.validate_arguments tool (Llm.tu_arguments tu)
                 = ToolBase.Returned v) tus →
  ∃ rs, (ToolService.execute_tools tools seed tus s fs).1.1
        = ToolBase.Returned rs
        ∧ map Llm.tool_use_id rs = map Llm.tu_id tus.
Proof.
  intros Hv. revert seed s fs.
  induction Hv as [|tu tus Htu _ IH]; intros seed s fs; simpl.
  - by exists [].
  - destruct (ToolService.execute_tool tools (uuid4 seed) false tu s fs)
      as [[[r|msg] s1] fs1] eqn:H1.
    + destruct (IH (S seed) s1 fs1) as (rs & Hrs & Hids).
      destruct (ToolService.execute_tools tools (S seed) tus s1 fs1)
        as [[[rs'|msg] s2] fs2]; simpl in Hrs; [|done].
      simplify_eq. exists (r :: rs). simpl. split; [done|].
      f_equal; [|done]. eapply execute_tool_answers, H1.
    + exfalso. unfold ToolService.execute_tool in H1.
      destruct (tools !! Llm.tu_name tu) as [tool|] eqn:Ht; [|done].
      destruct (Htu tool eq_refl) as (v & Hval). rewrite Hval in H1.
      unfold ToolService.request_permission in H1.
      repeat case_match; simplify_eq.
Qed.

Lemma execute_tools_returns_in_order_witness :
  ∃ rs, (ToolService.execute_tools Examples.registry 0
           [Examples.use "t1" "echo"; Examples.use "t2" "nope";
            Examples.use "t3" "boom"; Examples.use "t4" "wipe"]
           Scenario.service Scenario.disk).1.1
        = ToolBase.Returned rs
        ∧ map Llm.tool_use_id rs = ["t1"; "t2"; "t3"; "t4"].
Proof.
  apply (execute_tools_returns_in_order Examples.registry 0
           [Examples.use "t1" "echo"; Examples.use "t2" "nope";
            Examples.use "t3" "boom"; Examples.use "t4" "wipe"]).
  repeat constructor; intros tool H; vm_compute in H; simplify_eq;
    by eexists.
Defined.

(** X5. An exception of a tool's [execute] does not leave
    [execute_tool]: for a known tool with accepted arguments that is not
    held back by the permission gate, the result is the error result
    [Execution error: <message>] for the tool use, the service is as it
    was, and the file table is the one the tool left. *)
Theorem tool_exception_becomes_error_result tools pid skip tu tool v s fs e fs' :
  tools !! Llm.tu_name tu = Some tool →
  ToolBase.validate_arguments tool (Llm.tu_arguments tu) = ToolBase.Returned v →
  truthy_opt v = false →
  negb skip && ToolService._needs_permission tool s = false →
  ToolBase.execute tool (Llm.tu_arguments tu) (ToolService.get_tool_context s) fs
  = (ToolBase.Raised e, fs') →
  ToolService.execute_tool tools pid skip tu s fs
  = (ToolBase.Returned
       (Llm.mkToolResult (Llm.tu_id tu) ("Execution error: " +:+ e) true),
     s, fs').
Proof.
  intros Ht Hval Hv Hgate Hex. unfold ToolService.execute_tool.
  by rewrite Ht, Hval, Hv, Hgate, Hex.
Qed.

Lemma tool_exception_becomes_error_result_witness :
  ToolService.execute_tool Examples.registry "p1" false
    (Examples.use "t3" "boom") Scenario.service Scenario.disk
  = (ToolBase.Returned
       (Llm.mkToolResult "t3" "Execution error: disk full" true),
     Scenario.service, Scenario.disk).
Proof.
  apply (tool_exception_becomes_error_result Examples.registry "p1" false
           (Examples.use "t3" "boom") Examples.failing_tool None
           Scenario.service Scenario.disk "disk full" Scenario.disk);
    reflexivity.
Defined.

(** X6. The permission gate, from request to answer.  A known tool with
    accepted arguments that needs permission is not run: the call
    returns the error result naming the request, leaves the file table
    alone and files the request under the drawn id.  Approving that
    request (for the session or for always) lets the same tool use
    through the gate on the next call and removes the request; denying
    it leaves the gate closed. *)
Theorem approval_unlocks_tool tools pid pid' always tu tool v s fs :
  tools !! Llm.tu_name tu = Some tool →
  ToolBase.validate_arguments tool (Llm.tu_arguments tu) = ToolBase.Returned v →
  truthy_opt v = false →
  ToolService._needs_permission tool s = true →
  let request :=
    ToolService.mkPending pid (ToolService.svc_session_id s)
      (ToolBase.name tool) (Llm.tu_arguments tu) in
  let s1 :=
    ToolService.with_pending
      (<[pid := request]> (ToolService._pending_permissions s)) s in
  ToolService.execute_tool tools pid false tu s fs
  = (ToolBase.Returned
       (Llm.mkToolResult (Llm.tu_id tu)
          ("Permission required for " +:+ ToolBase.name tool
           +:+ ". Request ID: " +:+ pid) true), s1, fs)
  ∧ (let s2 := (ToolService.respond_permission pid true always s1).2 in
     ToolService._pending_permissions s2
     = delete pid (ToolService._pending_permissions s)
     ∧ ToolService.execute_tool tools pid' false tu s2 fs
       = ToolService.execute_tool tools pid' true tu s2 fs)
  ∧ ToolService._needs_permission tool
      (ToolService.respond_permission pid false always s1).2 = true.
Proof.
  intros Ht Hval Hv Hneed request s1.
  split; [|split; [cbn zeta; split|]].
  - unfold ToolService.execute_tool. by rewrite Ht, Hval, Hv, Hneed.
  - unfold ToolService.respond_permission, s1. simpl.
    rewrite lookup_insert_eq.
    destruct always; simpl; by rewrite delete_insert_eq.
  - assert (Hopen : ToolService._needs_permission tool
                      (ToolService.respond_permission pid true always s1).2
                    = false).
    { unfold ToolService.respond_permission, s1. simpl.
      rewrite lookup_insert_eq. unfold ToolService._needs_permission.
      destruct (negb (ToolBase.requires_permission tool)); [done|].
      destruct always; simpl.
      - rewrite bool_decide_eq_true_2; [done|].
        apply elem_of_union_l, elem_of_singleton. done.
      - case_bool_decide; [done|]. rewrite bool_decide_eq_true_2; [done|].
        apply elem_of_union_l, elem_of_singleton. done. }
    unfold ToolService.execute_tool. rewrite Ht, Hval, Hv, Hopen.
    by rewrite andb_false_r.
  - unfold ToolService.respond_permission, s1. simpl.
    by rewrite lookup_insert_eq.
Qed.

Lemma approval_unlocks_tool_witness :
  let tu := Examples.use "t4" "wipe" in
  let s1 :=
    ToolService.with_pending
      {["p1" := ToolService.mkPending "p1" "s1" "wipe" Json.empty_object]}
      Scenario.service in
  ToolService.execute_tool Examples.registry "p1" false tu Scenario.service
    Scenario.disk
  = (ToolBase.Returned
       (Llm.mkToolResult "t4" "Permission required for wipe. Request ID: p1"
          true), s1, Scenario.disk)
  ∧ (let s2 := (ToolService.respond_permission "p1" true false s1).2 in
     ToolService._pending_permissions s2 = delete "p1" ∅
     ∧ ToolService.execute_tool Examples.registry "p2" false tu s2 Scenario.disk
       = ToolService.execute_tool Examples.registry "p2" true tu s2
           Scenario.disk)
  ∧ ToolService._needs_permission Examples.wipe_tool
      (ToolService.respond_permission "p1" false false s1).2 = true.
Proof.
  apply (approval_unlocks_tool Examples.registry "p1" "p2" false
           (Examples.use "t4" "wipe") Examples.wipe_tool None
           Scenario.service Scenario.disk); reflexivity.
Defined.

(** X7. An approval is never taken back: a tool that passes the
    permission gate (it needs no permission, or its name is approved
    for the session or for always) still passes it after any answer to
    a permission request and after any call of [execute_tools]. *)
Theorem approval_is_never_revoked tools tool s pid approved always seed tus fs :
  ToolService._needs_permission tool s = false →
  ToolService._needs_permission tool
    (ToolService.respond_permission pid approved always s).2 = false
  ∧ ToolService._needs_permission tool
      (ToolService.execute_tools tools seed tus s fs).1.2 = false.
Proof.
  intros Hopen. split.
  - destruct (respond_permission_keeps_approvals pid approved always s).
    by eapply needs_permission_mono.
  - destruct (execute_tools_service tools tus seed s fs) as (Ha & Hb & _).
    eapply needs_permission_mono; [| |exact Hopen].
    + by rewrite Ha.
    + by rewrite Hb.
Qed.

Lemma approval_is_never_revoked_witness :
  let s := (ToolService.respond_permission "p1" true true
              (ToolService.with_pending
                 {["p1" := ToolService.mkPending "p1" "s1" "wipe"
                             Json.empty_object]} Scenario.service)).2 in
  ToolService._needs_permission Examples.wipe_tool
    (ToolService.respond_permission "p2" false false s).2 = false
  ∧ ToolService._needs_permission Examples.wipe_tool
      (ToolService.execute_tools Examples.registry 0
         [Examples.use "t4" "wipe"] s Scenario.disk).1.2 = false.
Proof.
  apply (approval_is_never_revoked Examples.registry Examples.wipe_tool).
  reflexivity.
Defined.

(** X8. The pending map stays keyed by request id: when every pending
    request is stored under its own id, this still holds after
    [execute_tools] and after [respond_permission], and then
    [get_pending_permissions] lists exactly the requests that can be
    looked up by their id. *)
Theorem pending_map_stays_keyed_by_id tools s seed tus fs pid approved always :
  ToolService.keyed_by_id (ToolService._pending_permissions s) →
  ToolService.keyed_by_id
    (ToolService._pending_permissions
       (ToolService.execute_tools tools seed tus s fs).1.2)
  ∧ ToolService.keyed_by_id
      (ToolService._pending_permissions
         (ToolService.respond_permission pid approved always s).2)
  ∧ ∀ p, p ∈ ToolService.get_pending_permissions s
         ↔ ToolService._pending_permissions s !! ToolService.id p = Some p.
Proof.
  intros Hk. split_and!.
  - by apply execute_tools_service.
  - by apply respond_permission_keyed.
  - intros p. unfold ToolService.get_pending_permissions.
    rewrite list_elem_of_fmap. split.
    + intros ([k q] & -> & Hin). apply elem_of_map_to_list in Hin.
      simpl. by rewrite (Hk _ _ Hin).
    + intros Hl. exists (ToolService.id p, p). split; [done|].
      by apply elem_of_map_to_list.
Qed.

Lemma pending_map_stays_keyed_by_id_witness :
  ToolService.keyed_by_id
    (ToolService._pending_permissions
       (ToolService.execute_tools Examples.registry 0
          [Examples.use "t4" "wipe"] Scenario.service Scenario.disk).1.2)
  ∧ ToolService.keyed_by_id
      (ToolService._pending_permissions
         (ToolService.respond_permission "p1" true false Scenario.service).2)
  ∧ ∀ p, p ∈ ToolService.get_pending_permissions Scenario.service
         ↔ ToolService._pending_permissions Scenario.service
             !! ToolService.id p = Some p.
Proof.
  apply (pending_map_stays_keyed_by_id Examples.registry Scenario.service).
  intros k p H. vm_compute in H. discriminate.
Defined.

(** ** The run of [process_prompt] *)

Section StreamingMore.
Import Llm Streaming StreamSpec.

Lemma consume_sids sid evs :
  ∀ acc tus c,
    Forall (λ e, sse_session_id e = sid) (emitted (consume sid evs acc tus c)).
Proof.
  induction evs as [|e evs IH]; intros acc tus c; simpl; [constructor|].
  repeat (case_match; simpl);
    repeat (apply Forall_cons; split);
    try apply IH; try apply Forall_nil; done.
Qed.

Lemma stream_round_sids h :
  Forall (λ e, sse_session_id e = Conv.session_id (conversation h))
         (emitted (stream_round h)).
Proof.
  unfold stream_round.
  destruct (returned (consume _ _ _ _ _)); [apply consume_sids|].
  destruct (run_failure _); [|apply consume_sids]. simpl.
  apply Forall_app. split; [apply consume_sids|].
  apply Forall_cons. split; [done|by apply Forall_nil].
Qed.

Lemma consume_messages sid evs :
  ∀ acc tus c,
    Conv.messages (pass_conversation (consume sid evs acc tus c))
    = Conv.messages c.
Proof.
  induction evs as [|e evs IH]; intros acc tus c; simpl; [done|].
  repeat (case_match; simpl); by rewrite ?IH.
Qed.

Lemma stream_round_messages h :
  Conv.messages (pass_conversation (stream_round h))
  = Conv.messages (conversation h).
Proof.
  unfold stream_round. repeat (case_match; simpl); apply consume_messages.
Qed.

(** A pass that returns early ends with the error event. *)
Lemma consume_returned sid evs :
  ∀ acc tus c,
    returned (consume sid evs acc tus c) = true →
    ∃ before e, emitted (consume sid evs acc tus c) = before ++ [e]
                ∧ type e = ERROR.
Proof.
  induction evs as [|e evs IH]; intros acc tus c; simpl; [done|].
  repeat (case_match; simpl); try apply IH;
    try (intros Hr; destruct (IH _ _ _ Hr) as (before & e' & -> & He');
         eexists (_ :: before), e'; by split).
  intros _. by eexists [], _.
Qed.

Lemma stream_round_returned h :
  returned (stream_round h) = true →
  ∃ before e, emitted (stream_round h) = before ++ [e] ∧ type e = ERROR.
Proof.
  unfold stream_round.
  destruct (returned (consume _ _ _ _ _)) eqn:Hr; [intros _; by apply consume_returned|].
  destruct (run_failure _); simpl; [|by rewrite Hr].
  intros _. by eexists _, _.
Qed.

Variable tools : gmap string ToolBase.Tool.

Lemma iteration_sids h :
  Forall (λ e, sse_session_id e = Conv.session_id (conversation h))
         (step_events (iteration tools h)).
Proof.
  pose proof (stream_round_sids h) as Hp.
  unfold iteration. repeat (case_match; simpl);
    repeat first [apply Forall_cons; split | apply Forall_app; split];
    try done.
  apply Forall_forall. intros e He. apply list_elem_of_fmap in He.
  by destruct He as (r & -> & _).
Qed.

Lemma iteration_appends h :
  Conv.messages (conversation h)
  `prefix_of` Conv.messages (conversation (step_handler (iteration tools h))).
Proof.
  pose proof (stream_round_messages h) as Hm.
  unfold iteration. repeat (case_match; simpl);
    rewrite ?add_assistant_message_messages, ?Hm;
    try done; try (by apply prefix_app_r);
    rewrite <- app_assoc; by apply prefix_app_r.
Qed.

Lemma process_loop_session n :
  ∀ last h,
    Forall (λ e, sse_session_id e = Conv.session_id (conversation h))
           (process_loop tools n last h).1.1
    ∧ Conv.session_id (conversation (process_loop tools n last h).1.2)
      = Conv.session_id (conversation h).
Proof.
  induction n as [|n IH]; intros last h; simpl.
  - destruct last; simpl; split; try done; by repeat constructor.
  - pose proof (iteration_sids h) as Hs.
    pose proof (iteration_session tools h) as Hc.
    destruct (step_next (iteration tools h)); simpl; try done.
    + specialize (IH (Some (step_text (iteration tools h)))
                     (step_handler (iteration tools h))).
      destruct (process_loop tools n _ _) as [[out h'] x]. simpl in *.
      rewrite Hc in IH. destruct IH as [IH1 IH2].
      split; [by apply Forall_app|done].
    + split; [|done]. apply Forall_app. split; [done|].
      rewrite Hc. by repeat constructor.
Qed.

Lemma process_loop_appends n :
  ∀ last h,
    Conv.messages (conversation h)
    `prefix_of` Conv.messages (conversation (process_loop tools n last h).1.2).
Proof.
  induction n as [|n IH]; intros last h; simpl.
  - by destruct last.
  - pose proof (iteration_appends h) as Hp.
    destruct (step_next (iteration tools h)); simpl; try done.
    specialize (IH (Some (step_text (iteration tools h)))
                   (step_handler (iteration tools h))).
    destruct (process_loop tools n _ _) as [[out h'] x]. simpl in *.
    by etrans.
Qed.

End StreamingMore.

Section StreamingEndings.
Import Llm Streaming StreamSpec.
Variable tools : gmap string ToolBase.Tool.

(** An iteration that leaves the generator does so after an error
    event or after the [waiting_permission] status. *)
Lemma iteration_return h :
  step_next (iteration tools h) = Return →
  ∃ before e,
    step_events (iteration tools h) = before ++ [e]
    ∧ (type e = ERROR
       ∨ ∃ n, e = waiting_permission_event (sse_session_id e) n).
Proof.
  unfold iteration.
  destruct (returned (stream_round h)) eqn:Hr; simpl.
  - intros _. destruct (stream_round_returned h Hr) as (before & e & -> & He).
    exists (status_event (Conv.session_id (conversation h)) "thinking"
            :: before), e. split; [done|by left].
  - repeat (case_match; simpl); try done. intros _.
    eexists (_ :: emitted (stream_round h) ++ [_]), _. split.
    + simpl. rewrite <- app_assoc. simpl. reflexivity.
    + right. by eexists.
Qed.

Lemma process_loop_ending n :
  ∀ last h,
    match (process_loop tools n last h).2 with
    | Finished =>
        ∃ before e,
          (process_loop tools n last h).1.1 = before ++ [e]
          ∧ Forall (λ e, type e ≠ COMPLETE) before
          ∧ (type e = COMPLETE ∨ type e = ERROR
             ∨ ∃ k, e = waiting_permission_event (sse_session_id e) k)
    | Failed _ =>
        Forall (λ e, type e ≠ COMPLETE) (process_loop tools n last h).1.1
    | OutOfFuel => False
    end.
Proof.
  induction n as [|n IH]; intros last h; simpl.
  - destruct last; simpl; [|by constructor].
    eexists [_], _. split_and!; [done|by repeat constructor|by left].
  - pose proof (iteration_events_not_complete tools h) as Hnc.
    destruct (step_next (iteration tools h)) eqn:Hnext; simpl.
    + specialize (IH (Some (step_text (iteration tools h)))
                     (step_handler (iteration tools h))).
      destruct (process_loop tools n _ _) as [[out h'] x]. simpl in *.
      destruct x; [|by apply Forall_app|done].
      destruct IH as (before & e & -> & Hb & He).
      exists (step_events (iteration tools h) ++ before), e.
      split_and!; [by rewrite app_assoc|by apply Forall_app|done].
    + eexists (step_events (iteration tools h) ++ [_]), _.
      split_and!; [by rewrite <- app_assoc| |by left].
      apply Forall_app. split; [done|by repeat constructor].
    + destruct (iteration_return h Hnext) as (before & e & Heq & He).
      exists before, e. rewrite Heq in Hnc. apply Forall_app in Hnc as [Hb _].
      split_and!; [done|done|by right].
    + done.
Qed.

Lemma pending_after_plain_assistant mid text tokens c :
  Conv.get_pending_tool_uses
    (Conv.add_assistant_message mid text None tokens c) = [].
Proof.
  unfold Conv.get_pending_tool_uses, Conv.get_last_assistant_message.
  by rewrite add_assistant_message_messages, reverse_app.
Qed.

(** After an iteration that goes on or breaks off the loop, every tool
    use of the conversation is answered. *)
Lemma iteration_answered h :
  step_next (iteration tools h) = Continue
  ∨ step_next (iteration tools h) = Break →
  Conv.get_pending_tool_uses (conversation (step_handler (iteration tools h)))
  = [].
Proof.
  unfold iteration. cbv zeta.
  destruct (returned (stream_round h));
    cbn [step_next step_handler conversation]; [by intros [|]|].
  destruct (tool_uses (stream_round h)) as [|tu tus] eqn:Htus;
    cbn [step_next step_handler conversation].
  - intros _. apply pending_after_plain_assistant.
  - destruct (_execute_tools tools _ _ _ _) as [[[rs|msg] s'] fs'] eqn:Hex;
      cbn [step_next step_handler conversation]; [|by intros [|]].
    destruct (ToolService.get_pending_permissions s');
      cbn [step_next step_handler conversation]; [|by intros [|]].
    intros _. apply tool_results_answer.
    apply _execute_tools_returned, execute_tools_length in Hex.
    by destruct rs.
Qed.

Lemma process_loop_complete n :
  ∀ last h,
    (last ≠ None → Conv.get_pending_tool_uses (conversation h) = []) →
    Exists (λ e, type e = COMPLETE) (process_loop tools n last h).1.1 →
    Conv.get_pending_tool_uses
      (conversation (process_loop tools n last h).1.2) = [].
Proof.
  induction n as [|n IH]; intros last h Hlast; simpl.
  - destruct last; simpl; [intros _; by apply Hlast|].
    intros H. by apply Exists_nil in H.
  - pose proof (iteration_events_not_complete tools h) as Hnc.
    pose proof (iteration_answered h) as Hans.
    assert (Hno : ¬ Exists (λ e, type e = COMPLETE)
                      (step_events (iteration tools h))).
    { intros He. apply Exists_exists in He as (e & Hin & He).
      by eapply Forall_forall in Hnc. }
    destruct (step_next (iteration tools h)); simpl; try done.
    + specialize (IH (Some (step_text (iteration tools h)))
                     (step_handler (iteration tools h))).
      destruct (process_loop tools n _ _) as [[out h'] x]. simpl in *.
      intros He. apply Exists_app in He as [He|He]; [done|].
      apply IH; [|done]. intros _. by apply Hans; left.
    + intros _. by apply Hans; right.
Qed.

End StreamingEndings.

Section StreamingErrors.
Import Llm Streaming StreamSpec.

(** The pass stops at the first error event: what comes after it in the
    stream is not read. *)
Lemma consume_error sid pre err post :
  se_type err = Llm.ERROR →
  Forall (λ e, se_type e ≠ Llm.ERROR) pre →
  ∀ acc tus c,
    let p := consume sid pre acc tus c in
    consume sid (pre ++ err :: post) acc tus c
    = mkPass (emitted p ++ [mkSSE ERROR [("error", opt_str (se_error err))] sid])
             (accumulated_text p) (tool_uses p) (pass_conversation p) true.
Proof.
  intros Herr Hpre. induction Hpre as [|e pre He _ IH]; intros acc tus c.
  - cbn [app consume]. unfold ended_tool_use. rewrite Herr.
    rewrite (bool_decide_eq_true_2 _ eq_refl), !bool_decide_eq_false_2 by done.
    reflexivity.
  - cbn [app consume]. cbv zeta in IH.
    rewrite (bool_decide_eq_false_2 (se_type e = Llm.ERROR)) by done.
    repeat case_match; rewrite IH; cbn; by rewrite ?app_assoc.
Qed.

End StreamingErrors.

(** X9. One pass over a provider stream that neither raises nor holds an
    error event reads the stream to its end: the text is the
    concatenation of the text deltas, the tool uses are those of the
    [TOOL_USE_END] events in order, the token counters grow by what the
    [MESSAGE_END] events report, and no message is added. *)
Theorem stream_round_accumulates (h : Streaming.StreamingHandler) :
  let run := Streaming.provider h (Streaming.conversation h) in
  Streaming.run_failure run = None →
  Forall (λ e, Llm.se_type e ≠ Llm.ERROR) (Streaming.run_events run) →
  let p := Streaming.stream_round h in
  Streaming.returned p = false
  ∧ Streaming.accumulated_text p = StreamSpec.texts (Streaming.run_events run)
  ∧ Streaming.tool_uses p = StreamSpec.ended (Streaming.run_events run)
  ∧ Conv.total_input_tokens (Streaming.pass_conversation p)
    = (Conv.total_input_tokens (Streaming.conversation h)
       + StreamSpec.tokens "input_tokens" (Streaming.run_events run))%Z
  ∧ Conv.total_output_tokens (Streaming.pass_conversation p)
    = (Conv.total_output_tokens (Streaming.conversation h)
       + StreamSpec.tokens "output_tokens" (Streaming.run_events run))%Z
  ∧ Conv.messages (Streaming.pass_conversation p)
    = Conv.messages (Streaming.conversation h).
Proof.
  intros run Hfail Hnoerr p.
  destruct (consume_accumulates
              (Conv.session_id (Streaming.conversation h))
              (Streaming.run_events run) Hnoerr "" []
              (Streaming.conversation h)) as (Ha & Hu & Hr & Hi & Ho & Hm).
  assert (Hp : p = Streaming.consume
                     (Conv.session_id (Streaming.conversation h))
                     (Streaming.run_events run) "" []
                     (Streaming.conversation h)).
  { unfold p, Streaming.stream_round. fold run. by rewrite Hr, Hfail. }
  rewrite Hp. by split_and!.
Qed.

Lemma stream_round_accumulates_witness :
  let h := Scenario.handler Examples.plain_provider in
  let p := Streaming.stream_round h in
  Streaming.returned p = false
  ∧ Streaming.accumulated_text p = "Hello"
  ∧ Streaming.tool_uses p = []
  ∧ Conv.total_input_tokens (Streaming.pass_conversation p) = 12%Z
  ∧ Conv.total_output_tokens (Streaming.pass_conversation p) = 5%Z
  ∧ Conv.messages (Streaming.pass_conversation p) = [].
Proof.
  apply (stream_round_accumulates (Scenario.handler Examples.plain_provider)).
  - reflexivity.
  - repeat constructor; discriminate.
Defined.

(** X10. Every event of a [process_prompt] run carries the session id of
    the handler's conversation, and the conversation keeps that id. *)
Theorem process_prompt_session tools prompt h :
  let sid := Conv.session_id (Streaming.conversation h) in
  Forall (λ e, Streaming.sse_session_id e = sid)
         (Streaming.process_prompt tools prompt h).1.1
  ∧ Conv.session_id
      (Streaming.conversation (Streaming.process_prompt tools prompt h).1.2)
    = sid.
Proof.
  unfold Streaming.process_prompt.
  pose proof (process_loop_session tools
                (Z.to_nat (Streaming.max_tool_iterations h)) None
                (Streaming.begin_prompt prompt h)) as [Hs Hc].
  destruct (Streaming.process_loop tools _ _ _) as [[out h'] x].
  simpl in *. split; [|done]. by apply Forall_cons.
Qed.

(** X11. [process_prompt] only appends to the conversation: the messages
    it ends with start with the messages it found, followed by the user
    message of the prompt. *)
Theorem process_prompt_appends tools prompt h :
  (Conv.messages (Streaming.conversation h)
   ++ [Conv.mkMsg (uuid4 (Streaming.entropy h)) Llm.USER prompt [] [] None])
  `prefix_of`
  Conv.messages
    (Streaming.conversation (Streaming.process_prompt tools prompt h).1.2).
Proof.
  unfold Streaming.process_prompt.
  pose proof (process_loop_appends tools
                (Z.to_nat (Streaming.max_tool_iterations h)) None
                (Streaming.begin_prompt prompt h)) as Hp.
  by destruct (Streaming.process_loop tools _ _ _) as [[out h'] x].
Qed.

(** X12. A prompt the provider answers with text only: when the loop may
    run at least once and the provider's stream for the conversation
    with the prompt has no error, does not raise and ends no tool use,
    the run is the user message, the [thinking] status, the events of
    the pass, the assistant message with the concatenated text and
    [complete] with the token totals; one assistant message without
    tool uses is appended after the user message, no tool runs. *)
Theorem process_prompt_plain_answer tools prompt h :
  let h0 := Streaming.begin_prompt prompt h in
  let run := Streaming.provider h (Streaming.conversation h0) in
  let sid := Conv.session_id (Streaming.conversation h) in
  let text := StreamSpec.texts (Streaming.run_events run) in
  (0 < Streaming.max_tool_iterations h)%Z →
  Streaming.run_failure run = None →
  Forall (λ e, Llm.se_type e ≠ Llm.ERROR) (Streaming.run_events run) →
  StreamSpec.ended (Streaming.run_events run) = [] →
  ∃ h',
    Streaming.process_prompt tools prompt h
    = (Streaming.mkSSE Streaming.MESSAGE
         [("role", Json.JStr "user"); ("content", Json.JStr prompt)] sid
       :: Streaming.status_event sid "thinking"
       :: Streaming.emitted (Streaming.stream_round h0)
       ++ Streaming.final_events sid text (Streaming.conversation h'),
       h', Streaming.Finished)
    ∧ Conv.messages (Streaming.conversation h')
      = Conv.messages (Streaming.conversation h)
        ++ [Conv.mkMsg (uuid4 (Streaming.entropy h)) Llm.USER prompt [] []
              None;
            Conv.mkMsg (uuid4 (S (Streaming.entropy h))) Llm.ASSISTANT text
              [] [] None]
    ∧ Conv.total_input_tokens (Streaming.conversation h')
      = (Conv.total_input_tokens (Streaming.conversation h)
         + StreamSpec.tokens "input_tokens" (Streaming.run_events run))%Z
    ∧ Conv.total_output_tokens (Streaming.conversation h')
      = (Conv.total_output_tokens (Streaming.conversation h)
         + StreamSpec.tokens "output_tokens" (Streaming.run_events run))%Z
    ∧ Streaming.tool_service h' = Streaming.tool_service h
    ∧ Streaming.files h' = Streaming.files h.
Proof.
  intros h0 run sid text Hmax Hfail Hnoerr Hended.
  destruct (consume_accumulates sid (Streaming.run_events run) Hnoerr "" []
              (Streaming.conversation h0)) as (Ha & Hu & Hr & Hi & Ho & Hm).
  assert (Hp : Streaming.stream_round h0
               = Streaming.consume sid (Streaming.run_events run) "" []
                   (Streaming.conversation h0)).
  { unfold Streaming.stream_round. change (Streaming.provider h0) with
      (Streaming.provider h). fold run.
    change (Conv.session_id (Streaming.conversation h0)) with sid.
    by rewrite Hr, Hfail. }
  destruct (Z.to_nat (Streaming.max_tool_iterations h)) as [|n] eqn:Hn;
    [lia|].
  unfold Streaming.process_prompt. rewrite Hn. fold h0.
  cbn [Streaming.process_loop]. unfold Streaming.iteration. cbv zeta.
  cbn [app] in Hu. rewrite Hended in Hu. rewrite Hp, Hr, Hu.
  cbn [Streaming.step_next Streaming.step_events Streaming.step_handler
       Streaming.step_text Streaming.finish Streaming.conversation].
  change (Conv.session_id (Streaming.conversation h0)) with sid.
  rewrite Ha, add_assistant_message_session, consume_session.
  eexists (Streaming.mkHandler _ _ _ _ _ _). split; [reflexivity|].
  cbn [Streaming.conversation Streaming.tool_service Streaming.files].
  rewrite add_assistant_message_messages, Hm.
  unfold Conv.add_assistant_message. cbn.
  split_and!; try done. by rewrite <- app_assoc.
Qed.

Lemma process_prompt_plain_answer_witness :
  let h := Scenario.handler Examples.plain_provider in
  ∃ h',
    Streaming.process_prompt Scenario.tools "hi" h
    = (Streaming.mkSSE Streaming.MESSAGE
         [("role", Json.JStr "user"); ("content", Json.JStr "hi")] "s1"
       :: Streaming.status_event "s1" "thinking"
       :: Streaming.emitted
            (Streaming.stream_round (Streaming.begin_prompt "hi" h))
       ++ Streaming.final_events "s1" "Hello" (Streaming.conversation h'),
       h', Streaming.Finished)
    ∧ Conv.messages (Streaming.conversation h')
      = [] ++ [Conv.mkMsg (uuid4 0) Llm.USER "hi" [] [] None;
               Conv.mkMsg (uuid4 1) Llm.ASSISTANT "Hello" [] [] None]
    ∧ Conv.total_input_tokens (Streaming.conversation h') = (0 + 12)%Z
    ∧ Conv.total_output_tokens (Streaming.conversation h') = (0 + 5)%Z
    ∧ Streaming.tool_service h' = Scenario.service
    ∧ Streaming.files h' = Scenario.disk.
Proof.
  apply (process_prompt_plain_answer Scenario.tools "hi"
           (Scenario.handler Examples.plain_provider)).
  - reflexivity.
  - reflexivity.
  - repeat constructor; discriminate.
  - reflexivity.
Defined.

(** X13. An error event in the provider's stream ends the run: when the
    loop may run at least once and the stream for the conversation with
    the prompt holds an error event after events [pre] without one, the
    run is the user message, the [thinking] status, the events for
    [pre] and the error event with the provider's message; the events
    after the error are not read, no assistant message is added (the
    user message stays), the tokens reported before the error are
    counted, and no tool runs. *)
Theorem process_prompt_stream_error tools prompt h pre err post :
  let h0 := Streaming.begin_prompt prompt h in
  let run := Streaming.provider h (Streaming.conversation h0) in
  let sid := Conv.session_id (Streaming.conversation h) in
  (0 < Streaming.max_tool_iterations h)%Z →
  Streaming.run_events run = pre ++ err :: post →
  Llm.se_type err = Llm.ERROR →
  Forall (λ e, Llm.se_type e ≠ Llm.ERROR) pre →
  ∃ h',
    Streaming.process_prompt tools prompt h
    = (Streaming.mkSSE Streaming.MESSAGE
         [("role", Json.JStr "user"); ("content", Json.JStr prompt)] sid
       :: Streaming.status_event sid "thinking"
       :: Streaming.emitted
            (Streaming.consume sid pre "" [] (Streaming.conversation h0))
       ++ [Streaming.mkSSE Streaming.ERROR
             [("error", Streaming.opt_str (Llm.se_error err))] sid],
       h', Streaming.Finished)
    ∧ Conv.messages (Streaming.conversation h')
      = Conv.messages (Streaming.conversation h)
        ++ [Conv.mkMsg (uuid4 (Streaming.entropy h)) Llm.USER prompt [] []
              None]
    ∧ Conv.total_input_tokens (Streaming.conversation h')
      = (Conv.total_input_tokens (Streaming.conversation h)
         + StreamSpec.tokens "input_tokens" pre)%Z
    ∧ Conv.total_output_tokens (Streaming.conversation h')
      = (Conv.total_output_tokens (Streaming.conversation h)
         + StreamSpec.tokens "output_tokens" pre)%Z
    ∧ Streaming.tool_service h' = Streaming.tool_service h
    ∧ Streaming.files h' = Streaming.files h.
Proof.
  intros h0 run sid Hmax Hrun Herr Hpre.
  destruct (consume_accumulates sid pre Hpre "" []
              (Streaming.conversation h0)) as (_ & _ & _ & Hi & Ho & Hm).
  pose proof (consume_error sid pre err post Herr Hpre "" []
                (Streaming.conversation h0)) as Hc. cbv zeta in Hc.
  assert (Hp : Streaming.stream_round h0
               = Streaming.consume sid (pre ++ err :: post) "" []
                   (Streaming.conversation h0)).
  { unfold Streaming.stream_round. change (Streaming.provider h0) with
      (Streaming.provider h). fold run.
    change (Conv.session_id (Streaming.conversation h0)) with sid.
    rewrite Hrun, Hc. reflexivity. }
  destruct (Z.to_nat (Streaming.max_tool_iterations h)) as [|n] eqn:Hn;
    [lia|].
  unfold Streaming.process_prompt. rewrite Hn. fold h0.
  cbn [Streaming.process_loop]. unfold Streaming.iteration. cbv zeta.
  rewrite Hp, Hc.
  cbn [Streaming.returned Streaming.emitted Streaming.pass_conversation
       Streaming.accumulated_text Streaming.step_next Streaming.step_events
       Streaming.step_handler].
  change (Conv.session_id (Streaming.conversation h0)) with sid.
  eexists (Streaming.mkHandler _ _ _ _ _ _). split; [reflexivity|].
  cbn [Streaming.with_conversation Streaming.conversation
       Streaming.tool_service Streaming.files].
  by rewrite Hm, Hi, Ho.
Qed.

Lemma process_prompt_stream_error_witness :
  let h := Scenario.handler Examples.failing_provider in
  ∃ h',
    Streaming.process_prompt Scenario.tools "hi" h
    = (Streaming.mkSSE Streaming.MESSAGE
         [("role", Json.JStr "user"); ("content", Json.JStr "hi")] "s1"
       :: Streaming.status_event "s1" "thinking"
       :: Streaming.emitted
            (Streaming.consume "s1" [Scenario.text_delta "Hel"] "" []
               (Streaming.conversation (Streaming.begin_prompt "hi" h)))
       ++ [Streaming.mkSSE Streaming.ERROR
             [("error", Json.JStr "overloaded")] "s1"],
       h', Streaming.Finished)
    ∧ Conv.messages (Streaming.conversation h')
      = [] ++ [Conv.mkMsg (uuid4 0) Llm.USER "hi" [] [] None]
    ∧ Conv.total_input_tokens (Streaming.conversation h') = (0 + 0)%Z
    ∧ Conv.total_output_tokens (Streaming.conversation h') = (0 + 0)%Z
    ∧ Streaming.tool_service h' = Scenario.service
    ∧ Streaming.files h' = Scenario.disk.
Proof.
  apply (process_prompt_stream_error Scenario.tools "hi"
           (Scenario.handler Examples.failing_provider)
           [Scenario.text_delta "Hel"]
           (Llm.mkStreamEvent Llm.ERROR None None None None None
              (Some "overloaded") None)
           [Scenario.text_delta "lo"]).
  - reflexivity.
  - reflexivity.
  - reflexivity.
  - repeat constructor; discriminate.
Defined.

(** X14. With [max_tool_iterations] at zero or below the loop body never
    runs: the provider is not asked, the only event is the user message,
    the user message is the only change of the handler, and the final
    message fails on the unbound [accumulated_text]. *)
Theorem process_prompt_no_iterations tools prompt h :
  (Streaming.max_tool_iterations h ≤ 0)%Z →
  Streaming.process_prompt tools prompt h
  = ([Streaming.mkSSE Streaming.MESSAGE
        [("role", Json.JStr "user"); ("content", Json.JStr prompt)]
        (Conv.session_id (Streaming.conversation h))],
     Streaming.begin_prompt prompt h,
     Streaming.Failed "UnboundLocalError").
Proof.
  intros Hmax. unfold Streaming.process_prompt.
  by replace (Z.to_nat (Streaming.max_tool_iterations h)) with 0 by lia.
Qed.

Lemma process_prompt_no_iterations_witness :
  let h := Streaming.mkHandler Examples.plain_provider
             Scenario.fresh_conversation Scenario.service 0 Scenario.disk 0 in
  Streaming.process_prompt Scenario.tools "hi" h
  = ([Streaming.mkSSE Streaming.MESSAGE
        [("role", Json.JStr "user"); ("content", Json.JStr "hi")] "s1"],
     Streaming.begin_prompt "hi" h,
     Streaming.Failed "UnboundLocalError").
Proof.
  apply (process_prompt_no_iterations Scenario.tools "hi"
           (Streaming.mkHandler Examples.plain_provider
              Scenario.fresh_conversation Scenario.service 0 Scenario.disk 0)).
  simpl. lia.
Defined.

(** X15. The last event of a [process_prompt] run.  When the
    generator finishes, its last event is [complete], an error event or
    the [waiting_permission] status, and no event before the last is
    [complete]; when an exception leaves it, it has emitted no
    [complete] at all. *)
Theorem process_prompt_ending tools prompt h :
  match (Streaming.process_prompt tools prompt h).2 with
  | Streaming.Finished =>
      ∃ before e,
        (Streaming.process_prompt tools prompt h).1.1 = before ++ [e]
        ∧ Forall (λ e, Streaming.type e ≠ Streaming.COMPLETE) before
        ∧ (Streaming.type e = Streaming.COMPLETE
           ∨ Streaming.type e = Streaming.ERROR
           ∨ ∃ k, e = Streaming.waiting_permission_event
                        (Streaming.sse_session_id e) k)
  | Streaming.Failed _ =>
      Forall (λ e, Streaming.type e ≠ Streaming.COMPLETE)
             (Streaming.process_prompt tools prompt h).1.1
  | Streaming.OutOfFuel => True
  end.
Proof.
  unfold Streaming.process_prompt.
  pose proof (process_loop_ending tools
                (Z.to_nat (Streaming.max_tool_iterations h)) None
                (Streaming.begin_prompt prompt h)) as Hl.
  destruct (Streaming.process_loop tools _ _ _) as [[out h'] x].
  simpl in *. destruct x; [|by apply Forall_cons|done].
  destruct Hl as (before & e & -> & Hb & He).
  eexists (_ :: before), e. split_and!; [done| |done].
  by apply Forall_cons.
Qed.

(** X16. A run that emitted [complete] leaves no tool use unanswered:
    [get_pending_tool_uses] of the conversation it ends with is
    empty. *)
Theorem complete_leaves_nothing_pending tools prompt h :
  Exists (λ e, Streaming.type e = Streaming.COMPLETE)
         (Streaming.process_prompt tools prompt h).1.1 →
  Conv.get_pending_tool_uses
    (Streaming.conversation (Streaming.process_prompt tools prompt h).1.2)
  = [].
Proof.
  unfold Streaming.process_prompt.
  pose proof (process_loop_complete tools
                (Z.to_nat (Streaming.max_tool_iterations h)) None
                (Streaming.begin_prompt prompt h)) as Hl.
  destruct (Streaming.process_loop tools _ _ _) as [[out h'] x].
  simpl in *. intros He. apply Exists_cons in He as [He|He]; [done|].
  by apply Hl.
Qed.

Lemma complete_leaves_nothing_pending_witness :
  Conv.get_pending_tool_uses
    (Streaming.conversation
       (Streaming.process_prompt Scenario.tools "hi"
          (Scenario.handler Examples.plain_provider)).1.2)
  = [].
Proof.
  apply (complete_leaves_nothing_pending Scenario.tools "hi"
           (Scenario.handler Examples.plain_provider)).
  vm_compute. do 5 apply Exists_cons_tl. by apply Exists_cons_hd.
Defined.

(** X17. The loop of [process_prompt] asks the provider at most
    [max_tool_iterations] times, and not at all when that number is
    negative. *)
Theorem process_prompt_round_bound tools prompt h :
  (Z.of_nat (Streaming.rounds (Streaming.process_prompt tools prompt h).1.1)
   ≤ Z.max 0 (Streaming.max_tool_iterations h))%Z.
Proof.
  pose proof (process_prompt_rounds tools prompt h). lia.
Qed.

(** ** The continuation after a permission answer *)

Section ContinuationFacts.
Import Llm Streaming.
Variable tools : gmap string ToolBase.Tool.

Lemma consume_continue_chunks sid evs :
  ∀ acc tus,
    Forall (λ e, type e = STREAM_CHUNK) (consume_continue sid evs acc tus).1.1.
Proof.
  induction evs as [|e evs IH]; intros acc tus; simpl; [constructor|].
  repeat case_match; simpl; try apply IH.
  match goal with
  | H : consume_continue _ _ _ _ = _ |- _ =>
      pose proof (IH (acc +:+ default "" (se_text e)) tus) as IH';
      rewrite H in IH'
  end.
  by apply Forall_cons.
Qed.

Lemma add_assistant_message_totals mid text tus c :
  Conv.total_input_tokens (Conv.add_assistant_message mid text tus None c)
  = Conv.total_input_tokens c
  ∧ Conv.total_output_tokens (Conv.add_assistant_message mid text tus None c)
    = Conv.total_output_tokens c.
Proof. done. Qed.

(** The continuation gives out the [thinking] status, text chunks and
    the final message with [complete], and counts no tokens. *)
Lemma continue_conversation_quiet fuel :
  ∀ h,
    Forall (λ e, type e ≠ ERROR ∧ type e ≠ TOOL_CALL)
           (_continue_conversation tools fuel h).1.1
    ∧ Conv.total_input_tokens
        (conversation (_continue_conversation tools fuel h).1.2)
      = Conv.total_input_tokens (conversation h)
    ∧ Conv.total_output_tokens
        (conversation (_continue_conversation tools fuel h).1.2)
      = Conv.total_output_tokens (conversation h).
Proof.
  induction fuel as [|n IH]; intros h; [by split_and!|].
  cbn [_continue_conversation]. cbv zeta.
  pose proof (consume_continue_chunks (Conv.session_id (conversation h))
                (run_events (provider h (conversation h))) "" []) as Hch.
  destruct (consume_continue _ _ _ _) as [[chunks text] tus]. simpl in Hch.
  assert (Hq : Forall (λ e, type e ≠ ERROR ∧ type e ≠ TOOL_CALL) chunks).
  { eapply Forall_impl; [exact Hch|]. intros e ->. by split. }
  destruct (run_failure _); cbn [fst snd conversation].
  { split_and!; try done. by apply Forall_cons. }
  destruct tus as [|tu tus]; cbn [fst snd conversation].
  { split_and!; try done. apply Forall_cons. split; [done|].
    apply Forall_app. split; [done|]. by repeat constructor. }
  destruct (ToolService.execute_tools _ _ _ _ _) as [[[rs|msg] s'] fs'];
    cbn [fst snd conversation].
  - match goal with
    | |- context [_continue_conversation tools n ?h1] =>
        specialize (IH h1); destruct (_continue_conversation tools n h1)
          as [[out h'] x]
    end.
    cbn [fst snd conversation] in *.
    destruct IH as (Ho & Hi & Hu). split_and!; try done.
    apply Forall_cons. split; [done|]. by apply Forall_app.
  - split_and!; try done. by apply Forall_cons.
Qed.

End ContinuationFacts.

(** X18. The continuation after a permission answer reports no provider
    error and counts no tokens: whatever the provider streams (error
    events and usage included), [continue_after_permission] gives out no
    event of type [error] or [tool_call], and the token totals of the
    conversation stay as they were. *)
Theorem continuation_drops_errors_and_usage tools fuel permission_id approved
    always h :
  let r := Streaming.continue_after_permission tools fuel permission_id
             approved always h in
  Forall (λ e, Streaming.type e ≠ Streaming.ERROR
               ∧ Streaming.type e ≠ Streaming.TOOL_CALL) r.1.1
  ∧ Conv.total_input_tokens (Streaming.conversation r.1.2)
    = Conv.total_input_tokens (Streaming.conversation h)
  ∧ Conv.total_output_tokens (Streaming.conversation r.1.2)
    = Conv.total_output_tokens (Streaming.conversation h).
Proof.
  unfold Streaming.continue_after_permission. cbv zeta.
  destruct approved; cbn [negb].
  - destruct (Conv.get_pending_tool_uses _) as [|tu tus] eqn:Hp.
    { by split_and!. }
    destruct (ToolService.execute_tools _ _ _ _ _) as [[[rs|msg] s'] fs'].
    + match goal with
      | |- context [Streaming._continue_conversation tools fuel ?h1] =>
          pose proof (continue_conversation_quiet tools fuel h1) as Hq;
          destruct (Streaming._continue_conversation tools fuel h1)
            as [[out h'] x]
      end.
      simpl in *. destruct Hq as (Ho & Hi & Hu). split_and!; try done.
      apply Forall_app. split; [|done].
      apply Forall_forall. intros e He. apply list_elem_of_fmap in He.
      by destruct He as (r & -> & _).
    + by split_and!.
  - destruct (List.find _ _); simpl; split_and!; try done;
      by repeat constructor.
Qed.

(** ** Argument validation and the file tools *)

Section ValidationFacts.
Import ToolBase.

Lemma find_none_iff {A} (p : A → bool) (l : list A) :
  List.find p l = None ↔ ∀ x, x ∈ l → p x = false.
Proof.
  induction l as [|y l IH]; simpl.
  - split; [|done]. intros _ x Hx. by apply elem_of_nil in Hx.
  - destruct (p y) eqn:Hy.
    + split; [done|]. intros H. rewrite H in Hy; [done|]. by left.
    + rewrite IH. split.
      * intros H x Hx. apply elem_of_cons in Hx as [->|Hx]; auto.
      * intros H x Hx. apply H. by right.
Qed.

Lemma head_omap_none_iff {A B} (f : A → option B) (l : list A) :
  head (omap f l) = None ↔ ∀ x, x ∈ l → f x = None.
Proof.
  induction l as [|y l IH]; simpl.
  - split; [|done]. intros _ x Hx. by apply elem_of_nil in Hx.
  - destruct (f y) eqn:Hy; simpl.
    + split; [done|]. intros H. rewrite H in Hy; [done|]. by left.
    + rewrite IH. split.
      * intros H x Hx. apply elem_of_cons in Hx as [->|Hx]; auto.
      * intros H x Hx. apply H. by right.
Qed.

End ValidationFacts.

(** X19. [validate_arguments] accepts an arguments object exactly when
    every required key is among its keys and every entry whose key the
    schema declares with a type holds a value of that type (a boolean
    counting as an integer and as a number). *)
Theorem validate_schema_accepts required properties fields :
  ToolBase.validate_schema required properties (Json.JObj fields)
  = ToolBase.Returned None
  ↔ (∀ f, f ∈ required → f ∈ fields.*1)
    ∧ (∀ key value ty,
         (key, value) ∈ fields →
         Schema.declared_type properties key = Some ty →
         ToolBase.matches_type ty value = true).
Proof.
  unfold ToolBase.validate_schema, Schema.declared_type.
  destruct (List.find _ required) as [f|] eqn:Hreq.
  - split; [done|]. intros [Hall _]. exfalso.
    pose proof (find_elem _ _ _ Hreq) as Hin.
    apply List.find_some in Hreq as [_ Hf].
    apply negb_true_iff, bool_decide_eq_false in Hf. auto.
  - rewrite find_none_iff in Hreq.
    assert (Hall : ∀ f, f ∈ required → f ∈ fields.*1).
    { intros f Hf. specialize (Hreq f Hf).
      by apply negb_false_iff, bool_decide_eq_true in Hreq. }
    split.
    + intros [= Hhead]. split; [done|].
      rewrite head_omap_none_iff in Hhead.
      intros key value ty Hin Hty. specialize (Hhead _ Hin). simpl in Hhead.
      destruct (List.find _ properties) as [[k ty']|]; [|done].
      simpl in Hty. simplify_eq.
      by destruct (ToolBase.matches_type ty value).
    + intros [_ Htypes]. f_equal. apply head_omap_none_iff.
      intros [key value] Hin. simpl.
      specialize (Htypes key value).
      destruct (List.find _ properties) as [[k ty]|]; [|done].
      by rewrite (Htypes ty Hin eq_refl).
Qed.

(** X20. [edit_file] changes at most one file, and only inside the
    sandbox.  An exception leaves the file table as it was.  A result
    comes either with the file table unchanged, and is then an error, or
    with exactly one entry changed: the file at the path that passed
    [resolve_path], which existed as readable text and held the old
    text; a success is returned only when writing that file went
    through. *)
Theorem edit_file_writes_inside_sandbox fs_resolve fs_write arguments ctx fs :
  let r := FileTools.execute_edit_file fs_resolve fs_write arguments ctx fs in
  match r.1 with
  | ToolBase.Returned result =>
      (ToolBase.success result = false ∧ r.2 = fs)
      ∨ ∃ file_path_str old_string path text text',
          Json.get "file_path" arguments = Some (Json.JStr file_path_str)
          ∧ Json.get "old_string" arguments = Some (Json.JStr old_string)
          ∧ ToolBase.resolve_path fs_resolve ctx file_path_str
            = ToolBase.Returned path
          ∧ ToolBase.is_path_allowed fs_resolve ctx path = true
          ∧ fs !! Pathlib.to_str path = Some (ToolBase.File text)
          ∧ PyStr.contains old_string text = true
          ∧ r.2 = <[Pathlib.to_str path := ToolBase.File text']> fs
          ∧ (ToolBase.success result = true →
             fs_write (Pathlib.to_str path) text' = FileTools.Written)
  | ToolBase.Raised _ => r.2 = fs
  end.
Proof.
  unfold FileTools.execute_edit_file, FileTools.subscript.
  destruct (Json.get "file_path" arguments) as [fpv|] eqn:Hfp; [|done].
  destruct (Json.get "old_string" arguments) as [oldv|] eqn:Hold; [|done].
  destruct (Json.get "new_string" arguments) as [newv|]; [|done].
  cbv zeta.
  destruct fpv as [| | |fp| |]; try (left; by split).
  destruct (ToolBase.resolve_path fs_resolve ctx fp) as [path|msg] eqn:Hres;
    [|left; by split].
  destruct (fs !! Pathlib.to_str path) as [[text|err]|] eqn:Hfs;
    try (left; by split).
  destruct oldv as [| | |old| |]; try (left; by split).
  destruct (PyStr.contains old text) eqn:Hc; [|left; by split]. cbn [negb].
  assert (Hallowed : ToolBase.is_path_allowed fs_resolve ctx path = true).
  { unfold ToolBase.resolve_path in Hres.
    destruct (ToolBase.is_path_allowed _ _ _) eqn:Ha; by simplify_eq. }
  unfold FileTools.replace_and_write.
  destruct (negb _ && _); [left; by split|].
  destruct newv as [| | |new| |]; try (left; by split).
  destruct (fs_write _ _) as [|err|err remains] eqn:Hw; cbn [fst snd].
  - right. exists fp, old, path, text. eexists. by split_and!.
  - left. by split.
  - right. exists fp, old, path, text, remains. by split_and!.
Qed.

(** ** The Anthropic stream, event by event *)

Section AnthropicMore.
Import Llm Anthropic AnthropicSpec.
Variable json_loads : string → loads_outcome.

Lemma given_texts_app out1 out2 :
  given_texts (out1 ++ out2) = given_texts out1 ++ given_texts out2.
Proof. unfold given_texts. by rewrite omap_app. Qed.

Lemma count_type_app t out1 out2 :
  count_type t (out1 ++ out2) = count_type t out1 + count_type t out2.
Proof. unfold count_type. by rewrite filter_app, length_app. Qed.

Lemma step_texts st ev :
  given_texts (step json_loads st ev).1.2 = vendor_texts [ev].
Proof.
  destruct ev as [|[[id name|]|]|[[text|partial|]|]| |usage| |]; try done.
  simpl. destruct (current_tool_id st) as [id|]; [|done].
  destruct (current_tool_name st) as [name|]; [|done].
  destruct (truthy id && truthy name); [|done].
  by destruct (parse_tool_input json_loads (current_tool_input st)).
Qed.

Lemma run_texts evs :
  ∀ st, given_texts (run json_loads st evs).1.2
        = vendor_texts (consumed json_loads st evs).
Proof.
  induction evs as [|ev evs IH]; intros st; [done|].
  cbn [run consumed]. pose proof (step_texts st ev) as Hs.
  destruct (step json_loads st ev) as [[st1 out1] [msg|]]; cbn [fst snd] in *.
  - done.
  - specialize (IH st1).
    destruct (run json_loads st1 evs) as [[st2 out2] raised].
    cbn [fst snd] in *. rewrite given_texts_app, Hs, IH.
    change (ev :: consumed json_loads st1 evs)
      with ([ev] ++ consumed json_loads st1 evs).
    unfold vendor_texts. by rewrite omap_app.
Qed.

Lemma consumed_prefix evs :
  ∀ st, consumed json_loads st evs `prefix_of` evs.
Proof.
  induction evs as [|ev evs IH]; intros st; [done|]. cbn [consumed].
  destruct (step json_loads st ev) as [[st1 out1] [msg|]].
  - by exists evs.
  - by apply prefix_cons.
Qed.

Lemma step_returns st ev :
  (∀ s msg, json_loads s ≠ OtherError msg) →
  (step json_loads st ev).2 = None.
Proof.
  intros Hloads.
  destruct ev as [|[[id name|]|]|[[text|partial|]|]| |usage| |]; try done.
  simpl. destruct (current_tool_id st) as [id|]; [|done].
  destruct (current_tool_name st) as [name|]; [|done].
  destruct (truthy id && truthy name); [|done].
  unfold parse_tool_input. destruct (truthy _); [|done].
  destruct (json_loads (current_tool_input st)) as [v| |msg] eqn:Hl;
    try done.
  by apply Hloads in Hl.
Qed.

Lemma consumed_all evs :
  (∀ s msg, json_loads s ≠ OtherError msg) →
  ∀ st, consumed json_loads st evs = evs.
Proof.
  intros Hloads. induction evs as [|ev evs IH]; intros st; [done|].
  cbn [consumed]. pose proof (step_returns st ev Hloads) as Hs.
  destruct (step json_loads st ev) as [[st1 out1] raised].
  cbn [snd] in Hs. subst raised. by rewrite IH.
Qed.

(** A [TOOL_USE_END] needs an open tool use: one left by the state, or
    one started in the stream and not ended yet. *)
Lemma run_ends_bound evs :
  ∀ st,
    count_type TOOL_USE_END (run json_loads st evs).1.2
    ≤ count_type TOOL_USE_START (run json_loads st evs).1.2
      + (match current_tool_id st with Some _ => 1 | None => 0 end)
    ∧ (current_tool_id st = None →
       count_type TOOL_USE_END (run json_loads st evs).1.2
       ≤ count_type TOOL_USE_START (run json_loads st evs).1.2).
Proof.
  induction evs as [|ev evs IH]; intros st.
  { cbn. split; [lia|done]. }
  cbn [run].
  assert (Hstep :
    let s := (step json_loads st ev).1 in
    (count_type TOOL_USE_END s.2 = 0 ∧ count_type TOOL_USE_START s.2 = 0
     ∧ current_tool_id s.1 = current_tool_id st)
    ∨ (count_type TOOL_USE_END s.2 = 0 ∧ count_type TOOL_USE_START s.2 = 1)
    ∨ (count_type TOOL_USE_END s.2 = 1 ∧ count_type TOOL_USE_START s.2 = 0
       ∧ current_tool_id s.1 = None ∧ current_tool_id st ≠ None)).
  { destruct ev as [|[[id name|]|]|[[text|partial|]|]| |usage| |]; cbn;
      try (left; by split_and!).
    - right. left. by split.
    - destruct (current_tool_id st) as [id|] eqn:Hid;
        [|left; by split_and!].
      destruct (current_tool_name st) as [name|];
        [|left; by split_and!].
      destruct (truthy id && truthy name); [|left; by split_and!].
      destruct (parse_tool_input json_loads (current_tool_input st));
        cbn; [|left; by split_and!].
      right. right. by split_and!. }
  destruct (step json_loads st ev) as [[st1 out1] raised].
  cbn [fst snd] in Hstep.
  destruct raised as [msg|]; cbn [fst snd].
  { destruct Hstep as [(He & Hs & Hid)|[(He & Hs)|(He & Hs & Hid & Hst)]];
      rewrite He, Hs; destruct (current_tool_id st); split; intros; lia
      || done. }
  destruct (IH st1) as [IH1 IH2].
  destruct (run json_loads st1 evs) as [[st2 out2] raised]. cbn [fst snd] in *.
  rewrite !count_type_app.
  destruct Hstep as [(He & Hs & Hid)|[(He & Hs)|(He & Hs & Hid & Hst)]].
  - rewrite He, Hs, <- Hid. split; [exact IH1|].
    intros Hn. by apply IH2.
  - rewrite He, Hs. destruct (current_tool_id st1); split; intros; lia.
  - rewrite He, Hs. specialize (IH2 Hid).
    split; [|done]. destruct (current_tool_id st); [lia|done].
Qed.

End AnthropicMore.

(** X21. The text deltas of the vendor's stream pass through
    [stream_complete] one for one and in order: the texts of the
    [TEXT_DELTA] events given out are the texts of the text deltas among
    the vendor events the loop has read, whatever else is in the stream
    and whether or not it raises.  The events read are a prefix of the
    vendor's stream, and all of it when [json.loads] raises nothing but
    [JSONDecodeError]. *)
Theorem stream_complete_passes_texts json_loads evs failure :
  AnthropicSpec.given_texts (Anthropic.stream_complete json_loads evs failure)
  = AnthropicSpec.vendor_texts
      (Anthropic.consumed json_loads Anthropic.initial evs)
  ∧ Anthropic.consumed json_loads Anthropic.initial evs `prefix_of` evs
  ∧ ((∀ s msg, json_loads s ≠ Anthropic.OtherError msg) →
     AnthropicSpec.given_texts
       (Anthropic.stream_complete json_loads evs failure)
     = AnthropicSpec.vendor_texts evs).
Proof.
  assert (Hread :
    AnthropicSpec.given_texts
      (Anthropic.stream_complete json_loads evs failure)
    = AnthropicSpec.vendor_texts
        (Anthropic.consumed json_loads Anthropic.initial evs)).
  { unfold Anthropic.stream_complete.
    pose proof (run_texts json_loads evs Anthropic.initial) as Hr.
    destruct (Anthropic.run json_loads Anthropic.initial evs)
      as [[st out] raised]. cbn [fst snd] in Hr.
    rewrite given_texts_app, Hr.
    destruct raised; [|destruct failure]; simpl; by rewrite app_nil_r. }
  split_and!.
  - exact Hread.
  - apply consumed_prefix.
  - intros Hloads. by rewrite Hread, consumed_all.
Qed.

(** X22. [stream_complete] ends no tool use it has not started: it gives
    out at most as many [TOOL_USE_END] events as [TOOL_USE_START]
    events. *)
Theorem stream_complete_ends_follow_starts json_loads evs failure :
  AnthropicSpec.count_type Llm.TOOL_USE_END
    (Anthropic.stream_complete json_loads evs failure)
  ≤ AnthropicSpec.count_type Llm.TOOL_USE_START
      (Anthropic.stream_complete json_loads evs failure).
Proof.
  unfold Anthropic.stream_complete.
  destruct (run_ends_bound json_loads evs Anthropic.initial) as [_ H].
  specialize (H eq_refl).
  destruct (Anthropic.run json_loads Anthropic.initial evs)
    as [[st out] raised]. cbn [fst snd] in H.
  rewrite !count_type_app.
  assert (Hz : ∀ t e, t ≠ Llm.ERROR →
            AnthropicSpec.count_type t [Anthropic.error_event e] = 0).
  { intros t e Ht. unfold AnthropicSpec.count_type.
    rewrite filter_cons_False; [done|]. simpl. congruence. }
  destruct raised as [e|]; [|destruct failure as [e|]];
    rewrite ?Hz by done;
    try change (AnthropicSpec.count_type Llm.TOOL_USE_END []) with 0;
    try change (AnthropicSpec.count_type Llm.TOOL_USE_START []) with 0; lia.
Qed.

(** ** MCP connections and their manager *)

Section McpMore.
Import Mcp.

(** After the manager's [connect] whose disconnecting of the old
    connection did not raise, the registry holds under the name nothing,
    a disconnected connection, or the connection the call returned. *)
Lemma connect_registry env name cfg conns :
  (∀ old, conns !! name = Some old →
          (disconnect_connection (hangup env) old).1 = None) →
  match (connect env name cfg conns).2 !! name with
  | Some c =>
      state c = DISCONNECTED
      ∨ (connect env name cfg conns).1 = ToolBase.Returned c
  | None => True
  end.
Proof.
  intros Hquiet. unfold connect.
  destruct (conns !! name) as [old|] eqn:Hold.
  - pose proof (disconnect_connection_state (hangup env) old) as Hstate.
    rewrite (Hquiet old eq_refl) in Hstate.
    pose proof (Hquiet old eq_refl) as Hnone.
    destruct (disconnect_connection (hangup env) old) as [raised old'].
    cbn [fst snd] in Hstate, Hnone. subst raised.
    destruct (server_kind cfg) as [k|problem].
    + destruct (connect_connection env (new_connection k name cfg))
        as [[|] connection]; cbn [fst snd].
      * rewrite lookup_insert_eq. by right.
      * rewrite lookup_insert_eq. by left.
    + cbn [fst snd]. rewrite lookup_insert_eq. by left.
  - destruct (server_kind cfg) as [k|problem].
    + destruct (connect_connection env (new_connection k name cfg))
        as [[|] connection]; cbn [fst snd].
      * rewrite lookup_insert_eq. by right.
      * by rewrite Hold.
    + cbn [fst snd]. by rewrite Hold.
Qed.

End McpMore.

(** X23. On a stdio connection an id stays in the pending map only for
    a call that is still waiting for it, or for a request whose write to
    the pipe raised: whatever requests are sent, messages read and
    timeouts elapse after the connection came up, every id in the
    pending map is of one of the two kinds, and of the first when no
    write raised. *)
Theorem stdio_pending_ids_have_waiting_calls name cfg evs :
  let r := Mcp.run (Mcp.connected Mcp.Stdio name cfg) evs in
  (∀ id, id ∈ Mcp._pending_requests r.1 →
         is_Some (Mcp.awaiting r.1 !! id) ∨ ∃ msg, Mcp.Failed id msg ∈ r.2)
  ∧ (Forall (λ ev, ¬ Mcp.write_fails ev) evs →
     ∀ id, id ∈ Mcp._pending_requests r.1 → is_Some (Mcp.awaiting r.1 !! id)).
Proof.
  intros r. unfold r. split.
  - apply (stdio_pending_waiting_or_unsent evs
             (Mcp.connected Mcp.Stdio name cfg) []); [done|].
    intros k Hk. by apply elem_of_empty in Hk.
  - intros Hwrites.
    apply (stdio_pending_are_waiting evs Hwrites
             (Mcp.connected Mcp.Stdio name cfg)); [done|].
    intros k Hk. by apply elem_of_empty in Hk.
Qed.

(** The first request is written to a pipe whose server has exited, the
    second goes through: the id 1 stays pending with no call waiting,
    the id 2 is pending with its call waiting. *)
Lemma stdio_pending_ids_have_waiting_calls_witness :
  let r := Mcp.run (Mcp.connected Mcp.Stdio "local" Json.empty_object)
             [Mcp.SendFails "tools/list" "Connection lost";
              Mcp.Send "tools/list"] in
  Mcp._pending_requests r.1 = {[1%Z; 2%Z]}
  ∧ Mcp.awaiting r.1 !! 1%Z = None
  ∧ (is_Some (Mcp.awaiting r.1 !! 1%Z)
     ∨ ∃ msg, Mcp.Failed 1%Z msg ∈ r.2)
  ∧ (is_Some (Mcp.awaiting r.1 !! 2%Z)
     ∨ ∃ msg, Mcp.Failed 2%Z msg ∈ r.2).
Proof.
  pose proof (stdio_pending_ids_have_waiting_calls "local" Json.empty_object
                [Mcp.SendFails "tools/list" "Connection lost";
                 Mcp.Send "tools/list"]) as [Hall _].
  intros r. split_and!.
  - apply (bool_decide_unpack _). vm_compute. exact I.
  - reflexivity.
  - apply Hall. apply (bool_decide_unpack _). vm_compute. exact I.
  - apply Hall. apply (bool_decide_unpack _). vm_compute. exact I.
Defined.

(** X24. A response that arrives after the timeout of its request is
    dropped: the timeout takes the id out of the pending map and ends
    the call, and the message that then carries this id settles nothing
    and changes nothing. *)
Theorem late_response_is_dropped c k method fields id_json :
  Mcp.awaiting c !! k = Some method →
  Json.get "id" (Json.JObj fields) = Some id_json →
  Mcp.key_of id_json = Mcp.Key k →
  Mcp.run c [Mcp.Timeout k; Mcp.Message (Json.JObj fields)]
  = (Mcp.settle k (Mcp.pop_pending k c),
     [Mcp.TimedOut k method (bool_decide (k ∈ Mcp._pending_requests c))]).
Proof.
  intros Hw Hid Hkey. cbn [Mcp.run Mcp.step]. rewrite Hw.
  cbn [Mcp.reading Mcp.settle Mcp.pop_pending].
  destruct (Mcp.reading c); [|done].
  unfold Mcp._handle_message. rewrite Hid, Hkey.
  cbn [Mcp._pending_requests].
  rewrite bool_decide_eq_false_2; [done|].
  simpl. rewrite elem_of_difference, elem_of_singleton. by intros [_ ?].
Qed.

Lemma late_response_is_dropped_witness :
  let c := (Mcp.run (Mcp.connected Mcp.Stdio "local" Json.empty_object)
              [Mcp.Send "tools/list"]).1 in
  Mcp.run c [Mcp.Timeout 1;
             Mcp.Message (Json.JObj [("id", Json.JNum 1);
                                     ("result", Json.JStr "late")])]
  = (Mcp.settle 1 (Mcp.pop_pending 1 c),
     [Mcp.TimedOut 1 "tools/list"
        (bool_decide (1%Z ∈ Mcp._pending_requests c))]).
Proof.
  apply (late_response_is_dropped
           (Mcp.run (Mcp.connected Mcp.Stdio "local" Json.empty_object)
              [Mcp.Send "tools/list"]).1 1 "tools/list"
           [("id", Json.JNum 1); ("result", Json.JStr "late")] (Json.JNum 1));
    reflexivity.
Defined.

(** X25. What a connect attempt leaves.  [connect()] returns [False]
    only in the state [error].  When it returns [True] the
    configuration passed its checks, the transport is up and five
    requests were sent ([initialize], [notifications/initialized] and
    the three list requests); the state is [connected], unless the read
    loop ended with an exception during discovery: then the state is
    [error] with the message of that exception, although [True] is
    returned.  A failed handshake has sent one or two requests; an
    attempt that failed on its configuration or on starting the
    transport has sent none and leaves the pending map and the
    transport as they were.  An id in the pending map afterwards was
    there before, or is the id of a request of this attempt whose call
    raised with the id left in the map. *)
Theorem connect_connection_outcome env c :
  let r := Mcp.connect_connection env c in
  (r.1 = false → Mcp.state r.2 = Mcp.ERROR)
  ∧ (Mcp.state r.2 = Mcp.CONNECTED → r.1 = true)
  ∧ (r.1 = true →
     Mcp.check_config c = None
     ∧ Mcp.transport_error env = None
     ∧ Mcp.process r.2 = true
     ∧ match Mcp.late_loop_error env with
       | None => Mcp.state r.2 = Mcp.CONNECTED
       | Some msg =>
           Mcp.state r.2 = Mcp.ERROR ∧ Mcp.error_message r.2 = Some msg
       end
     ∧ Mcp._request_id r.2 = (Mcp._request_id c + 5)%Z)
  ∧ (r.1 = false →
     if bool_decide (Mcp.check_config c = None
                     ∧ Mcp.transport_error env = None)
     then (Mcp._request_id c + 1 ≤ Mcp._request_id r.2
           ≤ Mcp._request_id c + 2)%Z
     else Mcp._request_id r.2 = Mcp._request_id c
          ∧ Mcp._pending_requests r.2 = Mcp._pending_requests c
          ∧ Mcp.process r.2 = Mcp.process c)
  ∧ (∀ k, k ∈ Mcp._pending_requests r.2 →
          k ∈ Mcp._pending_requests c
          ∨ Mcp.left_pending env (Mcp._request_id c) k).
Proof.
  intros r. unfold r.
  destruct (connect_connection_facts env c) as (Hf & Ht & Hn & Hk).
  split_and!; [done| |done|done|done].
  intros Hs. destruct (Mcp.connect_connection env c).1; [done|].
  by rewrite (Hf eq_refl) in Hs.
Qed.

(** A stdio server that answers the handshake and exits: [tools/list]
    is written and times out, the writes of [resources/list] and
    [prompts/list] raise.  [connect()] returns [True] in the state
    [connected], the counter stands at 5 and the ids 4 and 5 are left in
    the pending map. *)
Example connect_counts_requests :
  let env := Scenario.mcp_env None None
               [Mcp.Ended (McpManager.Answered Scenario.server_hello);
                Mcp.Ended (McpManager.Answered Json.empty_object);
                Mcp.Ended (McpManager.CallFailed
                             "Request tools/list timed out");
                Mcp.LeftPending "Connection lost";
                Mcp.LeftPending "Connection lost"] in
  let r := Mcp.connect_connection env
             (Mcp.new_connection Mcp.Stdio "echo"
                (Json.JObj [("command", Json.JStr "echo-mcp-server")])) in
  r.1 = true ∧ Mcp.state r.2 = Mcp.CONNECTED
  ∧ Mcp._request_id r.2 = 5%Z ∧ Mcp._pending_requests r.2 = {[4%Z; 5%Z]}.
Proof.
  split_and!; [reflexivity|reflexivity|reflexivity|].
  apply (bool_decide_unpack _). vm_compute. exact I.
Qed.

(** X26. A stdio command with a shell character is never started: when
    the configured command holds one of [;&|$`(){}], [connect()] fails
    with the error [Command contains invalid shell characters] whatever
    the environment would do, and the transport stays as it was. *)
Theorem stdio_shell_command_rejected env c command ch :
  Mcp.kind c = Mcp.Stdio →
  Json.get "command" (Mcp.config c) = Some (Json.JStr command) →
  ch ∈ Mcp.shell_characters →
  ch ∈ PyStr.chars command →
  Mcp.connect_connection env c
  = (false, Mcp.failed "Command contains invalid shell characters" c).
Proof.
  intros Hkind Hcmd Hshell Hin. unfold Mcp.connect_connection.
  unfold Mcp.check_config, Mcp.config_get.
  destruct (Mcp.config c) as [| | | | |fields] eqn:Hconfig; try done.
  rewrite Hkind, Hcmd.
  cbn [default from_option id]. unfold Mcp.check_command.
  assert (Hne : Json.truthy (Json.JStr command) = true).
  { destruct command; [by apply elem_of_nil in Hin|done]. }
  rewrite Hne. cbn [negb].
  assert (Hex : existsb (λ ch, bool_decide (ch ∈ PyStr.chars command))
                        Mcp.shell_characters = true).
  { apply existsb_exists. exists ch. split.
    - by apply list_elem_of_In.
    - by apply bool_decide_eq_true_2. }
  by rewrite Hex.
Qed.

Lemma stdio_shell_command_rejected_witness :
  let c := Mcp.new_connection Mcp.Stdio "local"
             (Json.JObj [("command", Json.JStr "ls; rm -rf /")]) in
  Mcp.connect_connection (Scenario.mcp_env None None []) c
  = (false, Mcp.failed "Command contains invalid shell characters" c).
Proof.
  apply (stdio_shell_command_rejected (Scenario.mcp_env None None [])
           (Mcp.new_connection Mcp.Stdio "local"
              (Json.JObj [("command", Json.JStr "ls; rm -rf /")]))
           "ls; rm -rf /" ";"%char).
  - reflexivity.
  - reflexivity.
  - apply (bool_decide_unpack _). vm_compute. exact I.
  - apply (bool_decide_unpack _). vm_compute. exact I.
Defined.

(** X27. After a connect attempt that did not succeed, the manager does
    not call tools on that server.  When disconnecting the connection
    registered under the name before did not raise, and [connect] then
    raised or returned a connection that is not in the state
    [connected], [call_tool] for that name raises
    [Server <name> is not connected] and changes nothing. *)
Theorem call_tool_after_failed_connect env write_error reply name cfg conns :
  let r := Mcp.connect env name cfg conns in
  (∀ old, conns !! name = Some old →
          (Mcp.disconnect_connection (Mcp.hangup env) old).1 = None) →
  match r.1 with
  | ToolBase.Returned c => Mcp.state c ≠ Mcp.CONNECTED
  | ToolBase.Raised _ => True
  end →
  Mcp.call_tool write_error reply name r.2
  = (ToolBase.Raised ("Server " +:+ name +:+ " is not connected"), r.2).
Proof.
  intros r Hquiet Hfail. unfold r in *.
  pose proof (connect_registry env name cfg conns Hquiet) as Hreg.
  unfold Mcp.call_tool.
  destruct ((Mcp.connect env name cfg conns).2 !! name) as [c|]; [|done].
  rewrite bool_decide_eq_false_2; [done|].
  destruct Hreg as [Hd|Hr]; [by rewrite Hd|].
  by rewrite Hr in Hfail.
Qed.

Lemma call_tool_after_failed_connect_witness :
  let r := Mcp.connect
             (Scenario.mcp_env None
                (Some "[Errno 2] No such file or directory: 'mcp-server'") [])
             "local" (Json.JObj [("command", Json.JStr "mcp-server")]) ∅ in
  Mcp.call_tool None (Mcp.PostRaised "unused") "local" r.2
  = (ToolBase.Raised ("Server " +:+ "local" +:+ " is not connected"), r.2).
Proof.
  apply (call_tool_after_failed_connect
           (Scenario.mcp_env None
              (Some "[Errno 2] No such file or directory: 'mcp-server'") [])
           None (Mcp.PostRaised "unused")
           "local" (Json.JObj [("command", Json.JStr "mcp-server")]) ∅).
  - intros old Hold. by rewrite lookup_empty in Hold.
  - vm_compute. discriminate.
Defined.

(** The case X27 leaves out: the old server process has exited, so
    that terminating it raises [ProcessLookupError()], whose text is
    empty; [connect] raises with it, and the old connection stays
    registered in the state [connected]; [call_tool] then goes to it. *)
Example call_tool_after_raised_disconnect :
  let old := Mcp.connected Mcp.Stdio "local"
               (Json.JObj [("command", Json.JStr "mcp-server")]) in
  let r := Mcp.connect
             (Scenario.mcp_env (Some "") None [])
             "local" (Json.JObj [("command", Json.JStr "mcp-server")])
             {["local" := old]} in
  r.1 = ToolBase.Raised ""
  ∧ Mcp.state <$> r.2 !! "local" = Some Mcp.CONNECTED
  ∧ (Mcp.call_tool None (Mcp.PostRaised "unused") "local" r.2).1
    = ToolBase.Returned [Mcp.Issued 1 "tools/call"].
Proof. by vm_compute. Qed.

(** X28. The manager's [disconnect] forgets the server once its
    connection is closed.  Other entries are never touched.  When
    closing the connection does not raise, the name is no longer
    registered, a second [disconnect] changes nothing, and [call_tool]
    for the name raises [Server <name> is not connected].  When closing
    it raises, the exception leaves the call and the connection stays
    registered, in the state it had. *)
Theorem disconnect_forgets_server hangup write_error reply name conns :
  let r := Mcp.manager_disconnect hangup name conns in
  (∀ other, other ≠ name → r.2 !! other = conns !! other)
  ∧ match r.1 with
    | None =>
        r.2 !! name = None
        ∧ Mcp.manager_disconnect hangup name r.2 = (None, r.2)
        ∧ Mcp.call_tool write_error reply name r.2
          = (ToolBase.Raised ("Server " +:+ name +:+ " is not connected"),
             r.2)
    | Some msg =>
        hangup = Some msg
        ∧ ∃ c, conns !! name = Some c
               ∧ Mcp.process c = true
               ∧ r.2 !! name = Some (Mcp.disconnect_connection hangup c).2
               ∧ Mcp.state (Mcp.disconnect_connection hangup c).2
                 = Mcp.state c
    end.
Proof.
  intros r. unfold r, Mcp.manager_disconnect.
  destruct (conns !! name) as [c|] eqn:Hc.
  - pose proof (disconnect_connection_state hangup c) as Hstate.
    destruct (Mcp.disconnect_connection hangup c) as [[msg|] c'] eqn:Hd;
      cbn [fst snd] in *.
    + split; [intros other Hne; by rewrite lookup_insert_ne|].
      destruct Hstate as (Hh & Hp & Hs). split; [done|].
      exists c. rewrite Hd. cbn [snd]. by rewrite lookup_insert_eq.
    + split; [intros other Hne; by rewrite lookup_delete_ne|].
      unfold Mcp.call_tool. by rewrite lookup_delete_eq.
  - cbn [fst snd]. split; [done|].
    unfold Mcp.call_tool. by rewrite Hc.
Qed.

(** A server process that has exited: [terminate()] raises
    [ProcessLookupError()], whose text is empty, and the manager keeps
    the entry, still in the state [connected]. *)
Example disconnect_raises_keeps_entry :
  let c := Mcp.connected Mcp.Stdio "local"
             (Json.JObj [("command", Json.JStr "mcp-server")]) in
  let r := Mcp.manager_disconnect (Some "") "local" {["local" := c]} in
  r.1 = Some ""
  ∧ Mcp.state <$> r.2 !! "local" = Some Mcp.CONNECTED.
Proof. by vm_compute. Qed.

(** X29. The handshake [initialize] returns [True] exactly when the
    [initialize] request is answered with a non-empty object whose
    [serverInfo] and [capabilities] validate and the request
    [notifications/initialized] is answered as well; it then stores no
    error message. *)
Theorem initialize_succeeds_iff valid_server_info valid_capabilities first
    second :
  let r := McpManager.initialize valid_server_info valid_capabilities first
             second in
  (r.1 = true ↔
   ∃ fields answer,
     first = McpManager.Answered (Json.JObj fields)
     ∧ fields ≠ []
     ∧ valid_server_info
         (default (Json.JObj []) (Json.get "serverInfo" (Json.JObj fields)))
       = true
     ∧ valid_capabilities
         (default (Json.JObj []) (Json.get "capabilities" (Json.JObj fields)))
       = true
     ∧ second = McpManager.Answered answer)
  ∧ (r.1 = true → r.2 = None).
Proof.
  intros r. unfold r, McpManager.initialize.
  destruct first as [result|msg].
  2: { split; [|done]. split; [done|]. by intros (? & ? & ? & _). }
  destruct result as [|b|z|s|items|fields];
    try (split; [split; [by destruct (Json.truthy _)
                        |by intros (? & ? & ? & _)]
                |by destruct (Json.truthy _)]).
  destruct fields as [|kv fields].
  { change (Json.truthy (Json.JObj [])) with false. cbv iota.
    split; [|done]. split; [done|].
    intros (fs & a & Heq & Hne & _). by simplify_eq. }
  change (Json.truthy (Json.JObj (kv :: fields))) with true. cbv iota.
  destruct (valid_server_info _) eqn:Hi; destruct (valid_capabilities _) eqn:Hc;
    cbn [andb];
    try (split; [|done]; (split; [done|]);
         intros (? & ? & ? & ? & ? & ? & _); simplify_eq; congruence).
  destruct second as [answer|msg]; cbn [fst snd].
  - split; [|done]. split; [|done]. intros _.
    by exists (kv :: fields), answer.
  - split; [|done]. split; [done|]. by intros (? & ? & _ & _ & _ & _ & ?).
Qed.
